(** * The task chains of mcp-server-go/internal/tools/task_tools.go

    A shallow embedding of the V2 task-chain handlers ([initTaskChainV2],
    [startStepV2], [completeStepV2], [renderDecisionPoint], [insertStepsV2],
    [updateStepsV2], [deleteStepsV2]) and of [finishChain], of the legacy
    handlers ([initTaskChain] with [enhanceStepDescription], [getNextStep],
    [resumeTask], [insertSteps], [deleteSteps]) and of the dispatch of
    [wrapTaskChain], followed by the properties of the step life cycle, of
    the handlers and of the legacy chain.

    Conventions of the embedding:
    - a Go [float64] is a primitive binary64 float, so [==], [>], [+] and [/]
      are the IEEE operations the Go code runs;
    - a Go [string] is a sequence of bytes ([string] of [ascii]), so [len] is
      [String.length] and [s[:n]] is [String.substring 0 n s];
    - a Go map from [string] to a pointer to [T] is a [gmap string T]; a nil
      map reads like the empty map and is replaced by a fresh map before the
      one assignment into it, so both are the empty [gmap];
    - a handler returns a pointer to an [mcp.CallToolResult] and a nil [error],
      and mutates the session through pointers; here it takes the session and
      returns the new session together with the result, and has no result
      ([None]) where the Go code panics;
    - a Go [int] is a 64-bit integer. *)

From Stdlib Require Import Floats Uint63 ZArith Ascii.
From stdpp Require Import gmap strings list fin_maps sorting.

#[local] Set Warnings "-inexact-float".
#[local] Open Scope string_scope.
#[local] Open Scope list_scope.
#[local] Open Scope nat_scope.

(** ** Data model *)

(** Modelled from the spec: the declaration of [StepStatus] and of its three
    constants is not part of the reviewed sources; the spec gives
    status ∈ {Todo, InProgress, Complete}. *)
Inductive StepStatus : Set :=
| StepStatusTodo
| StepStatusInProgress
| StepStatusComplete.

#[global] Instance StepStatus_eq_dec : EqDecision StepStatus.
Proof. solve_decision. Defined.

(** Position of a status on the path Todo, InProgress, Complete. *)
Definition status_rank (st : StepStatus) : nat :=
  match st with
  | StepStatusTodo => 0
  | StepStatusInProgress => 1
  | StepStatusComplete => 2
  end.

(** Modelled from the spec: the struct [Step] is declared outside the reviewed
    sources; its fields are the ones the handlers read and write. *)
Module Step.
Record t : Set := mk {
  Number : float;
  Name : string;
  Input : string;
  Status : StepStatus;
  Summary : string
}.

Definition with_Status (st : StepStatus) (s : t) : t :=
  mk (Number s) (Name s) (Input s) st (Summary s).

Definition with_Summary (summary : string) (s : t) : t :=
  mk (Number s) (Name s) (Input s) (Status s) summary.
End Step.

(** Modelled from the spec: the struct [TaskChainV2] is declared outside the
    reviewed sources. Its field [Steps] is a Go slice: [Steps] are the
    elements of the slice, and [Spare] is what the first cell of its array
    holds while the slice has no element ([None]: the array has no cell), which
    is what [chain.Steps[:1]] then reads. While the slice has elements its
    first cell is its first element, and [Spare] is not read. *)
Module TaskChainV2.
Record t : Set := mk {
  TaskID : string;
  Description : string;
  Steps : list Step.t;
  CurrentStep : float;
  Status : string;
  Spare : option Step.t
}.

(** The first cell of the array of [chain.Steps], if it has one. *)
Definition firstCell (c : t) : option Step.t :=
  match Steps c with
  | s :: _ => Some s
  | [] => Spare c
  end.

(** [chain.Steps] becomes a slice of its own array, or of a longer copy of
    it: written in place, re-sliced or appended to. When this leaves no
    element, the first cell keeps what it held. *)
Definition with_Steps (steps : list Step.t) (c : t) : t :=
  mk (TaskID c) (Description c) steps (CurrentStep c) (Status c)
     (match steps with [] => firstCell c | _ :: _ => Spare c end).

(** [chain.Steps] becomes a slice made by [make([]Step, 0)] and [append]:
    without elements, its array has no cell. *)
Definition with_NewSteps (steps : list Step.t) (c : t) : t :=
  mk (TaskID c) (Description c) steps (CurrentStep c) (Status c) None.

Definition with_CurrentStep (n : float) (c : t) : t :=
  mk (TaskID c) (Description c) (Steps c) n (Status c) (Spare c).
End TaskChainV2.

(** The legacy linear chain; [finishChain] works on this one. *)
Module TaskChain.
Record t : Set := mk {
  TaskID : string;
  Plan : list string;
  CurrentStep : Z;
  Status : string
}.

Definition with_Status (st : string) (c : t) : t :=
  mk (TaskID c) (Plan c) (CurrentStep c) st.
End TaskChain.

(** The two chain stores of the session manager (its other fields are not used
    by the task-chain handlers). *)
Record SessionManager : Type := mkSession {
  TaskChains : gmap string TaskChain.t;
  TaskChainsV2 : gmap string TaskChainV2.t
}.

Definition with_TaskChains (m : gmap string TaskChain.t) (sm : SessionManager)
  : SessionManager :=
  mkSession m (TaskChainsV2 sm).

Definition with_TaskChainsV2 (m : gmap string TaskChainV2.t) (sm : SessionManager)
  : SessionManager :=
  mkSession (TaskChains sm) m.

Definition emptySession : SessionManager := mkSession ∅ ∅.

(** One entry of [plan], [insert_plan] or [update_plan], a
    [map[string]interface{}]: each key present is mapped to the text that
    [fmt.Sprintf("%v", value)] gives for its value. *)
Abbreviation PlanEntry := (gmap string string).

(** ** Results *)

(** The texts passed to [mcp.NewToolResultError], one constructor per message;
    the arguments are the values formatted into the message. In the words of
    the spec: [ErrPlanRequired] is EmptyPlan, [ErrSummaryRequired] is
    MissingSummary, [ErrChainNotFound] is ChainNotFound, [ErrStepNotFound] is
    StepNotFound and AnchorNotFound (the same message), [ErrCannotStart] and
    [ErrCannotComplete] are InvalidTransition, [ErrDeleteInProgress] is
    CannotDeleteActive. *)
Inductive ToolError : Type :=
| ErrTaskIDRequired (mode : string)
| ErrPlanRequired
| ErrInsertPlanRequired
| ErrUpdatePlanRequired
| ErrSummaryRequired
| ErrChainNotFound (taskID : string)
| ErrStepNotFound (stepNumber : float)
| ErrCannotStart (stepNumber : float) (st : StepStatus)
| ErrCannotComplete (stepNumber : float) (st : StepStatus)
| ErrDeleteInProgress (stepNumber : float)
| ErrDeleteTargetRequired.

(** The briefing [renderDecisionPoint] writes, as data: the completed step, the
    next Todo step after it, the preview of the completed steps (number, name
    and, for a non-empty summary, its preview) and the preview of the Todo
    steps, which is only written when there is a next step. *)
Record DecisionPoint : Type := mkDecisionPoint {
  dpTaskID : string;
  dpCompleted : Step.t;
  dpNext : option Step.t;
  dpCompletedPreview : list (float * string * option string);
  dpRemainingPreview : option (list Step.t)
}.

(** The texts passed to [mcp.NewToolResultText], by the values formatted into
    them. *)
Inductive ToolText : Type :=
| TextStepStarted (taskID : string) (stepNumber : float) (name description input : string)
| TextDecisionPoint (dp : DecisionPoint)
| TextInserted (count : nat) (after : float) (newSteps : list Step.t) (total : nat)
| TextUpdated (from : float) (count : nat) (newSteps : list Step.t)
| TextDeletedRemaining (deleted kept : nat)
| TextDeletedStep (stepNumber : float) (name : string)
| TextChainFinished (taskID : string).

Inductive CallToolResult : Type :=
| NewToolResultText (text : ToolText)
| NewToolResultError (e : ToolError).

Definition isError (r : CallToolResult) : bool :=
  match r with
  | NewToolResultError _ => true
  | NewToolResultText _ => false
  end.

(** ** Helpers shared by the handlers *)

(** [float64(n)] for a non-negative [int] n. *)
Definition float64_of_nat (n : nat) : float :=
  PrimFloat.of_uint63 (Uint63.of_Z (Z.of_nat n)).

(** [step.Number == stepNumber], the comparison of every lookup loop. *)
Definition hasNumber (stepNumber : float) (s : Step.t) : Prop :=
  PrimFloat.eqb (Step.Number s) stepNumber = true.

#[global] Instance hasNumber_dec stepNumber s : Decision (hasNumber stepNumber s).
Proof. unfold hasNumber. apply _. Defined.

(** The loop [for i := range chain.Steps { if chain.Steps[i].Number == n {
    ...; break } }]: the first index whose step has number [n], with the step. *)
Definition findStep (stepNumber : float) (steps : list Step.t) : option (nat * Step.t) :=
  list_find (hasNumber stepNumber) steps.

(** The step built from one plan entry: [name := fmt.Sprintf("%v",
    step["name"])], which is ["<nil>"] for a missing key, and [input] the text
    of [step["input"]] when the key is present. *)
Definition planStep (number : float) (step : PlanEntry) : Step.t :=
  Step.mk number (default "<nil>" (step !! "name")) (default "" (step !! "input"))
    StepStatusTodo "".

Definition isTodo (s : Step.t) : Prop := Step.Status s = StepStatusTodo.

#[global] Instance isTodo_dec s : Decision (isTodo s).
Proof. unfold isTodo. apply _. Defined.

(** ** The handlers *)

(** [startStepV2] *)
Definition startStepV2 (sm : SessionManager) (taskID : string) (stepNumber : float)
  : SessionManager * CallToolResult :=
  if decide (taskID = "") then (sm, NewToolResultError (ErrTaskIDRequired "start"))
  else
    match TaskChainsV2 sm !! taskID with
    | None => (sm, NewToolResultError (ErrChainNotFound taskID))
    | Some chain =>
      match findStep stepNumber (TaskChainV2.Steps chain) with
      | None => (sm, NewToolResultError (ErrStepNotFound stepNumber))
      | Some (i, targetStep) =>
        if decide (Step.Status targetStep ≠ StepStatusTodo)
        then (sm, NewToolResultError (ErrCannotStart stepNumber (Step.Status targetStep)))
        else
          let steps := <[i := Step.with_Status StepStatusInProgress targetStep]>
                         (TaskChainV2.Steps chain) in
          let chain' := TaskChainV2.with_CurrentStep stepNumber
                          (TaskChainV2.with_Steps steps chain) in
          (with_TaskChainsV2 (<[taskID := chain']> (TaskChainsV2 sm)) sm,
           NewToolResultText
             (TextStepStarted taskID stepNumber (Step.Name targetStep)
                (TaskChainV2.Description chain') (Step.Input targetStep)))
      end
    end.

(** [initTaskChainV2]: the steps are numbered [float64(i + 1)] in plan order,
    the chain is stored under [taskID] (whatever was stored there before), and
    step 1 is started. *)
Definition initTaskChainV2 (sm : SessionManager) (taskID description : string)
    (plan : list PlanEntry) : SessionManager * CallToolResult :=
  if decide (taskID = "") then (sm, NewToolResultError (ErrTaskIDRequired "step"))
  else if decide (length plan = 0) then (sm, NewToolResultError ErrPlanRequired)
  else
    let steps := imap (fun i step => planStep (float64_of_nat (i + 1)) step) plan in
    let chain := TaskChainV2.mk taskID description steps 1%float "running" None in
    startStepV2 (with_TaskChainsV2 (<[taskID := chain]> (TaskChainsV2 sm)) sm)
      taskID 1%float.

(** [summaryPreview] of [renderDecisionPoint]: a summary of more than 100 bytes
    is cut to its first 100 bytes, followed by three dots. *)
Definition summaryPreview (summary : string) : string :=
  if decide (100 < String.length summary)
  then String.substring 0 100 summary +:+ "..."
  else summary.

(** The loop over [chain.Steps] that writes the completed steps: one entry per
    Complete step, with the preview of its summary unless the summary is
    empty. *)
Definition completedPreview (steps : list Step.t) : list (float * string * option string) :=
  omap (fun step : Step.t =>
          if decide (Step.Status step = StepStatusComplete)
          then Some (Step.Number step, Step.Name step,
                     if decide (Step.Summary step ≠ "")
                     then Some (summaryPreview (Step.Summary step))
                     else None)
          else None) steps.

(** The zero value of [Step], with Todo standing for the empty status text;
    only used to make [chain.Steps[completedIdx]] total. *)
#[global] Instance Step_inhabited : Inhabited Step.t :=
  populate (Step.mk 0%float "" "" StepStatusTodo "").

(** [renderDecisionPoint]: [completedStep := chain.Steps[completedIdx]], where
    the one caller passes the index it has just found (out of range Go would
    panic). The next step is the first Todo step at an index greater than
    [completedIdx]; the Todo steps are only listed when there is one. *)
Definition renderDecisionPoint (chain : TaskChainV2.t) (completedIdx : nat)
  : CallToolResult :=
  let steps := TaskChainV2.Steps chain in
  let completedStep := steps !!! completedIdx in
  let nextStep : option Step.t :=
    snd <$> list_find isTodo (drop (S completedIdx) steps) in
  NewToolResultText (TextDecisionPoint
    (mkDecisionPoint (TaskChainV2.TaskID chain) completedStep nextStep
       (completedPreview steps)
       (match nextStep with
        | Some _ => Some (filter isTodo steps)
        | None => None
        end))).

(** [completeStepV2] *)
Definition completeStepV2 (sm : SessionManager) (taskID : string) (stepNumber : float)
    (summary : string) : SessionManager * CallToolResult :=
  if decide (taskID = "") then (sm, NewToolResultError (ErrTaskIDRequired "complete"))
  else if decide (summary = "") then (sm, NewToolResultError ErrSummaryRequired)
  else
    match TaskChainsV2 sm !! taskID with
    | None => (sm, NewToolResultError (ErrChainNotFound taskID))
    | Some chain =>
      match findStep stepNumber (TaskChainV2.Steps chain) with
      | None => (sm, NewToolResultError (ErrStepNotFound stepNumber))
      | Some (targetIdx, targetStep) =>
        if decide (Step.Status targetStep ≠ StepStatusInProgress)
        then (sm, NewToolResultError (ErrCannotComplete stepNumber (Step.Status targetStep)))
        else
          let targetStep' := Step.with_Status StepStatusComplete
                               (Step.with_Summary summary targetStep) in
          let chain' := TaskChainV2.with_Steps
                          (<[targetIdx := targetStep']> (TaskChainV2.Steps chain)) chain in
          (with_TaskChainsV2 (<[taskID := chain']> (TaskChainsV2 sm)) sm,
           renderDecisionPoint chain' targetIdx)
      end
    end.

(** [insertStepsV2]: the new steps are numbered [after + float64(i+1)/10.0] and
    spliced in behind the first step whose number is [after]. *)
Definition insertStepsV2 (sm : SessionManager) (taskID : string) (after : float)
    (insertPlan : list PlanEntry) : SessionManager * CallToolResult :=
  if decide (taskID = "") then (sm, NewToolResultError (ErrTaskIDRequired "insert"))
  else if decide (length insertPlan = 0) then (sm, NewToolResultError ErrInsertPlanRequired)
  else
    match TaskChainsV2 sm !! taskID with
    | None => (sm, NewToolResultError (ErrChainNotFound taskID))
    | Some chain =>
      match findStep after (TaskChainV2.Steps chain) with
      | None => (sm, NewToolResultError (ErrStepNotFound after))
      | Some (i, _) =>
        let insertIdx := i + 1 in
        let baseNumber := after in
        let newSteps :=
          imap (fun i step => planStep (baseNumber + float64_of_nat (i + 1) / 10)%float step)
            insertPlan in
        let steps := (take insertIdx (TaskChainV2.Steps chain) ++
                      (newSteps ++ drop insertIdx (TaskChainV2.Steps chain)))%list in
        (with_TaskChainsV2
           (<[taskID := TaskChainV2.with_Steps steps chain]> (TaskChainsV2 sm)) sm,
         NewToolResultText (TextInserted (length insertPlan) after newSteps (length steps)))
      end
    end.

(** [updateStepsV2]: [startIdx] is the index of the first step numbered [from],
    and stays 0 when there is none; the steps up to [startIdx] are kept and the
    new ones, numbered [from + float64(i)], are appended.

    [chain.Steps[:startIdx+1]] is within the length of [chain.Steps] unless the
    chain has no step at all. There it is [chain.Steps[:1]], the first cell of
    the array of the slice: the step that cell still holds comes back in front
    of the new steps, and the Go code panics when the array has no cell, which
    is [None] here. *)
Definition updateStepsV2 (sm : SessionManager) (taskID : string) (from : float)
    (updatePlan : list PlanEntry) : option (SessionManager * CallToolResult) :=
  if decide (taskID = "") then Some (sm, NewToolResultError (ErrTaskIDRequired "update"))
  else if decide (length updatePlan = 0) then Some (sm, NewToolResultError ErrUpdatePlanRequired)
  else
    match TaskChainsV2 sm !! taskID with
    | None => Some (sm, NewToolResultError (ErrChainNotFound taskID))
    | Some chain =>
      let startIdx := default 0 (fst <$> findStep from (TaskChainV2.Steps chain)) in
      let newSteps :=
        imap (fun i step => planStep (from + float64_of_nat i)%float step) updatePlan in
      let keptSteps : option (list Step.t) :=
        match TaskChainV2.Steps chain with
        | [] => (fun cell => [cell]) <$> TaskChainV2.Spare chain
        | _ :: _ => Some (take (startIdx + 1) (TaskChainV2.Steps chain))
        end in
      match keptSteps with
      | None => None
      | Some keptSteps =>
        Some (with_TaskChainsV2
                (<[taskID := TaskChainV2.with_Steps (keptSteps ++ newSteps)%list chain]>
                   (TaskChainsV2 sm)) sm,
              NewToolResultText (TextUpdated from (length updatePlan) newSteps))
      end
    end.

(** The steps that the branch [deleteScope == "remaining"] of [deleteStepsV2]
    copies to the new slice. *)
Definition keptByDeleteRemaining (step : Step.t) : Prop :=
  Step.Status step = StepStatusComplete ∨ Step.Status step = StepStatusInProgress.

#[global] Instance keptByDeleteRemaining_dec step : Decision (keptByDeleteRemaining step).
Proof. unfold keptByDeleteRemaining. apply _. Defined.

(** [deleteStepsV2]: the branch for the remaining steps collects the steps it
    keeps in a slice of its own ([make([]Step, 0)]); the delete of one step,
    [append(chain.Steps[:i], chain.Steps[i+1:]...)], moves the steps behind it
    one cell forward in the array of [chain.Steps]. *)
Definition deleteStepsV2(sm : SessionManager) (taskID : string) (stepToDelete : float)
    (deleteScope : string) : SessionManager * CallToolResult :=
  if decide (taskID = "") then (sm, NewToolResultError (ErrTaskIDRequired "delete"))
  else
    match TaskChainsV2 sm !! taskID with
    | None => (sm, NewToolResultError (ErrChainNotFound taskID))
    | Some chain =>
      if decide (deleteScope = "remaining") then
        let newSteps := filter keptByDeleteRemaining (TaskChainV2.Steps chain) in
        let deleted := length (TaskChainV2.Steps chain) - length newSteps in
        (with_TaskChainsV2
           (<[taskID := TaskChainV2.with_NewSteps newSteps chain]> (TaskChainsV2 sm)) sm,
         NewToolResultText (TextDeletedRemaining deleted (length newSteps)))
      else if PrimFloat.ltb 0 stepToDelete then
        match findStep stepToDelete (TaskChainV2.Steps chain) with
        | Some (i, step) =>
          if decide (Step.Status step = StepStatusInProgress)
          then (sm, NewToolResultError (ErrDeleteInProgress stepToDelete))
          else
            (with_TaskChainsV2
               (<[taskID := TaskChainV2.with_Steps (delete i (TaskChainV2.Steps chain)) chain]>
                  (TaskChainsV2 sm)) sm,
             NewToolResultText (TextDeletedStep stepToDelete (Step.Name step)))
        | None => (sm, NewToolResultError (ErrStepNotFound stepToDelete))
        end
      else (sm, NewToolResultError ErrDeleteTargetRequired)
    end.

(** [finishChain]: the chain it marks is looked up in [sm.TaskChains], the
    store of the legacy chains. *)
Definition finishChain (sm : SessionManager) (taskID : string)
  : SessionManager * CallToolResult :=
  if decide (taskID = "") then (sm, NewToolResultError (ErrTaskIDRequired "finish"))
  else
    match TaskChains sm !! taskID with
    | Some chain =>
      (with_TaskChains (<[taskID := TaskChain.with_Status "finished" chain]> (TaskChains sm)) sm,
       NewToolResultText (TextChainFinished taskID))
    | None => (sm, NewToolResultText (TextChainFinished taskID))
    end.

(** ** The operations of the state machine *)

(** The seven modes of [wrapTaskChain] that the spec calls the operations of
    the state machine, each with the arguments its handler receives (mode
    [step] is initialize). *)
Inductive Op : Type :=
| OpStep (taskID description : string) (plan : list PlanEntry)
| OpStart (taskID : string) (stepNumber : float)
| OpComplete (taskID : string) (stepNumber : float) (summary : string)
| OpInsert (taskID : string) (after : float) (insertPlan : list PlanEntry)
| OpUpdate (taskID : string) (from : float) (updatePlan : list PlanEntry)
| OpDelete (taskID : string) (stepNumber : float) (deleteScope : string)
| OpFinish (taskID : string).

(** The dispatch of [wrapTaskChain] on these modes. *)
Definition wrapTaskChain (sm : SessionManager) (op : Op)
  : option (SessionManager * CallToolResult) :=
  match op with
  | OpStart taskID stepNumber => Some (startStepV2 sm taskID stepNumber)
  | OpComplete taskID stepNumber summary => Some (completeStepV2 sm taskID stepNumber summary)
  | OpStep taskID description plan => Some (initTaskChainV2 sm taskID description plan)
  | OpInsert taskID after insertPlan => Some (insertStepsV2 sm taskID after insertPlan)
  | OpUpdate taskID from updatePlan => updateStepsV2 sm taskID from updatePlan
  | OpDelete taskID stepNumber deleteScope => Some (deleteStepsV2 sm taskID stepNumber deleteScope)
  | OpFinish taskID => Some (finishChain sm taskID)
  end.

(** The sessions the operations can produce from the empty session. *)
Inductive reachable : SessionManager -> Prop :=
| reachable_empty : reachable emptySession
| reachable_op sm op sm' r :
    reachable sm -> wrapTaskChain sm op = Some (sm', r) -> reachable sm'.

(** The session after a sequence of operations, [None] as soon as one of them
    has no result. *)
Fixpoint runOps (sm : SessionManager) (ops : list Op) : option SessionManager :=
  match ops with
  | [] => Some sm
  | op :: rest =>
    match wrapTaskChain sm op with
    | Some (sm', _) => runOps sm' rest
    | None => None
    end
  end.

(** ** Notions used by the properties *)

(** The steps [initTaskChainV2] leaves behind: one step per plan entry,
    numbered from 1 in plan order, the first one in progress and the others
    Todo. *)
Definition plannedSteps (plan : list PlanEntry) : list Step.t :=
  imap (fun i step =>
          Step.with_Status (if decide (i = 0) then StepStatusInProgress else StepStatusTodo)
            (planStep (float64_of_nat (i + 1)) step)) plan.

Definition plannedChain (taskID description : string) (plan : list PlanEntry)
  : TaskChainV2.t :=
  TaskChainV2.mk taskID description (plannedSteps plan) 1%float "running" None.

(** The steps [insertStepsV2] creates: the k-th one (from 1) has number
    [after + k/10]. *)
Definition insertedSteps (after : float) (insertPlan : list PlanEntry) : list Step.t :=
  imap (fun i step => planStep (after + float64_of_nat (i + 1) / 10)%float step) insertPlan.

(** Step numbers in storage order are pairwise distinct for [==], and
    ascending for [<]. *)
Definition distinctNumbers (steps : list Step.t) : Prop :=
  StronglySorted (fun a b => PrimFloat.eqb (Step.Number a) (Step.Number b) = false) steps.

Definition ascendingNumbers (steps : list Step.t) : Prop :=
  StronglySorted (fun a b => PrimFloat.ltb (Step.Number a) (Step.Number b) = true) steps.

Definition orderedSteps (steps : list Step.t) : Prop :=
  distinctNumbers steps ∧ ascendingNumbers steps.

(** Boolean versions, for evaluation. *)
Fixpoint pairwiseb (r : Step.t -> Step.t -> bool) (steps : list Step.t) : bool :=
  match steps with
  | [] => true
  | a :: rest => forallb (r a) rest && pairwiseb r rest
  end.

Definition distinctNumbersb (steps : list Step.t) : bool :=
  pairwiseb (fun a b => negb (PrimFloat.eqb (Step.Number a) (Step.Number b))) steps.

Definition ascendingNumbersb (steps : list Step.t) : bool :=
  pairwiseb (fun a b => PrimFloat.ltb (Step.Number a) (Step.Number b)) steps.

Definition orderedStepsb (steps : list Step.t) : bool :=
  distinctNumbersb steps && ascendingNumbersb steps.

(** Every V2 chain of the session has distinct, ascending step numbers. *)
Definition allOrdered (sm : SessionManager) : Prop :=
  ∀ taskID chain, TaskChainsV2 sm !! taskID = Some chain →
    orderedSteps (TaskChainV2.Steps chain).

(** The operations that keep the step numbers ordered: all but insert and
    update, initialize for a plan of fewer than 2^53 entries. *)
Definition keepsOrder (op : Op) : Prop :=
  match op with
  | OpStep _ _ plan => (Z.of_nat (length plan) < 2 ^ 53)%Z
  | OpInsert _ _ _ | OpUpdate _ _ _ => False
  | OpStart _ _ | OpComplete _ _ _ | OpDelete _ _ _ | OpFinish _ => True
  end.

(** How the steps of a chain may change without a status going back. A step
    has advanced when it keeps its number, name and input and its status is
    the same or further on the path Todo, InProgress, Complete. *)
Definition advanced (s s' : Step.t) : Prop :=
  Step.Number s' = Step.Number s ∧ Step.Name s' = Step.Name s ∧
  Step.Input s' = Step.Input s ∧
  (status_rank (Step.Status s) ≤ status_rank (Step.Status s'))%nat.

Definition freshTodo (s : Step.t) : Prop :=
  Step.Status s = StepStatusTodo ∧ Step.Summary s = "".

(** New Todo steps are put between the steps, which all stay as they are. *)
Definition stepsInserted (old new : list Step.t) : Prop :=
  ∃ before added behind,
    old = before ++ behind ∧ new = before ++ added ++ behind ∧ Forall freshTodo added.

(** Steps are removed, none of them in progress; the others stay as they
    are. *)
Inductive stepsRemoved : list Step.t -> list Step.t -> Prop :=
| stepsRemoved_nil : stepsRemoved [] []
| stepsRemoved_keep s old new : stepsRemoved old new -> stepsRemoved (s :: old) (s :: new)
| stepsRemoved_drop s old new :
    Step.Status s ≠ StepStatusInProgress -> stepsRemoved old new -> stepsRemoved (s :: old) new.

(** The steps stay in their places and have advanced, or new steps are
    inserted, or steps are removed. *)
Definition evolves (old new : list Step.t) : Prop :=
  Forall2 advanced old new ∨ stepsInserted old new ∨ stepsRemoved old new.

(** From one session to the next, every V2 chain is still there and its steps
    have evolved. *)
Definition sessionEvolves (sm sm' : SessionManager) : Prop :=
  ∀ taskID chain, TaskChainsV2 sm !! taskID = Some chain →
    ∃ chain', TaskChainsV2 sm' !! taskID = Some chain' ∧
              evolves (TaskChainV2.Steps chain) (TaskChainV2.Steps chain').

(** The operations that keep the life cycle of the steps: all but update, and
    initialize only for a task id that has no chain. *)
Definition keepsLifeCycle (sm : SessionManager) (op : Op) : Prop :=
  match op with
  | OpStep taskID _ _ => TaskChainsV2 sm !! taskID = None
  | OpUpdate _ _ _ => False
  | OpStart _ _ | OpComplete _ _ _ | OpInsert _ _ _ | OpDelete _ _ _ | OpFinish _ => True
  end.

(** The number of characters of a text in UTF-8: the bytes that are not
    continuation bytes (10xxxxxx). *)
Definition isContinuationByte (b : ascii) : bool :=
  let n := nat_of_ascii b in (128 <=? n)%nat && (n <? 192)%nat.

Fixpoint runeCount (s : string) : nat :=
  match s with
  | EmptyString => 0
  | String b rest => (if isContinuationByte b then 0 else 1) + runeCount rest
  end.

(** The text of [n] copies of the three bytes E4 B8 AD, the UTF-8 encoding of
    one CJK character. *)
Fixpoint cjkText (n : nat) : string :=
  match n with
  | 0 => ""
  | S k => String (ascii_of_nat 228) (String (ascii_of_nat 184)
             (String (ascii_of_nat 173) (cjkText k)))
  end.

(** Sessions and plans used in the examples. *)
Definition entry (name : string) : PlanEntry := {[ "name" := name ]}.

Definition sessionAfter (ops : list Op) : SessionManager :=
  default emptySession (runOps emptySession ops).

Definition stepsOf (sm : SessionManager) (taskID : string) : list Step.t :=
  default [] (TaskChainV2.Steps <$> TaskChainsV2 sm !! taskID).

(** A session in which chain T has its first step complete. *)
Definition sessionStepDone : SessionManager :=
  sessionAfter [OpStep "T" "first" [entry "a"; entry "b"]; OpComplete "T" 1%float "done"].

(** A session whose chain T has one step, in progress. *)
Definition sessionOneStep : SessionManager :=
  sessionAfter [OpStep "T" "d" [entry "a"]].

(** A session in which chain T has three steps: step 1 Complete, step 2
    InProgress, step 3 Todo. *)
Definition sessionTwoOfThree : SessionManager :=
  sessionAfter [OpStep "T" "d" [entry "a"; entry "b"; entry "c"];
                OpComplete "T" 1%float "done"; OpStart "T" 2%float].

(** A session in which chain T has the steps 1, 1.1 and 2. *)
Definition sessionInserted : SessionManager :=
  sessionAfter [OpStep "T" "d" [entry "a"; entry "b"]; OpInsert "T" 1%float [entry "x"]].

(** A session in which chain T has the steps 1 (a), 1.1 (y), 1.1 (x) and 2 (b):
    two inserts behind step 1. *)
Definition sessionInsertedTwice : SessionManager :=
  sessionAfter [OpStep "T" "d" [entry "a"; entry "b"]; OpInsert "T" 1%float [entry "x"];
                OpInsert "T" 1%float [entry "y"]].

(** ** Notions used by the further properties *)

(** A session whose chain T has lost its only step, Complete, to a delete of
    that step, and the same session after a delete of the remaining steps. *)
Definition sessionEmptied : SessionManager :=
  sessionAfter [OpStep "T" "d" [entry "a"]; OpComplete "T" 1%float "done";
                OpDelete "T" 1%float ""].

Definition sessionCleared : SessionManager :=
  sessionAfter [OpStep "T" "d" [entry "a"]; OpComplete "T" 1%float "done";
                OpDelete "T" 1%float ""; OpDelete "T" 0%float "remaining"].

(** A session whose chain T has the one step a, Complete, and a session whose
    chain T has the one step b, Todo. *)
Definition sessionOneDone : SessionManager :=
  sessionAfter [OpStep "T" "d" [entry "a"]; OpComplete "T" 1%float "done"].

Definition sessionOneTodo : SessionManager :=
  sessionAfter [OpStep "T" "d" [entry "a"; entry "b"]; OpComplete "T" 1%float "done";
                OpDelete "T" 1%float ""].

(** A step has a summary exactly when it is Complete. *)
Definition summaryMatchesStatus (s : Step.t) : Prop :=
  Step.Status s = StepStatusComplete ↔ Step.Summary s ≠ "".

(** Each step of a chain, and the step the first cell of its array may hold
    when it has none left, has a summary exactly when it is Complete. *)
Definition summariesMatch (c : TaskChainV2.t) : Prop :=
  Forall summaryMatchesStatus (TaskChainV2.Steps c) ∧
  from_option summaryMatchesStatus True (TaskChainV2.Spare c).

(** The task id an operation is called with. *)
Definition opTaskID (op : Op) : string :=
  match op with
  | OpStep taskID _ _ | OpStart taskID _ | OpComplete taskID _ _
  | OpInsert taskID _ _ | OpUpdate taskID _ _ | OpDelete taskID _ _
  | OpFinish taskID => taskID
  end.

(** ** The legacy linear chain and the other modes of [wrapTaskChain] *)

(** Go's [int] on a 64-bit platform: a sum that leaves the range wraps
    around. *)
Definition wrapInt (z : Z) : Z := ((z + 2 ^ 63) mod 2 ^ 64 - 2 ^ 63)%Z.

(** [strings.Contains(s, substr)], on bytes. *)
Fixpoint strings_Contains (s substr : string) : bool :=
  String.prefix substr s ||
  match s with
  | EmptyString => false
  | String _ rest => strings_Contains rest substr
  end.

(** The texts of the legacy handlers, of [continueExecution] and of the
    [default] case of the dispatch, by the values formatted into them. A line
    of the plan [initTaskChain] displays is its position, the step and the
    expert of the plan entry, when it names one. *)
Inductive LegacyText : Type :=
| TextContextRecovered
| TextChainInitialized (taskID : string) (total : nat)
    (displaySteps : list (nat * string * option string))
| TextNextStateless (taskID : string)
| TextNextStep (position : Z) (total : nat) (nextStep : string) (remaining : Z)
| TextResumed (taskID : string) (stateInfo : option (Z * nat * string))
| TextStepsInserted (count : nat) (total : option nat) (newSteps : list string)
| TextRemainingDeleted (taskID : string)
| TextStepOrderDeleted (taskID : string) (stepOrder : Z)
| TextSubtaskDeleted (subtaskID : string).

Inductive LegacyError : Type :=
| ErrLegacyDeleteTarget
| ErrUnknownMode (mode : string).

(** What a call of the tool returns: a result of the handlers above, or one of
    the legacy texts and errors. *)
Inductive ToolResult : Type :=
| ResultOf (r : CallToolResult)
| ResultText (text : LegacyText)
| ResultError (e : LegacyError).

Definition resultIsError (r : ToolResult) : bool :=
  match r with
  | ResultOf r => isError r
  | ResultText _ => false
  | ResultError _ => true
  end.

Definition chainWithCurrentStep (n : Z) (c : TaskChain.t) : TaskChain.t :=
  TaskChain.mk (TaskChain.TaskID c) (TaskChain.Plan c) n (TaskChain.Status c).

Definition chainWithPlan (plan : list string) (c : TaskChain.t) : TaskChain.t :=
  TaskChain.mk (TaskChain.TaskID c) plan (TaskChain.CurrentStep c) (TaskChain.Status c).

(** [fmt.Sprintf("%v", step["name"])]. *)
Definition stepName (step : PlanEntry) : string := default "<nil>" (step !! "name").

(** [continueExecution]: a fixed directive. *)
Definition continueExecution : ToolResult := ResultText TextContextRecovered.

Section CaseMapping.

(** [strings.ToLower], which needs the case tables of Go's [unicode] package. *)
Variable strings_ToLower : string -> string.

(** [enhanceStepDescription]: the name, with a hint appended for the first
    group of keywords its lower-case form contains. *)
Definition enhanceStepDescription (name : string) (step : PlanEntry) : string :=
  let lowerName := strings_ToLower name in
  let has := strings_Contains lowerName in
  let impact :=
    if has "影响" || has "依赖" then
      if has "谁调用了" || has "被哪里" then name +:+ " (设置 direction=backward)"
      else if has "调用了谁" || has "会影响" then name +:+ " (设置 direction=forward)"
      else name
    else name in
  let search :=
    if has "搜索" || has "定位" || has "查找" then
      if has "函数" || has "类" then name +:+ " (设置 search_type=function)"
      else if has "类" then name +:+ " (设置 search_type=class)"
      else impact
    else impact in
  if has "扫描" || has "map" || has "结构" then
    if has "核对" || has "审核" || has "对比" || has "对齐" then
      name +:+ " (用 full 模式查看完整代码)"
    else if has "浏览" || has "快速" then name +:+ " (用 overview 模式)"
    else name +:+ " (用 standard 模式)"
  else search.

(** The step the legacy chain stores for one plan entry. *)
Definition legacyStep (step : PlanEntry) : string :=
  enhanceStepDescription (stepName step) step.

(** [initTaskChain], the legacy initialize: the chain starts at index 0. *)
Definition initTaskChain (sm : SessionManager) (taskID : string) (plan : list PlanEntry)
  : SessionManager * ToolResult :=
  if decide (taskID = "") then (sm, ResultOf (NewToolResultError (ErrTaskIDRequired "step")))
  else if decide (length plan = 0) then (sm, ResultOf (NewToolResultError ErrPlanRequired))
  else
    let steps := legacyStep <$> plan in
    let displaySteps := imap (fun i step => (i + 1, legacyStep step, step !! "expert")) plan in
    (with_TaskChains (<[taskID := TaskChain.mk taskID steps 0 "running"]> (TaskChains sm)) sm,
     ResultText (TextChainInitialized taskID (length plan) displaySteps)).

End CaseMapping.

(** [chain.Plan[i]] for an [int] i: [None] is the index-out-of-range panic. *)
Definition planAt (plan : list string) (i : Z) : option string :=
  if decide (i < 0)%Z then None else plan !! Z.to_nat i.

(** [getNextStep]: the chain moves to the next index, also when that is behind
    the plan, in which case it finishes. *)
Definition getNextStep (sm : SessionManager) (taskID : string)
  : option (SessionManager * ToolResult) :=
  if decide (taskID = "") then Some (sm, ResultOf (NewToolResultError (ErrTaskIDRequired "next")))
  else
    match TaskChains sm !! taskID with
    | None => Some (sm, ResultText (TextNextStateless taskID))
    | Some chain =>
      let chain := chainWithCurrentStep (wrapInt (TaskChain.CurrentStep chain + 1)) chain in
      let current := TaskChain.CurrentStep chain in
      let total := length (TaskChain.Plan chain) in
      if decide (Z.of_nat total <= current)%Z then
        let chain := TaskChain.with_Status "finished" chain in
        let '(sm, r) := finishChain (with_TaskChains (<[taskID := chain]> (TaskChains sm)) sm) taskID in
        Some (sm, ResultOf r)
      else
        match planAt (TaskChain.Plan chain) current with
        | Some nextStep =>
          Some (with_TaskChains (<[taskID := chain]> (TaskChains sm)) sm,
                ResultText (TextNextStep (wrapInt (current + 1)) total nextStep
                              (wrapInt (wrapInt (Z.of_nat total - current) - 1))))
        | None => None
        end
    end.

(** [resumeTask]: reads the chain, changes nothing. *)
Definition resumeTask (sm : SessionManager) (taskID : string)
  : option (SessionManager * ToolResult) :=
  if decide (taskID = "") then Some (sm, ResultOf (NewToolResultError (ErrTaskIDRequired "resume")))
  else
    match TaskChains sm !! taskID with
    | None => Some (sm, ResultText (TextResumed taskID None))
    | Some chain =>
      match planAt (TaskChain.Plan chain) (TaskChain.CurrentStep chain) with
      | Some current =>
        Some (sm, ResultText (TextResumed taskID
                (Some (wrapInt (TaskChain.CurrentStep chain + 1),
                       length (TaskChain.Plan chain), current))))
      | None => None
      end
    end.

(** [insertSteps]: the new steps go behind the current one, at most at the end
    of the plan; [None] is the panic of [chain.Plan[insertPos:]] for a negative
    position. *)
Definition insertSteps (sm : SessionManager) (taskID : string) (insertPlan : list PlanEntry)
  : option (SessionManager * ToolResult) :=
  if decide (taskID = "") then Some (sm, ResultOf (NewToolResultError (ErrTaskIDRequired "insert")))
  else if decide (length insertPlan = 0) then Some (sm, ResultOf (NewToolResultError ErrInsertPlanRequired))
  else
    let newSteps := stepName <$> insertPlan in
    match TaskChains sm !! taskID with
    | Some chain =>
      let plan := TaskChain.Plan chain in
      let insertPos := wrapInt (TaskChain.CurrentStep chain + 1) in
      let insertPos :=
        if decide (Z.of_nat (length plan) < insertPos)%Z then Z.of_nat (length plan)
        else insertPos in
      if decide (insertPos < 0)%Z then None
      else
        let rear := drop (Z.to_nat insertPos) plan in
        let plan' := take (Z.to_nat insertPos) plan ++ (newSteps ++ rear) in
        Some (with_TaskChains (<[taskID := chainWithPlan plan' chain]> (TaskChains sm)) sm,
              ResultText (TextStepsInserted (length insertPlan) (Some (length plan')) newSteps))
    | None => Some (sm, ResultText (TextStepsInserted (length insertPlan) None newSteps))
    end.

(** [deleteSteps]: only scope [remaining] changes a chain; [None] is the panic
    of [chain.Plan[:chain.CurrentStep+1]] for a negative bound. *)
Definition deleteSteps (sm : SessionManager) (taskID subtaskID : string) (stepOrder : Z)
    (deleteScope : string) : option (SessionManager * ToolResult) :=
  let stateless :=
    if decide (deleteScope = "remaining") then Some (sm, ResultText (TextRemainingDeleted taskID))
    else if decide (0 < stepOrder)%Z then
      Some (sm, ResultText (TextStepOrderDeleted taskID stepOrder))
    else if decide (subtaskID <> "") then Some (sm, ResultText (TextSubtaskDeleted subtaskID))
    else Some (sm, ResultError ErrLegacyDeleteTarget) in
  if decide (taskID = "") then Some (sm, ResultOf (NewToolResultError (ErrTaskIDRequired "delete")))
  else
    match TaskChains sm !! taskID with
    | Some chain =>
      if decide (deleteScope = "remaining") then
        let bound := wrapInt (TaskChain.CurrentStep chain + 1) in
        if decide (bound < Z.of_nat (length (TaskChain.Plan chain)))%Z then
          if decide (bound < 0)%Z then None
          else
            let plan' := take (Z.to_nat bound) (TaskChain.Plan chain) in
            Some (with_TaskChains (<[taskID := chainWithPlan plan' chain]> (TaskChains sm)) sm,
                  ResultText (TextRemainingDeleted taskID))
        else Some (sm, ResultText (TextRemainingDeleted taskID))
      else stateless
    | None => stateless
    end.

(** The arguments [wrapTaskChain] binds from the request. *)
Module TaskChainArgs.
Record t : Type := mk {
  Mode : string;
  TaskID : string;
  Description : string;
  Plan : list PlanEntry;
  InsertPlan : list PlanEntry;
  UpdatePlan : list PlanEntry;
  SubtaskID : string;
  StepOrder : Z;
  DeleteScope : string;
  StepNumber : float;
  Summary : string;
  After : float;
  From : float
}.
End TaskChainArgs.

Definition liftResult (p : SessionManager * CallToolResult) : SessionManager * ToolResult :=
  (p.1, ResultOf p.2).

(** The [switch] of [wrapTaskChain] on the bound arguments: its ten modes and
    the [default] case. *)
Definition wrapTaskChainArgs (sm : SessionManager) (args : TaskChainArgs.t)
  : option (SessionManager * ToolResult) :=
  let mode := TaskChainArgs.Mode args in
  let taskID := TaskChainArgs.TaskID args in
  if decide (mode = "start") then
    Some (liftResult (startStepV2 sm taskID (TaskChainArgs.StepNumber args)))
  else if decide (mode = "complete") then
    Some (liftResult (completeStepV2 sm taskID (TaskChainArgs.StepNumber args)
                        (TaskChainArgs.Summary args)))
  else if decide (mode = "continue") then Some (sm, continueExecution)
  else if decide (mode = "step") then
    Some (liftResult (initTaskChainV2 sm taskID (TaskChainArgs.Description args)
                        (TaskChainArgs.Plan args)))
  else if decide (mode = "next") then getNextStep sm taskID
  else if decide (mode = "resume") then resumeTask sm taskID
  else if decide (mode = "insert") then
    Some (liftResult (insertStepsV2 sm taskID (TaskChainArgs.After args)
                        (TaskChainArgs.InsertPlan args)))
  else if decide (mode = "update") then
    liftResult <$> updateStepsV2 sm taskID (TaskChainArgs.From args)
                     (TaskChainArgs.UpdatePlan args)
  else if decide (mode = "delete") then
    Some (liftResult (deleteStepsV2 sm taskID (TaskChainArgs.StepNumber args)
                        (TaskChainArgs.DeleteScope args)))
  else if decide (mode = "finish") then Some (liftResult (finishChain sm taskID))
  else Some (sm, ResultError (ErrUnknownMode mode)).

(** The sessions the tool can produce from the empty session, whatever the
    modes and arguments of its calls. *)
Inductive toolReachable : SessionManager -> Prop :=
| toolReachable_empty : toolReachable emptySession
| toolReachable_call sm args sm' r :
    toolReachable sm -> wrapTaskChainArgs sm args = Some (sm', r) -> toolReachable sm'.

(** [n] calls of [getNextStep] in a row. *)
Fixpoint nextSteps (n : nat) (sm : SessionManager) (taskID : string)
  : option SessionManager :=
  match n with
  | 0 => Some sm
  | S n =>
    match getNextStep sm taskID with
    | Some (sm', _) => nextSteps n sm' taskID
    | None => None
    end
  end.

(** The hints [enhanceStepDescription] appends. *)
Definition stepHints : list string :=
  [ " (用 full 模式查看完整代码)"; " (用 overview 模式)"; " (用 standard 模式)";
    " (设置 search_type=function)"; " (设置 direction=backward)";
    " (设置 direction=forward)"; "" ].

(** Lower case for the ASCII letters, every other byte as it is: what
    [strings.ToLower] gives for a text whose other characters have no case. *)
Definition asciiLower (c : ascii) : ascii :=
  let n := nat_of_ascii c in
  if decide (65 <= n <= 90) then ascii_of_nat (n + 32) else c.

Fixpoint asciiToLower (s : string) : string :=
  match s with
  | EmptyString => EmptyString
  | String c rest => String (asciiLower c) (asciiToLower rest)
  end.

(** Arguments with a mode and a task id, everything else at Go's zero value. *)
Definition modeArgs (mode taskID : string) : TaskChainArgs.t :=
  TaskChainArgs.mk mode taskID "" [] [] [] "" 0 "" 0%float "" 0%float 0%float.

(** The arguments of a call for one of the seven operations. *)
Definition opArgs (op : Op) : TaskChainArgs.t :=
  match op with
  | OpStep taskID description plan =>
    TaskChainArgs.mk "step" taskID description plan [] [] "" 0 "" 0%float "" 0%float 0%float
  | OpStart taskID stepNumber =>
    TaskChainArgs.mk "start" taskID "" [] [] [] "" 0 "" stepNumber "" 0%float 0%float
  | OpComplete taskID stepNumber summary =>
    TaskChainArgs.mk "complete" taskID "" [] [] [] "" 0 "" stepNumber summary 0%float 0%float
  | OpInsert taskID after insertPlan =>
    TaskChainArgs.mk "insert" taskID "" [] insertPlan [] "" 0 "" 0%float "" after 0%float
  | OpUpdate taskID from updatePlan =>
    TaskChainArgs.mk "update" taskID "" [] [] updatePlan "" 0 "" 0%float "" 0%float from
  | OpDelete taskID stepNumber deleteScope =>
    TaskChainArgs.mk "delete" taskID "" [] [] [] "" 0 deleteScope stepNumber "" 0%float 0%float
  | OpFinish taskID => modeArgs "finish" taskID
  end.

(** A session with the legacy chain T of the steps a and b, at its first step. *)
Definition sessionLegacy : SessionManager :=
  (initTaskChain asciiToLower emptySession "T" [entry "a"; entry "b"]).1.

(** ** Basic facts about the handlers *)

(** Case analysis along the guards and lookups of a handler. *)
Ltac handler_cases := repeat (case_decide || case_match); simplify_eq.

Lemma float64_of_nat_1 : PrimFloat.eqb (float64_of_nat 1) 1%float = true.
Proof. reflexivity. Qed.

Lemma findStep_Some stepNumber steps i s :
  findStep stepNumber steps = Some (i, s) ↔
  steps !! i = Some s ∧ hasNumber stepNumber s ∧
  ∀ j y, steps !! j = Some y → j < i → ¬ hasNumber stepNumber y.
Proof. apply list_find_Some. Qed.

Lemma findStep_None stepNumber steps :
  findStep stepNumber steps = None ↔ Forall (fun s => ¬ hasNumber stepNumber s) steps.
Proof. apply list_find_None. Qed.

Lemma findStep_head stepNumber s rest :
  hasNumber stepNumber s → findStep stepNumber (s :: rest) = Some (0, s).
Proof.
  intros Hs. apply findStep_Some. split; [done|]. split; [done|].
  intros j y _ Hj. lia.
Qed.

(** Writing to the step found keeps it the step found, as long as its number
    stays. *)
Lemma findStep_insert stepNumber steps i s s' :
  findStep stepNumber steps = Some (i, s) → Step.Number s' = Step.Number s →
  findStep stepNumber (<[i := s']> steps) = Some (i, s').
Proof.
  intros (Hi & Hnum & Hfirst)%findStep_Some Heq. apply findStep_Some.
  split; [|split].
  - apply list_lookup_insert_eq. by eapply lookup_lt_Some.
  - unfold hasNumber in *. by rewrite Heq.
  - intros j y Hy Hj. rewrite list_lookup_insert_ne in Hy by lia. by eapply Hfirst.
Qed.

Lemma session_eq sm sm' :
  TaskChains sm = TaskChains sm' → TaskChainsV2 sm = TaskChainsV2 sm' → sm = sm'.
Proof. destruct sm, sm'. simpl. by intros -> ->. Qed.

Lemma stepsOf_insert sm taskID chain :
  stepsOf (with_TaskChainsV2 (<[taskID := chain]> (TaskChainsV2 sm)) sm) taskID
  = TaskChainV2.Steps chain.
Proof.
  unfold stepsOf. cbn [TaskChainsV2 with_TaskChainsV2]. by rewrite lookup_insert_eq.
Qed.

Lemma plannedSteps_length plan : length (plannedSteps plan) = length plan.
Proof. unfold plannedSteps. apply length_imap. Qed.

Lemma plannedSteps_lookup plan k step :
  plan !! k = Some step →
  plannedSteps plan !! k =
  Some (Step.mk (float64_of_nat (k + 1)) (default "<nil>" (step !! "name"))
          (default "" (step !! "input"))
          (if decide (k = 0) then StepStatusInProgress else StepStatusTodo) "").
Proof.
  intros Hk. unfold plannedSteps. rewrite list_lookup_imap, Hk. reflexivity.
Qed.

Lemma plannedSteps_number (plan : list PlanEntry) i a :
  plannedSteps plan !! i = Some a →
  Step.Number a = float64_of_nat (i + 1) ∧ i < length plan.
Proof.
  unfold plannedSteps. rewrite list_lookup_imap.
  destruct (plan !! i) as [step|] eqn:Hi; [|done].
  intros [= <-]. split; [done|]. by eapply lookup_lt_Some.
Qed.

Lemma insertedSteps_length after insertPlan :
  length (insertedSteps after insertPlan) = length insertPlan.
Proof. apply length_imap. Qed.

Lemma insertedSteps_lookup after (insertPlan : list PlanEntry) k step :
  insertPlan !! k = Some step →
  insertedSteps after insertPlan !! k =
  Some (Step.mk (after + float64_of_nat (k + 1) / 10)%float
          (default "<nil>" (step !! "name")) (default "" (step !! "input"))
          StepStatusTodo "").
Proof.
  intros Hk. unfold insertedSteps. rewrite list_lookup_imap, Hk. reflexivity.
Qed.

Lemma planStep_fresh (f : nat → float) (plan : list PlanEntry) :
  Forall freshTodo (imap (fun i step => planStep (f i) step) plan).
Proof.
  apply Forall_lookup. intros i s. rewrite list_lookup_imap.
  destruct (plan !! i); [|done]. by intros [= <-].
Qed.

(** With a task id and a non-empty plan, [initTaskChainV2] stores the planned
    chain under the task id and reports the start of step 1. *)
Lemma initTaskChainV2_ok sm taskID description p ps :
  taskID ≠ "" →
  initTaskChainV2 sm taskID description (p :: ps) =
  (with_TaskChainsV2
     (<[taskID := plannedChain taskID description (p :: ps)]> (TaskChainsV2 sm)) sm,
   NewToolResultText
     (TextStepStarted taskID 1%float (default "<nil>" (p !! "name")) description
        (default "" (p !! "input")))).
Proof.
  intros Hid. unfold initTaskChainV2.
  rewrite decide_False by done. rewrite decide_False by done.
  unfold startStepV2. rewrite decide_False by done.
  cbn [TaskChainsV2 with_TaskChainsV2]. rewrite lookup_insert_eq.
  cbn [TaskChainV2.Steps]. rewrite imap_cons.
  rewrite findStep_head by exact float64_of_nat_1.
  rewrite decide_False by (cbn; intros H; by apply H).
  f_equal. apply session_eq; [done|].
  cbn [TaskChainsV2 with_TaskChainsV2]. rewrite insert_insert_eq.
  f_equal.
Qed.

Lemma startStepV2_ok sm taskID stepNumber chain i s :
  taskID ≠ "" → TaskChainsV2 sm !! taskID = Some chain →
  findStep stepNumber (TaskChainV2.Steps chain) = Some (i, s) →
  Step.Status s = StepStatusTodo →
  startStepV2 sm taskID stepNumber =
  (with_TaskChainsV2
     (<[taskID :=
          TaskChainV2.with_CurrentStep stepNumber
            (TaskChainV2.with_Steps
               (<[i := Step.with_Status StepStatusInProgress s]> (TaskChainV2.Steps chain))
               chain)]> (TaskChainsV2 sm)) sm,
   NewToolResultText
     (TextStepStarted taskID stepNumber (Step.Name s) (TaskChainV2.Description chain)
        (Step.Input s))).
Proof.
  intros Hid Hchain Hfind Htodo. unfold startStepV2.
  rewrite decide_False by done. rewrite Hchain, Hfind.
  by rewrite decide_False by (intros H; by apply H).
Qed.

Lemma startStepV2_not_todo sm taskID stepNumber chain i s :
  taskID ≠ "" → TaskChainsV2 sm !! taskID = Some chain →
  findStep stepNumber (TaskChainV2.Steps chain) = Some (i, s) →
  Step.Status s ≠ StepStatusTodo →
  startStepV2 sm taskID stepNumber =
  (sm, NewToolResultError (ErrCannotStart stepNumber (Step.Status s))).
Proof.
  intros Hid Hchain Hfind Hst. unfold startStepV2.
  rewrite decide_False by done. rewrite Hchain, Hfind. by rewrite decide_True.
Qed.

Lemma completeStepV2_ok sm taskID stepNumber summary chain i s :
  taskID ≠ "" → summary ≠ "" → TaskChainsV2 sm !! taskID = Some chain →
  findStep stepNumber (TaskChainV2.Steps chain) = Some (i, s) →
  Step.Status s = StepStatusInProgress →
  completeStepV2 sm taskID stepNumber summary =
  let chain' :=
    TaskChainV2.with_Steps
      (<[i := Step.with_Status StepStatusComplete (Step.with_Summary summary s)]>
         (TaskChainV2.Steps chain)) chain in
  (with_TaskChainsV2 (<[taskID := chain']> (TaskChainsV2 sm)) sm,
   renderDecisionPoint chain' i).
Proof.
  intros Hid Hsum Hchain Hfind Hip. unfold completeStepV2.
  rewrite decide_False by done. rewrite decide_False by done.
  rewrite Hchain, Hfind.
  by rewrite decide_False by (intros H; by apply H).
Qed.

Lemma completeStepV2_not_in_progress sm taskID stepNumber summary chain i s :
  taskID ≠ "" → summary ≠ "" → TaskChainsV2 sm !! taskID = Some chain →
  findStep stepNumber (TaskChainV2.Steps chain) = Some (i, s) →
  Step.Status s ≠ StepStatusInProgress →
  completeStepV2 sm taskID stepNumber summary =
  (sm, NewToolResultError (ErrCannotComplete stepNumber (Step.Status s))).
Proof.
  intros Hid Hsum Hchain Hfind Hst. unfold completeStepV2.
  rewrite decide_False by done. rewrite decide_False by done.
  rewrite Hchain, Hfind. by rewrite decide_True.
Qed.

(** A successful complete returns the briefing of the chain it has stored. *)
Lemma completeStepV2_result sm taskID stepNumber summary sm' text :
  completeStepV2 sm taskID stepNumber summary = (sm', NewToolResultText text) →
  ∃ chain' i,
    TaskChainsV2 sm' !! taskID = Some chain' ∧
    NewToolResultText text = renderDecisionPoint chain' i.
Proof.
  unfold completeStepV2. intros H.
  handler_cases.
  eexists _, _. split; [|done].
  cbn [TaskChainsV2 with_TaskChainsV2]. apply lookup_insert_eq.
Qed.

Lemma insertStepsV2_ok sm taskID after insertPlan chain i s :
  taskID ≠ "" → insertPlan ≠ [] → TaskChainsV2 sm !! taskID = Some chain →
  findStep after (TaskChainV2.Steps chain) = Some (i, s) →
  insertStepsV2 sm taskID after insertPlan =
  (with_TaskChainsV2
     (<[taskID :=
          TaskChainV2.with_Steps
            (take (i + 1) (TaskChainV2.Steps chain) ++
             (insertedSteps after insertPlan ++ drop (i + 1) (TaskChainV2.Steps chain)))%list
            chain]> (TaskChainsV2 sm)) sm,
   NewToolResultText
     (TextInserted (length insertPlan) after (insertedSteps after insertPlan)
        (length (take (i + 1) (TaskChainV2.Steps chain) ++
                 (insertedSteps after insertPlan ++
                  drop (i + 1) (TaskChainV2.Steps chain)))%list))).
Proof.
  intros Hid Hplan Hchain Hfind. unfold insertStepsV2.
  rewrite decide_False by done.
  rewrite decide_False by (by destruct insertPlan).
  by rewrite Hchain, Hfind.
Qed.

Lemma deleteStepsV2_single_found sm taskID stepToDelete deleteScope chain i s :
  taskID ≠ "" → deleteScope ≠ "remaining" → TaskChainsV2 sm !! taskID = Some chain →
  PrimFloat.ltb 0 stepToDelete = true →
  findStep stepToDelete (TaskChainV2.Steps chain) = Some (i, s) →
  deleteStepsV2 sm taskID stepToDelete deleteScope =
  if decide (Step.Status s = StepStatusInProgress)
  then (sm, NewToolResultError (ErrDeleteInProgress stepToDelete))
  else (with_TaskChainsV2
          (<[taskID := TaskChainV2.with_Steps (delete i (TaskChainV2.Steps chain)) chain]>
             (TaskChainsV2 sm)) sm,
        NewToolResultText (TextDeletedStep stepToDelete (Step.Name s))).
Proof.
  intros Hid Hscope Hchain Hpos Hfind. unfold deleteStepsV2.
  rewrite decide_False by done. rewrite Hchain.
  rewrite decide_False by done. by rewrite Hpos, Hfind.
Qed.

Lemma finishChain_TaskChainsV2 sm taskID :
  TaskChainsV2 (finishChain sm taskID).1 = TaskChainsV2 sm.
Proof.
  unfold finishChain. case_decide; [done|].
  by destruct (TaskChains sm !! taskID).
Qed.

(** No handler stores a chain under the empty task id: in a session the
    operations can produce, a task id that has a chain is not empty. *)
Lemma wrapTaskChain_empty_id sm op sm' r :
  wrapTaskChain sm op = Some (sm', r) →
  TaskChainsV2 sm !! "" = None → TaskChainsV2 sm' !! "" = None.
Proof.
  intros Hrun Hsm. destruct op; simpl in Hrun.
  - destruct (decide (taskID = "")) as [->|Hid].
    { unfold initTaskChainV2 in Hrun. rewrite decide_True in Hrun by done.
      by simplify_eq. }
    destruct plan as [|p ps].
    { unfold initTaskChainV2 in Hrun. rewrite decide_False in Hrun by done.
      rewrite decide_True in Hrun by done. by simplify_eq. }
    rewrite initTaskChainV2_ok in Hrun by done. simplify_eq.
    cbn [TaskChainsV2 with_TaskChainsV2]. by rewrite lookup_insert_ne.
  - unfold startStepV2 in Hrun.
    handler_cases; try done.
    cbn [TaskChainsV2 with_TaskChainsV2]. by rewrite lookup_insert_ne.
  - unfold completeStepV2 in Hrun.
    handler_cases; try done.
    cbn [TaskChainsV2 with_TaskChainsV2]. by rewrite lookup_insert_ne.
  - unfold insertStepsV2 in Hrun.
    handler_cases; try done.
    cbn [TaskChainsV2 with_TaskChainsV2]. by rewrite lookup_insert_ne.
  - unfold updateStepsV2 in Hrun.
    handler_cases; try done;
      cbn [TaskChainsV2 with_TaskChainsV2]; by rewrite lookup_insert_ne.
  - unfold deleteStepsV2 in Hrun.
    handler_cases; try done;
      cbn [TaskChainsV2 with_TaskChainsV2]; by rewrite lookup_insert_ne.
  - unfold finishChain in Hrun.
    by handler_cases.
Qed.

Lemma reachable_empty_id sm : reachable sm → TaskChainsV2 sm !! "" = None.
Proof.
  induction 1 as [|sm op sm' r _ IH Hrun]; [done|].
  by eapply wrapTaskChain_empty_id.
Qed.

Lemma runOps_reachable sm ops sm' :
  reachable sm → runOps sm ops = Some sm' → reachable sm'.
Proof.
  revert sm. induction ops as [|op ops IH]; intros sm Hsm; simpl.
  - by intros [= <-].
  - destruct (wrapTaskChain sm op) as [[sm1 r]|] eqn:Hop; [|done].
    intros Hrest. eapply IH; [|done]. by eapply reachable_op.
Qed.

Lemma sessionAfter_reachable ops :
  is_Some (runOps emptySession ops) → reachable (sessionAfter ops).
Proof.
  intros [sm Hsm]. unfold sessionAfter. rewrite Hsm. simpl.
  eapply runOps_reachable; [apply reachable_empty | done].
Qed.

(** ** Ordered step numbers *)

Lemma pairwiseb_spec (r : Step.t → Step.t → bool) (R : Step.t → Step.t → Prop) steps :
  (∀ a b, r a b = true ↔ R a b) →
  pairwiseb r steps = true ↔ StronglySorted R steps.
Proof.
  intros HR. induction steps as [|a rest IH]; simpl.
  - split; [constructor | done].
  - rewrite andb_true_iff, StronglySorted_cons, <- IH, forallb_forall, Forall_forall.
    split; intros [Hall Hrest]; (split; [|done]); intros x Hx.
    + apply HR, Hall. by apply list_elem_of_In.
    + apply HR, Hall. by apply list_elem_of_In.
Qed.

Lemma ascendingNumbersb_spec steps :
  ascendingNumbersb steps = true ↔ ascendingNumbers steps.
Proof. apply pairwiseb_spec. done. Qed.

Lemma distinctNumbersb_spec steps :
  distinctNumbersb steps = true ↔ distinctNumbers steps.
Proof. apply pairwiseb_spec. intros a b. apply negb_true_iff. Qed.

Lemma orderedStepsb_spec steps : orderedStepsb steps = true ↔ orderedSteps steps.
Proof.
  unfold orderedStepsb, orderedSteps.
  by rewrite andb_true_iff, distinctNumbersb_spec, ascendingNumbersb_spec.
Qed.

Lemma StronglySorted_sublist {A} (R : relation A) (l1 l2 : list A) :
  l1 `sublist_of` l2 → StronglySorted R l2 → StronglySorted R l1.
Proof.
  induction 1 as [|x l1 l2 Hsub IH|x l1 l2 Hsub IH]; intros Hsorted.
  - constructor.
  - apply StronglySorted_cons in Hsorted as [Hall Hrest].
    apply StronglySorted_cons. split; [|by apply IH].
    apply Forall_forall. intros y Hy.
    eapply Forall_forall in Hall; [done|]. by eapply elem_of_sublist.
  - apply StronglySorted_cons in Hsorted as [_ Hrest]. by apply IH.
Qed.

Lemma StronglySorted_same_numbers (R : float → float → Prop) (steps steps' : list Step.t) :
  Step.Number <$> steps = Step.Number <$> steps' →
  StronglySorted (fun a b => R (Step.Number a) (Step.Number b)) steps →
  StronglySorted (fun a b => R (Step.Number a) (Step.Number b)) steps'.
Proof.
  intros Hnum Hsorted.
  apply (StronglySorted_fmap Step.Number _ R) in Hsorted; [|done].
  rewrite Hnum in Hsorted. clear Hnum steps.
  induction steps' as [|a rest IH]; [constructor|].
  rewrite fmap_cons in Hsorted. apply StronglySorted_cons in Hsorted as [Hall Hrest].
  apply StronglySorted_cons. split; [|by apply IH].
  by rewrite Forall_fmap in Hall.
Qed.

Lemma StronglySorted_lookup {A} (R : relation A) (l : list A) :
  (∀ i j a b, i < j → l !! i = Some a → l !! j = Some b → R a b) →
  StronglySorted R l.
Proof.
  induction l as [|x l IH]; intros H; [constructor|].
  apply StronglySorted_cons. split.
  - apply Forall_lookup. intros j b Hb. apply (H 0 (S j)); [lia|done|done].
  - apply IH. intros i j a b Hij Ha Hb. apply (H (S i) (S j)); [lia|done|done].
Qed.

Lemma orderedSteps_sublist steps steps' :
  steps' `sublist_of` steps → orderedSteps steps → orderedSteps steps'.
Proof.
  intros Hsub [Hd Ha]. split; by eapply StronglySorted_sublist.
Qed.

Lemma orderedSteps_same_numbers steps steps' :
  Step.Number <$> steps = Step.Number <$> steps' →
  orderedSteps steps → orderedSteps steps'.
Proof.
  intros Hnum [Hd Ha]. split.
  - by apply (StronglySorted_same_numbers (fun x y => PrimFloat.eqb x y = false) steps).
  - by apply (StronglySorted_same_numbers (fun x y => PrimFloat.ltb x y = true) steps).
Qed.

Lemma numbers_insert_same (steps : list Step.t) i s s' :
  steps !! i = Some s → Step.Number s' = Step.Number s →
  Step.Number <$> steps = Step.Number <$> <[i := s']> steps.
Proof.
  intros Hi Hnum. rewrite list_fmap_insert, Hnum.
  symmetry. apply list_insert_id. by rewrite list_lookup_fmap, Hi.
Qed.

(** ** The numbers [float64(1)], [float64(2)], ... are distinct and ascending

    From the specification of the primitive floats: an integer below 2^53 is
    converted without rounding, to a mantissa of 53 bits and the matching
    exponent. *)

Lemma digits2_pos_bounds p :
  (2 ^ (Zpos (digits2_pos p) - 1) <= Zpos p < 2 ^ Zpos (digits2_pos p))%Z.
Proof.
  induction p as [p IH|p IH|]; cbn [digits2_pos].
  - rewrite Pos2Z.inj_succ.
    replace (Z.succ (Zpos (digits2_pos p)) - 1)%Z
      with (Z.succ (Zpos (digits2_pos p) - 1)) by lia.
    rewrite !Z.pow_succ_r by lia. lia.
  - rewrite Pos2Z.inj_succ.
    replace (Z.succ (Zpos (digits2_pos p)) - 1)%Z
      with (Z.succ (Zpos (digits2_pos p) - 1)) by lia.
    rewrite !Z.pow_succ_r by lia. lia.
  - simpl. lia.
Qed.

Lemma iter_xO_value p k : Zpos (Pos.iter xO p k) = (Zpos p * 2 ^ Zpos k)%Z.
Proof.
  induction k as [|k IH] using Pos.peano_ind.
  - simpl. lia.
  - rewrite Pos.iter_succ, Pos2Z.inj_succ, Z.pow_succ_r by lia.
    rewrite Pos2Z.inj_xO, IH. lia.
Qed.

Lemma iter_xO_digits p k : digits2_pos (Pos.iter xO p k) = (digits2_pos p + k)%positive.
Proof.
  induction k as [|k IH] using Pos.peano_ind.
  - simpl. lia.
  - rewrite Pos.iter_succ. cbn [digits2_pos]. rewrite IH. lia.
Qed.

(** A mantissa of 53 bits with an exponent in range is not rounded. *)
Lemma binary_round_aux_53 m e :
  Zpos (digits2_pos m) = 53%Z → (-1074 <= e <= 971)%Z →
  binary_round_aux prec emax false (Zpos m) e loc_Exact = S754_finite false m e.
Proof.
  intros Hd He.
  assert (∀ m', Zpos (digits2_pos m') = 53%Z →
            shr_fexp prec emax (Zpos m') e loc_Exact
            = (Build_shr_record (Zpos m') false false, e)) as Hshr.
  { intros m' Hd'. unfold shr_fexp. cbn [Zdigits2 shr_record_of_loc]. rewrite Hd'.
    unfold fexp, emin, prec, emax.
    replace (Z.max (53 + e - 53) (3 - 1024 - 53) - e)%Z with 0%Z by lia.
    reflexivity. }
  unfold binary_round_aux. rewrite Hshr by done.
  cbn [shr_m loc_of_shr_record round_nearest_even]. rewrite Hshr by done.
  cbn [shr_m]. unfold emax, prec.
  replace (e <=? 1024 - 53)%Z with true by (symmetry; apply Z.leb_le; lia).
  reflexivity.
Qed.

Lemma binary_round_small p :
  (Zpos (digits2_pos p) <= 53)%Z →
  ∃ m, binary_round prec emax false p 0 =
       S754_finite false m (Zpos (digits2_pos p) - 53) ∧
       Zpos m = (Zpos p * 2 ^ (53 - Zpos (digits2_pos p)))%Z.
Proof.
  intros Hd. unfold binary_round, shl_align.
  replace (fexp prec emax (Zpos (digits2_pos p) + 0)) with (Zpos (digits2_pos p) - 53)%Z
    by (unfold fexp, emin, prec, emax; lia).
  rewrite Z.sub_0_r.
  destruct (Zpos (digits2_pos p) - 53)%Z as [|q|q] eqn:Hq.
  - exists p. split.
    + apply binary_round_aux_53; lia.
    + replace (53 - Zpos (digits2_pos p))%Z with 0%Z by lia. simpl. lia.
  - lia.
  - exists (Pos.iter xO p q). split.
    + apply binary_round_aux_53; [|lia]. rewrite iter_xO_digits. lia.
    + rewrite iter_xO_value. f_equal. f_equal. lia.
Qed.

Lemma Prim2SF_float64_of_nat n :
  0 < n → (Z.of_nat n < 2 ^ 53)%Z →
  ∃ p m, Z.of_nat n = Zpos p ∧
    Prim2SF (float64_of_nat n) = S754_finite false m (Zpos (digits2_pos p) - 53) ∧
    Zpos m = (Zpos p * 2 ^ (53 - Zpos (digits2_pos p)))%Z ∧
    (Zpos (digits2_pos p) <= 53)%Z.
Proof.
  intros Hpos Hlt. unfold float64_of_nat. rewrite of_uint63_spec.
  rewrite of_Z_spec. rewrite Z.mod_small.
  2:{ split; [lia|]. eapply Z.lt_trans; [exact Hlt|]. reflexivity. }
  destruct (Z.of_nat n) as [|p|p] eqn:Hn; [lia| |lia].
  assert (Zpos (digits2_pos p) <= 53)%Z as Hd.
  { destruct (Z_le_gt_dec (Zpos (digits2_pos p)) 53) as [|Hgt]; [done|].
    pose proof (digits2_pos_bounds p) as [Hlo _].
    assert (2 ^ 53 <= 2 ^ (Zpos (digits2_pos p) - 1))%Z
      by (apply Z.pow_le_mono_r; lia).
    lia. }
  destruct (binary_round_small p Hd) as (m & Hm & Hval).
  exists p, m. cbn [binary_normalize]. auto.
Qed.

Lemma float64_of_nat_lt a b :
  0 < a → a < b → (Z.of_nat b < 2 ^ 53)%Z →
  PrimFloat.ltb (float64_of_nat a) (float64_of_nat b) = true ∧
  PrimFloat.eqb (float64_of_nat a) (float64_of_nat b) = false.
Proof.
  intros Ha0 Hab Hb.
  destruct (Prim2SF_float64_of_nat a) as (p & m & Hp & Ha & Hm & Hdp); [lia|lia|].
  destruct (Prim2SF_float64_of_nat b) as (q & k & Hq & Hb' & Hk & Hdq); [lia|lia|].
  rewrite FloatAxioms.ltb_spec, FloatAxioms.eqb_spec, Ha, Hb'.
  unfold SFltb, SFeqb, SFcompare.
  assert (Zpos p < Zpos q)%Z as Hpq by lia.
  pose proof (digits2_pos_bounds p) as [Hplo Hphi].
  pose proof (digits2_pos_bounds q) as [Hqlo Hqhi].
  destruct (Z.compare_spec (Zpos (digits2_pos p) - 53) (Zpos (digits2_pos q) - 53))
    as [He|He|He].
  - assert (Zpos m < Zpos k)%Z as Hmk.
    { rewrite Hm, Hk. replace (Zpos (digits2_pos q)) with (Zpos (digits2_pos p)) by lia.
      apply Z.mul_lt_mono_pos_r; [|done]. apply Z.pow_pos_nonneg; lia. }
    rewrite Pos.compare_cont_spec.
    replace (m ?= k)%positive with Lt by (symmetry; apply Pos.compare_lt_iff; lia).
    done.
  - done.
  - exfalso.
    assert (2 ^ Zpos (digits2_pos q) <= 2 ^ (Zpos (digits2_pos p) - 1))%Z
      by (apply Z.pow_le_mono_r; lia).
    lia.
Qed.

(** The steps of a new chain are ordered, for every plan of fewer than 2^53
    entries (beyond, [float64(i + 1)] rounds). *)
Lemma plannedSteps_ordered (plan : list PlanEntry) :
  (Z.of_nat (length plan) < 2 ^ 53)%Z → orderedSteps (plannedSteps plan).
Proof.
  intros Hlen.
  assert (∀ i j a b, i < j → plannedSteps plan !! i = Some a →
            plannedSteps plan !! j = Some b →
            PrimFloat.ltb (Step.Number a) (Step.Number b) = true ∧
            PrimFloat.eqb (Step.Number a) (Step.Number b) = false) as H.
  { intros i j a b Hij Ha Hb.
    apply plannedSteps_number in Ha as [-> _].
    apply plannedSteps_number in Hb as [-> Hj].
    apply float64_of_nat_lt; lia. }
  split; apply StronglySorted_lookup; intros i j a b Hij Ha Hb;
    by destruct (H i j a b).
Qed.

(** ** C1: finish *)

(** What [finishChain] returns, for every session and task id: the store of the
    V2 chains as it was, the finished text unless the task id is empty, and the
    legacy chain of that task id, if there is one, marked as finished. *)
Lemma finishChain_spec sm taskID :
  TaskChainsV2 (finishChain sm taskID).1 = TaskChainsV2 sm ∧
  (finishChain sm taskID).2 =
    (if decide (taskID = "") then NewToolResultError (ErrTaskIDRequired "finish")
     else NewToolResultText (TextChainFinished taskID)) ∧
  TaskChains (finishChain sm taskID).1 =
    (if decide (taskID = "") then TaskChains sm
     else match TaskChains sm !! taskID with
          | Some chain => <[taskID := TaskChain.with_Status "finished" chain]> (TaskChains sm)
          | None => TaskChains sm
          end).
Proof.
  split; [apply finishChain_TaskChainsV2|].
  unfold finishChain. case_decide; [done|].
  by destruct (TaskChains sm !! taskID).
Qed.

(** C1. Finish validates nothing and succeeds for every task id but the empty
    one, but the chain it marks is not the V2 chain: for every session and task
    id, the store of the V2 chains is the same after [finishChain] (the
    handler reads [sm.TaskChains], the store of the legacy chains). On the
    session in which chain T has just been initialized, mode finish answers
    with the finished text and returns the session unchanged, chain T still
    having status running. *)
Theorem finishChain_leaves_V2_store :
  (∀ sm taskID,
     TaskChainsV2 (finishChain sm taskID).1 = TaskChainsV2 sm ∧
     (finishChain sm taskID).2 =
       (if decide (taskID = "") then NewToolResultError (ErrTaskIDRequired "finish")
        else NewToolResultText (TextChainFinished taskID))) ∧
  wrapTaskChain sessionOneStep (OpFinish "T") =
    Some (sessionOneStep, NewToolResultText (TextChainFinished "T")) ∧
  TaskChainV2.Status <$> TaskChainsV2 sessionOneStep !! "T" = Some "running".
Proof.
  split; [|split].
  - intros sm taskID. by destruct (finishChain_spec sm taskID) as (? & ? & _).
  - vm_compute. reflexivity.
  - vm_compute. reflexivity.
Qed.

(** ** C2: initialize on a task id that is already present *)

(** C2, as stated, fails: chain T is present, and initialize with the same
    task id returns no error and stores another chain under T. *)
Lemma initTaskChainV2_duplicate_counterexample :
  is_Some (TaskChainsV2 sessionStepDone !! "T") ∧
  isError (initTaskChainV2 sessionStepDone "T" "second" [entry "c"]).2 = false ∧
  TaskChainsV2 (initTaskChainV2 sessionStepDone "T" "second" [entry "c"]).1 !! "T"
  ≠ TaskChainsV2 sessionStepDone !! "T".
Proof.
  split; [|split].
  - vm_compute. eauto.
  - vm_compute. reflexivity.
  - vm_compute. discriminate.
Qed.

(** C2, amended. If a chain with the given task id is already present,
    [initTaskChainV2] (with a task id and a non-empty plan) does not fail: it
    stores the newly planned chain in place of the existing one and leaves the
    chains of the other task ids as they were. *)
Theorem initTaskChainV2_replaces_existing sm taskID description (plan : list PlanEntry)
    (existing : TaskChainV2.t) :
  taskID ≠ "" → plan ≠ [] → TaskChainsV2 sm !! taskID = Some existing →
  ∃ sm' text,
    initTaskChainV2 sm taskID description plan = (sm', NewToolResultText text) ∧
    TaskChainsV2 sm' !! taskID = Some (plannedChain taskID description plan) ∧
    (∀ other, other ≠ taskID → TaskChainsV2 sm' !! other = TaskChainsV2 sm !! other) ∧
    TaskChains sm' = TaskChains sm.
Proof.
  intros Hid Hplan _. destruct plan as [|p ps]; [done|].
  eexists _, _. split; [by apply initTaskChainV2_ok|].
  cbn [TaskChainsV2 with_TaskChainsV2 TaskChains].
  split; [apply lookup_insert_eq|]. split; [|done].
  intros other Hother. by rewrite lookup_insert_ne.
Qed.

Lemma initTaskChainV2_replaces_existing_witness :
  ∃ sm' text,
    initTaskChainV2 sessionStepDone "T" "second" [entry "c"] = (sm', NewToolResultText text) ∧
    TaskChainsV2 sm' !! "T" = Some (plannedChain "T" "second" [entry "c"]) ∧
    (∀ other, other ≠ "T" → TaskChainsV2 sm' !! other = TaskChainsV2 sessionStepDone !! other) ∧
    TaskChains sm' = TaskChains sessionStepDone.
Proof.
  destruct (TaskChainsV2 sessionStepDone !! "T") as [existing|] eqn:Hex.
  - exact (initTaskChainV2_replaces_existing sessionStepDone "T" "second" [entry "c"]
             existing ltac:(discriminate) ltac:(discriminate) Hex).
  - exfalso. vm_compute in Hex. discriminate.
Defined.

(** ** C3: distinct and ascending step numbers *)

(** C3, as stated, fails. The session with the steps 1, 1.1, 2 in chain T is
    reachable and its numbers are distinct and ascending. A second insert of
    one step behind step 1 succeeds and gives the numbers 1, 1.1, 1.1, 2; an
    update from step 2 succeeds and gives the numbers 1, 1.1, 2, 2. Neither
    result has pairwise distinct numbers. *)
Lemma ordered_steps_counterexample :
  reachable sessionInserted ∧
  orderedSteps (stepsOf sessionInserted "T") ∧
  (∃ sm' text,
     wrapTaskChain sessionInserted (OpInsert "T" 1%float [entry "y"])
     = Some (sm', NewToolResultText text) ∧
     (Step.Number <$> stepsOf sm' "T") = [1%float; 1.1%float; 1.1%float; 2%float] ∧
     ¬ orderedSteps (stepsOf sm' "T")) ∧
  (∃ sm' text,
     wrapTaskChain sessionInserted (OpUpdate "T" 2%float [entry "w"])
     = Some (sm', NewToolResultText text) ∧
     (Step.Number <$> stepsOf sm' "T") = [1%float; 1.1%float; 2%float; 2%float] ∧
     ¬ orderedSteps (stepsOf sm' "T")).
Proof.
  split; [|split; [|split]].
  - apply sessionAfter_reachable. vm_compute. eauto.
  - apply orderedStepsb_spec. vm_compute. reflexivity.
  - eexists _, _. split; [vm_compute; reflexivity|]. split; [vm_compute; reflexivity|].
    rewrite <- orderedStepsb_spec. vm_compute. discriminate.
  - eexists _, _. split; [vm_compute; reflexivity|]. split; [vm_compute; reflexivity|].
    rewrite <- orderedStepsb_spec. vm_compute. discriminate.
Qed.

Lemma allOrdered_insert sm taskID chain' :
  allOrdered sm → orderedSteps (TaskChainV2.Steps chain') →
  allOrdered (with_TaskChainsV2 (<[taskID := chain']> (TaskChainsV2 sm)) sm).
Proof.
  intros Hsm Hc t c. cbn [TaskChainsV2 with_TaskChainsV2].
  destruct (decide (taskID = t)) as [->|Hne].
  - rewrite lookup_insert_eq. by intros [= <-].
  - rewrite lookup_insert_ne by done. apply Hsm.
Qed.

Lemma startStepV2_ordered sm taskID stepNumber :
  allOrdered sm → allOrdered (startStepV2 sm taskID stepNumber).1.
Proof.
  intros Hsm. unfold startStepV2.
  handler_cases; try done.
  cbn [fst]. apply allOrdered_insert; [done|].
  cbn [TaskChainV2.Steps TaskChainV2.with_Steps TaskChainV2.with_CurrentStep].
  match goal with H : findStep _ _ = Some _ |- _ => apply findStep_Some in H as (Hi & _) end.
  eapply orderedSteps_same_numbers; [by eapply numbers_insert_same|]. by eapply Hsm.
Qed.

Lemma completeStepV2_ordered sm taskID stepNumber summary :
  allOrdered sm → allOrdered (completeStepV2 sm taskID stepNumber summary).1.
Proof.
  intros Hsm. unfold completeStepV2.
  handler_cases; try done.
  cbn [fst]. apply allOrdered_insert; [done|].
  cbn [TaskChainV2.Steps TaskChainV2.with_Steps].
  match goal with H : findStep _ _ = Some _ |- _ => apply findStep_Some in H as (Hi & _) end.
  eapply orderedSteps_same_numbers; [by eapply numbers_insert_same|]. by eapply Hsm.
Qed.

Lemma deleteStepsV2_ordered sm taskID stepToDelete deleteScope :
  allOrdered sm → allOrdered (deleteStepsV2 sm taskID stepToDelete deleteScope).1.
Proof.
  intros Hsm. unfold deleteStepsV2.
  handler_cases; try done;
    cbn [fst]; (apply allOrdered_insert; [done|]);
    cbn [TaskChainV2.Steps TaskChainV2.with_Steps].
  - eapply orderedSteps_sublist; [apply sublist_filter|]. by eapply Hsm.
  - eapply orderedSteps_sublist; [apply sublist_delete|]. by eapply Hsm.
Qed.

Lemma initTaskChainV2_ordered sm taskID description (plan : list PlanEntry) :
  (Z.of_nat (length plan) < 2 ^ 53)%Z →
  allOrdered sm → allOrdered (initTaskChainV2 sm taskID description plan).1.
Proof.
  intros Hlen Hsm.
  destruct (decide (taskID = "")) as [->|Hid].
  { unfold initTaskChainV2. by rewrite decide_True. }
  destruct plan as [|p ps].
  { unfold initTaskChainV2. rewrite decide_False by done. by rewrite decide_True. }
  rewrite initTaskChainV2_ok by done. cbn [fst].
  apply allOrdered_insert; [done|]. by apply plannedSteps_ordered.
Qed.

(** C3, amended. In a session whose V2 chains all have pairwise distinct step
    numbers stored in ascending order, each of start, complete, delete (one
    step or the remaining ones), finish, and initialize with a plan of fewer
    than 2^53 entries returns a session whose V2 chains all have that property
    again. Insert and update are left out. *)
Theorem ordered_steps_preserved sm op sm' r :
  keepsOrder op → wrapTaskChain sm op = Some (sm', r) →
  allOrdered sm → allOrdered sm'.
Proof.
  intros Hop Hrun Hsm. destruct op; simpl in Hop, Hrun; try done;
    injection Hrun as Hrun.
  - replace sm' with (initTaskChainV2 sm taskID description plan).1 by by rewrite Hrun.
    by apply initTaskChainV2_ordered.
  - replace sm' with (startStepV2 sm taskID stepNumber).1 by by rewrite Hrun.
    by apply startStepV2_ordered.
  - replace sm' with (completeStepV2 sm taskID stepNumber summary).1 by by rewrite Hrun.
    by apply completeStepV2_ordered.
  - replace sm' with (deleteStepsV2 sm taskID stepNumber deleteScope).1 by by rewrite Hrun.
    by apply deleteStepsV2_ordered.
  - replace sm' with (finishChain sm taskID).1 by by rewrite Hrun.
    intros t c. rewrite finishChain_TaskChainsV2. apply Hsm.
Qed.

(** A two-step chain is created and its Todo step 2 deleted: the numbers that
    remain are ordered. *)
Lemma ordered_steps_preserved_witness :
  orderedSteps
    (stepsOf (sessionAfter [OpStep "T" "d" [entry "a"; entry "b"]; OpDelete "T" 2%float ""])
       "T").
Proof.
  assert (allOrdered emptySession) as H0.
  { intros t c. cbn. by rewrite lookup_empty. }
  unfold sessionAfter. cbn [runOps].
  destruct (wrapTaskChain emptySession (OpStep "T" "d" [entry "a"; entry "b"]))
    as [[sm1 r1]|] eqn:Hrun1; [|exfalso; vm_compute in Hrun1; discriminate].
  assert (allOrdered sm1) as H1.
  { apply (ordered_steps_preserved emptySession (OpStep "T" "d" [entry "a"; entry "b"])
             sm1 r1); [reflexivity | exact Hrun1 | exact H0]. }
  destruct (wrapTaskChain sm1 (OpDelete "T" 2%float ""))
    as [[sm2 r2]|] eqn:Hrun2; [|exfalso; simpl in Hrun2; discriminate].
  assert (allOrdered sm2) as H2.
  { apply (ordered_steps_preserved sm1 (OpDelete "T" 2%float "") sm2 r2);
      [exact I | exact Hrun2 | exact H1]. }
  unfold stepsOf, default. cbn [from_option id]. pose proof (H2 "T") as HT.
  destruct (TaskChainsV2 sm2 !! "T") as [c|]; [|repeat constructor].
  by apply HT.
Defined.

(** ** C4: what initialize creates *)

(** C4. With a task id given: for a non-empty plan of length N,
    [initTaskChainV2] succeeds and stores under the task id a running chain
    with exactly N steps, the k-th plan entry giving the step numbered k
    (k = 1..N, in plan order) with the name and input of the entry, every step
    Todo except step 1, which is InProgress, and [CurrentStep] 1; the numbers
    are pairwise distinct and ascending in storage order (for a plan of fewer
    than 2^53 entries, the integers that float64 holds exactly). For an empty
    plan it fails with the plan-required error (EmptyPlan) and changes
    nothing. *)
Theorem initTaskChainV2_creates_plan sm taskID description (plan : list PlanEntry) :
  taskID ≠ "" →
  (plan = [] →
   initTaskChainV2 sm taskID description plan = (sm, NewToolResultError ErrPlanRequired)) ∧
  (plan ≠ [] →
   ∃ sm' text chain,
     initTaskChainV2 sm taskID description plan = (sm', NewToolResultText text) ∧
     TaskChainsV2 sm' !! taskID = Some chain ∧
     TaskChainV2.TaskID chain = taskID ∧
     TaskChainV2.Description chain = description ∧
     TaskChainV2.Status chain = "running" ∧
     TaskChainV2.CurrentStep chain = 1%float ∧
     length (TaskChainV2.Steps chain) = length plan ∧
     (∀ k step, plan !! k = Some step →
       TaskChainV2.Steps chain !! k =
       Some (Step.mk (float64_of_nat (k + 1)) (default "<nil>" (step !! "name"))
               (default "" (step !! "input"))
               (if decide (k = 0) then StepStatusInProgress else StepStatusTodo) "")) ∧
     ((Z.of_nat (length plan) < 2 ^ 53)%Z → orderedSteps (TaskChainV2.Steps chain))).
Proof.
  intros Hid. split.
  - intros ->. unfold initTaskChainV2.
    rewrite decide_False by done. by rewrite decide_True.
  - intros Hplan. destruct plan as [|p ps]; [done|].
    eexists _, _, (plannedChain taskID description (p :: ps)).
    split; [by apply initTaskChainV2_ok|].
    cbn [TaskChainsV2 with_TaskChainsV2]. rewrite lookup_insert_eq.
    split; [done|]. do 4 (split; [done|]).
    split; [apply plannedSteps_length|]. split.
    + intros k step Hk. by apply plannedSteps_lookup.
    + apply plannedSteps_ordered.
Qed.

Lemma initTaskChainV2_creates_plan_witness :
  ∃ sm' text chain,
    initTaskChainV2 emptySession "T" "d" [entry "search"; entry "analyze"; entry "write"]
    = (sm', NewToolResultText text) ∧
    TaskChainsV2 sm' !! "T" = Some chain ∧
    (Step.Number <$> TaskChainV2.Steps chain) = [1%float; 2%float; 3%float] ∧
    (Step.Status <$> TaskChainV2.Steps chain) =
    [StepStatusInProgress; StepStatusTodo; StepStatusTodo].
Proof.
  destruct (initTaskChainV2_creates_plan emptySession "T" "d"
              [entry "search"; entry "analyze"; entry "write"]) as [_ H]; [done|].
  destruct H as (sm' & text & chain & Hrun & Hchain & _); [done|].
  exists sm', text, chain. split; [exact Hrun|]. split; [exact Hchain|].
  rewrite initTaskChainV2_ok in Hrun by done.
  injection Hrun as <- _. cbn [TaskChainsV2 with_TaskChainsV2] in Hchain.
  rewrite lookup_insert_eq in Hchain. injection Hchain as <-.
  split; reflexivity.
Defined.

(** ** C5: insert *)

(** C5, as stated, fails: chain T has the ascending numbers 1, 1.1, 2 (the 1.1
    from an earlier insert behind step 1); a further insert of two steps behind
    step 1 succeeds and leaves the numbers 1, 1.1, 1.2, 1.1, 2, which are not
    in ascending order. *)
Lemma insertStepsV2_ascending_counterexample :
  ascendingNumbers (stepsOf sessionInserted "T") ∧
  isError (insertStepsV2 sessionInserted "T" 1%float [entry "y"; entry "z"]).2 = false ∧
  (Step.Number <$> stepsOf (insertStepsV2 sessionInserted "T" 1%float
                              [entry "y"; entry "z"]).1 "T")
  = [1%float; 1.1%float; 1.2%float; 1.1%float; 2%float] ∧
  ¬ ascendingNumbers (stepsOf (insertStepsV2 sessionInserted "T" 1%float
                                 [entry "y"; entry "z"]).1 "T").
Proof.
  split; [|split; [|split]].
  - apply ascendingNumbersb_spec. vm_compute. reflexivity.
  - vm_compute. reflexivity.
  - vm_compute. reflexivity.
  - rewrite <- ascendingNumbersb_spec. vm_compute. discriminate.
Qed.

(** C5, amended. In an existing chain, insert with a non-empty list of new
    steps fails with the step-not-found error (AnchorNotFound) and changes
    nothing if no step has number equal to [after]. Otherwise, with the first
    step numbered [after] at index [i], it succeeds: the steps up to index [i]
    stay where they are, the new steps follow immediately, the k-th one
    (k = 1, 2, ...) being Todo, without summary, with the name and input of the
    k-th entry and number [after + k/10] (in float64), and the steps that were
    behind index [i] follow in their old order. Whether the numbers are still
    ascending is left open. *)
Theorem insertStepsV2_inserts sm taskID after (insertPlan : list PlanEntry)
    (chain : TaskChainV2.t) :
  taskID ≠ "" → insertPlan ≠ [] → TaskChainsV2 sm !! taskID = Some chain →
  (Forall (fun s => ¬ hasNumber after s) (TaskChainV2.Steps chain) →
   insertStepsV2 sm taskID after insertPlan =
   (sm, NewToolResultError (ErrStepNotFound after))) ∧
  (∀ i s,
     TaskChainV2.Steps chain !! i = Some s → hasNumber after s →
     (∀ j y, TaskChainV2.Steps chain !! j = Some y → j < i → ¬ hasNumber after y) →
     ∃ sm' text chain',
       insertStepsV2 sm taskID after insertPlan = (sm', NewToolResultText text) ∧
       TaskChainsV2 sm' !! taskID = Some chain' ∧
       length (TaskChainV2.Steps chain') =
         length (TaskChainV2.Steps chain) + length insertPlan ∧
       (∀ j, j ≤ i → TaskChainV2.Steps chain' !! j = TaskChainV2.Steps chain !! j) ∧
       (∀ k step, insertPlan !! k = Some step →
          TaskChainV2.Steps chain' !! (i + 1 + k) =
          Some (Step.mk (after + float64_of_nat (k + 1) / 10)%float
                  (default "<nil>" (step !! "name")) (default "" (step !! "input"))
                  StepStatusTodo "")) ∧
       (∀ j, i < j →
          TaskChainV2.Steps chain' !! (j + length insertPlan) =
          TaskChainV2.Steps chain !! j)).
Proof.
  intros Hid Hplan Hchain. split.
  - intros Hnone. unfold insertStepsV2.
    rewrite decide_False by done.
    rewrite decide_False by (by destruct insertPlan).
    rewrite Hchain. by apply findStep_None in Hnone as ->.
  - intros i s Hi Hnum Hfirst.
    assert (findStep after (TaskChainV2.Steps chain) = Some (i, s)) as Hfind.
    { by apply findStep_Some. }
    pose proof (lookup_lt_Some _ _ _ Hi) as Hlt.
    set (steps := TaskChainV2.Steps chain) in *.
    assert (length (take (i + 1) steps) = i + 1) as Htake.
    { rewrite length_take. lia. }
    eexists _, _, _. split; [by eapply insertStepsV2_ok|].
    cbn [TaskChainsV2 with_TaskChainsV2]. split; [apply lookup_insert_eq|].
    cbn [TaskChainV2.Steps TaskChainV2.with_Steps]. fold steps.
    split; [|split; [|split]].
    + rewrite !length_app, Htake, insertedSteps_length, length_drop. lia.
    + intros j Hj. rewrite lookup_app_l by lia. apply lookup_take_lt. lia.
    + intros k step Hk. rewrite lookup_app_r by lia.
      rewrite Htake. replace (i + 1 + k - (i + 1)) with k by lia.
      pose proof (lookup_lt_Some _ _ _ Hk) as Hklt.
      rewrite lookup_app_l by (rewrite insertedSteps_length; lia).
      by apply insertedSteps_lookup.
    + intros j Hj. rewrite lookup_app_r by lia.
      rewrite lookup_app_r by (rewrite insertedSteps_length; lia).
      rewrite Htake, insertedSteps_length, lookup_drop. f_equal. lia.
Qed.

(** The example of the spec: one step inserted behind step 1 of a three-step
    chain gets number 1.1 and sits between steps 1 and 2. *)
Lemma insertStepsV2_inserts_witness :
  ∃ sm' text,
    insertStepsV2 (sessionAfter [OpStep "T" "d" [entry "search"; entry "analyze"; entry "write"]])
      "T" 1%float [entry "read file"] = (sm', NewToolResultText text) ∧
    ((fun s => (Step.Number s, Step.Name s, Step.Status s)) <$> stepsOf sm' "T") =
    [(1%float, "search", StepStatusInProgress); (1.1%float, "read file", StepStatusTodo);
     (2%float, "analyze", StepStatusTodo); (3%float, "write", StepStatusTodo)].
Proof.
  pose (plan := [entry "search"; entry "analyze"; entry "write"]).
  pose (sm := sessionAfter [OpStep "T" "d" plan]).
  destruct (insertStepsV2_inserts sm "T" 1%float [entry "read file"]
              (plannedChain "T" "d" plan)) as [_ Hfound].
  - discriminate.
  - discriminate.
  - vm_compute. reflexivity.
  - destruct (Hfound 0 (Step.with_Status StepStatusInProgress (planStep 1%float (entry "search"))))
      as (sm' & text & chain' & Hrun & Hchain' & _).
    + reflexivity.
    + reflexivity.
    + intros j y _ Hj. lia.
    + exists sm', text. split; [exact Hrun|].
      pose proof Hrun as Hval. vm_compute in Hval. injection Hval as <- _.
      vm_compute. reflexivity.
Defined.

(** ** C6: the life cycle of a step *)

(** C6, as stated, fails: in chain T the step numbered 1 is Complete;
    initialize with the same task id succeeds, and afterwards the step
    numbered 1 of chain T is InProgress. *)
Lemma status_reverted_counterexample :
  (Step.Status ∘ snd <$> findStep 1%float (stepsOf sessionStepDone "T"))
  = Some StepStatusComplete ∧
  isError (initTaskChainV2 sessionStepDone "T" "first" [entry "a"; entry "b"]).2 = false ∧
  (Step.Status ∘ snd <$>
     findStep 1%float
       (stepsOf (initTaskChainV2 sessionStepDone "T" "first" [entry "a"; entry "b"]).1 "T"))
  = Some StepStatusInProgress.
Proof. repeat split; vm_compute; reflexivity. Qed.

Lemma advanced_refl s : advanced s s.
Proof. by repeat split. Qed.

Lemma Forall2_advanced_refl steps : Forall2 advanced steps steps.
Proof. induction steps; constructor; [apply advanced_refl | done]. Qed.

Lemma evolves_refl steps : evolves steps steps.
Proof. left. apply Forall2_advanced_refl. Qed.

Lemma Forall2_advanced_insert steps i s s' :
  steps !! i = Some s → advanced s s' → Forall2 advanced steps (<[i := s']> steps).
Proof.
  revert i. induction steps as [|x steps IH]; intros i Hi Hadv; [done|].
  destruct i as [|i]; simpl in *.
  - injection Hi as ->. constructor; [done | apply Forall2_advanced_refl].
  - constructor; [apply advanced_refl | by apply IH].
Qed.

Lemma stepsRemoved_refl steps : stepsRemoved steps steps.
Proof. induction steps; by constructor. Qed.

Lemma stepsRemoved_filter steps :
  stepsRemoved steps (filter keptByDeleteRemaining steps).
Proof.
  induction steps as [|s steps IH]; [constructor|].
  rewrite filter_cons. case_decide as Hkept.
  - by constructor.
  - apply stepsRemoved_drop; [|done].
    intros Hst. apply Hkept. by right.
Qed.

Lemma stepsRemoved_delete steps i s :
  steps !! i = Some s → Step.Status s ≠ StepStatusInProgress →
  stepsRemoved steps (delete i steps).
Proof.
  revert i. induction steps as [|x steps IH]; intros i Hi Hst; [done|].
  destruct i as [|i]; simpl in *.
  - injection Hi as ->. apply stepsRemoved_drop; [done | apply stepsRemoved_refl].
  - apply stepsRemoved_keep. by eapply IH.
Qed.

Lemma sessionEvolves_refl sm : sessionEvolves sm sm.
Proof. intros t c Hc. exists c. split; [done | apply evolves_refl]. Qed.

Lemma sessionEvolves_insert sm taskID chain chain' :
  TaskChainsV2 sm !! taskID = Some chain →
  evolves (TaskChainV2.Steps chain) (TaskChainV2.Steps chain') →
  sessionEvolves sm (with_TaskChainsV2 (<[taskID := chain']> (TaskChainsV2 sm)) sm).
Proof.
  intros Hchain Hev t c Hc. cbn [TaskChainsV2 with_TaskChainsV2].
  destruct (decide (taskID = t)) as [->|Hne].
  - rewrite lookup_insert_eq. exists chain'. split; [done|]. by simplify_eq.
  - rewrite lookup_insert_ne by done. exists c. split; [done | apply evolves_refl].
Qed.

Lemma startStepV2_evolves sm taskID stepNumber :
  sessionEvolves sm (startStepV2 sm taskID stepNumber).1.
Proof.
  unfold startStepV2.
  handler_cases; try apply sessionEvolves_refl.
  cbn [fst]. eapply sessionEvolves_insert; [done|].
  cbn [TaskChainV2.Steps TaskChainV2.with_Steps TaskChainV2.with_CurrentStep].
  match goal with H : findStep _ _ = Some _ |- _ => apply findStep_Some in H as (Hi & _) end.
  left. eapply Forall2_advanced_insert; [done|].
  match goal with H : Step.Status _ = _ |- _ => rename H into Hst end.
  repeat split; try done. cbn. rewrite Hst. simpl. lia.
Qed.

Lemma completeStepV2_evolves sm taskID stepNumber summary :
  sessionEvolves sm (completeStepV2 sm taskID stepNumber summary).1.
Proof.
  unfold completeStepV2.
  handler_cases; try apply sessionEvolves_refl.
  cbn [fst]. eapply sessionEvolves_insert; [done|].
  cbn [TaskChainV2.Steps TaskChainV2.with_Steps].
  match goal with H : findStep _ _ = Some _ |- _ => apply findStep_Some in H as (Hi & _) end.
  left. eapply Forall2_advanced_insert; [done|].
  match goal with H : Step.Status _ = _ |- _ => rename H into Hst end.
  repeat split; try done. cbn. rewrite Hst. simpl. lia.
Qed.

Lemma insertStepsV2_evolves sm taskID after insertPlan :
  sessionEvolves sm (insertStepsV2 sm taskID after insertPlan).1.
Proof.
  unfold insertStepsV2.
  handler_cases; try apply sessionEvolves_refl.
  cbn [fst]. eapply sessionEvolves_insert; [done|].
  cbn [TaskChainV2.Steps TaskChainV2.with_Steps].
  right. left.
  match goal with |- stepsInserted ?l (take ?k _ ++ ?added ++ _) =>
    exists (take k l), added, (drop k l) end.
  split; [by rewrite take_drop|]. split; [done|].
  apply (planStep_fresh (fun i => (after + float64_of_nat (i + 1) / 10)%float)).
Qed.

Lemma deleteStepsV2_evolves sm taskID stepToDelete deleteScope :
  sessionEvolves sm (deleteStepsV2 sm taskID stepToDelete deleteScope).1.
Proof.
  unfold deleteStepsV2.
  handler_cases; try apply sessionEvolves_refl;
    cbn [fst]; (eapply sessionEvolves_insert; [done|]);
    cbn [TaskChainV2.Steps TaskChainV2.with_Steps TaskChainV2.with_NewSteps];
    right; right.
  - apply stepsRemoved_filter.
  - match goal with H : findStep _ _ = Some _ |- _ => apply findStep_Some in H as (Hi & _) end.
    by eapply stepsRemoved_delete.
Qed.

Lemma finishChain_evolves sm taskID : sessionEvolves sm (finishChain sm taskID).1.
Proof.
  intros t c Hc. rewrite finishChain_TaskChainsV2.
  exists c. split; [done | apply evolves_refl].
Qed.

Lemma initTaskChainV2_evolves sm taskID description plan :
  TaskChainsV2 sm !! taskID = None →
  sessionEvolves sm (initTaskChainV2 sm taskID description plan).1.
Proof.
  intros Hfresh.
  destruct (decide (taskID = "")) as [->|Hid].
  { unfold initTaskChainV2. rewrite decide_True by done. apply sessionEvolves_refl. }
  destruct plan as [|p ps].
  { unfold initTaskChainV2. rewrite decide_False by done.
    rewrite decide_True by done. apply sessionEvolves_refl. }
  rewrite initTaskChainV2_ok by done. cbn [fst].
  intros t c Hc. cbn [TaskChainsV2 with_TaskChainsV2].
  rewrite lookup_insert_ne by congruence.
  exists c. split; [done | apply evolves_refl].
Qed.

(** Every operation but update and an initialize on a task id that has a
    chain returns, and takes no status back. *)
Lemma wrapTaskChain_evolves sm op :
  keepsLifeCycle sm op →
  ∃ sm' r, wrapTaskChain sm op = Some (sm', r) ∧ sessionEvolves sm sm'.
Proof.
  intros Hop. destruct op; simpl in Hop; [| | | |done| |].
  - exists (initTaskChainV2 sm taskID description plan).1,
           (initTaskChainV2 sm taskID description plan).2.
    split; [simpl; by destruct (initTaskChainV2 _ _ _ _) | by apply initTaskChainV2_evolves].
  - exists (startStepV2 sm taskID stepNumber).1, (startStepV2 sm taskID stepNumber).2.
    split; [simpl; by destruct (startStepV2 _ _ _) | apply startStepV2_evolves].
  - exists (completeStepV2 sm taskID stepNumber summary).1,
           (completeStepV2 sm taskID stepNumber summary).2.
    split; [simpl; by destruct (completeStepV2 _ _ _ _) | apply completeStepV2_evolves].
  - exists (insertStepsV2 sm taskID after insertPlan).1,
           (insertStepsV2 sm taskID after insertPlan).2.
    split; [simpl; by destruct (insertStepsV2 _ _ _ _) | apply insertStepsV2_evolves].
  - exists (deleteStepsV2 sm taskID stepNumber deleteScope).1,
           (deleteStepsV2 sm taskID stepNumber deleteScope).2.
    split; [simpl; by destruct (deleteStepsV2 _ _ _ _) | apply deleteStepsV2_evolves].
  - exists (finishChain sm taskID).1, (finishChain sm taskID).2.
    split; [simpl; by destruct (finishChain _ _) | apply finishChain_evolves].
Qed.

(** C6, amended. For the first step with a given number in an existing chain:
    start fails with InvalidTransition unless that step is Todo, and then
    makes it InProgress, so that a second start of the same number fails;
    complete (with a summary) fails with InvalidTransition unless that step is
    InProgress, and then makes it Complete, after which both start and
    complete of that number fail and change nothing. And every operation
    other than update and an initialize on a task id that already has a chain
    returns and leaves every chain in place, with its steps changed in one of
    three ways: every step stays in its place with its number, name and input
    and a status that is the same or further on the path Todo, InProgress,
    Complete; or new Todo steps without summary are put between the steps,
    which all stay as they are; or steps are removed, none of them
    InProgress, and the others stay as they are. *)
Theorem step_life_cycle sm :
  (∀ taskID stepNumber (chain : TaskChainV2.t) i (s : Step.t),
     taskID ≠ "" → TaskChainsV2 sm !! taskID = Some chain →
     TaskChainV2.Steps chain !! i = Some s → hasNumber stepNumber s →
     (∀ j y, TaskChainV2.Steps chain !! j = Some y → j < i → ¬ hasNumber stepNumber y) →
     (Step.Status s ≠ StepStatusTodo →
      startStepV2 sm taskID stepNumber =
      (sm, NewToolResultError (ErrCannotStart stepNumber (Step.Status s)))) ∧
     (Step.Status s = StepStatusTodo →
      ∃ sm' text,
        startStepV2 sm taskID stepNumber = (sm', NewToolResultText text) ∧
        stepsOf sm' taskID =
          <[i := Step.with_Status StepStatusInProgress s]> (TaskChainV2.Steps chain) ∧
        startStepV2 sm' taskID stepNumber =
          (sm', NewToolResultError (ErrCannotStart stepNumber StepStatusInProgress))) ∧
     (∀ summary, summary ≠ "" → Step.Status s ≠ StepStatusInProgress →
      completeStepV2 sm taskID stepNumber summary =
      (sm, NewToolResultError (ErrCannotComplete stepNumber (Step.Status s)))) ∧
     (∀ summary, summary ≠ "" → Step.Status s = StepStatusInProgress →
      ∃ sm' text,
        completeStepV2 sm taskID stepNumber summary = (sm', NewToolResultText text) ∧
        stepsOf sm' taskID =
          <[i := Step.with_Status StepStatusComplete (Step.with_Summary summary s)]>
            (TaskChainV2.Steps chain) ∧
        startStepV2 sm' taskID stepNumber =
          (sm', NewToolResultError (ErrCannotStart stepNumber StepStatusComplete)) ∧
        ∀ summary', summary' ≠ "" →
          completeStepV2 sm' taskID stepNumber summary' =
          (sm', NewToolResultError (ErrCannotComplete stepNumber StepStatusComplete)))) ∧
  (∀ op, keepsLifeCycle sm op →
     ∃ sm' r, wrapTaskChain sm op = Some (sm', r) ∧ sessionEvolves sm sm').
Proof.
  split; [|apply wrapTaskChain_evolves].
  intros taskID stepNumber chain i s Hid Hchain Hi Hnum Hfirst.
  assert (findStep stepNumber (TaskChainV2.Steps chain) = Some (i, s)) as Hfind.
  { by apply findStep_Some. }
  split; [|split; [|split]].
  - intros Hst. by eapply startStepV2_not_todo.
  - intros Hst. eexists _, _. split; [by eapply startStepV2_ok|].
    split; [by rewrite stepsOf_insert|].
    eapply (startStepV2_not_todo _ _ _ _ i (Step.with_Status StepStatusInProgress s));
      [done | cbn [TaskChainsV2 with_TaskChainsV2]; apply lookup_insert_eq | | done].
    cbn [TaskChainV2.Steps TaskChainV2.with_Steps TaskChainV2.with_CurrentStep].
    by apply (findStep_insert _ _ _ s).
  - intros summary Hsum Hst. by eapply completeStepV2_not_in_progress.
  - intros summary Hsum Hst.
    set (s' := Step.with_Status StepStatusComplete (Step.with_Summary summary s)).
    assert (findStep stepNumber (<[i := s']> (TaskChainV2.Steps chain)) = Some (i, s'))
      as Hfind' by by apply (findStep_insert _ _ _ s).
    unfold renderDecisionPoint.
    eexists _, _. split.
    { rewrite (completeStepV2_ok sm taskID stepNumber summary chain i s) by done.
      unfold renderDecisionPoint. reflexivity. }
    split; [by rewrite stepsOf_insert|]. split.
    + eapply (startStepV2_not_todo _ _ _ _ i s');
        [done | cbn [TaskChainsV2 with_TaskChainsV2]; apply lookup_insert_eq | done | done].
    + intros summary' Hsum'.
      eapply (completeStepV2_not_in_progress _ _ _ _ _ i s');
        [done | done | cbn [TaskChainsV2 with_TaskChainsV2]; apply lookup_insert_eq
        | done | done].
Qed.

(** In chain T, whose step 1 is Complete and step 2 Todo: start of step 1
    fails; start of step 2 succeeds once and fails the second time; deleting
    step 2 removes it and leaves step 1 as it is. *)
Lemma step_life_cycle_witness :
  startStepV2 sessionStepDone "T" 1%float =
    (sessionStepDone, NewToolResultError (ErrCannotStart 1%float StepStatusComplete)) ∧
  (∃ sm' text,
     startStepV2 sessionStepDone "T" 2%float = (sm', NewToolResultText text) ∧
     startStepV2 sm' "T" 2%float =
       (sm', NewToolResultError (ErrCannotStart 2%float StepStatusInProgress))) ∧
  evolves (stepsOf sessionStepDone "T")
    (stepsOf (deleteStepsV2 sessionStepDone "T" 2%float "").1 "T").
Proof.
  destruct (step_life_cycle sessionStepDone) as [Hguards Hev].
  pose (chain := default (plannedChain "" "" []) (TaskChainsV2 sessionStepDone !! "T")).
  assert (TaskChainsV2 sessionStepDone !! "T" = Some chain) as Hchain.
  { vm_compute. reflexivity. }
  split; [|split].
  - pose (s := Step.mk 1%float "a" "" StepStatusComplete "done").
    destruct (Hguards "T" 1%float chain 0 s) as (Hstart & _).
    + discriminate.
    + exact Hchain.
    + vm_compute. reflexivity.
    + reflexivity.
    + intros j y _ Hj. lia.
    + apply Hstart. discriminate.
  - pose (s := planStep 2%float (entry "b")).
    destruct (Hguards "T" 2%float chain 1 s) as (_ & Hstart & _).
    + discriminate.
    + exact Hchain.
    + vm_compute. reflexivity.
    + reflexivity.
    + intros j y Hy Hj. assert (j = 0) as -> by lia.
      vm_compute in Hy. injection Hy as <-. vm_compute. discriminate.
    + destruct Hstart as (sm' & text & Hrun & _ & Hagain); [reflexivity|].
      by exists sm', text.
  - destruct (deleteStepsV2 sessionStepDone "T" 2%float "") as [sm1 r1] eqn:Hdelete.
    destruct (Hev (OpDelete "T" 2%float "")) as (sm' & r & Hrun & Hevolves); [exact I|].
    cbn [wrapTaskChain] in Hrun. rewrite Hdelete in Hrun. injection Hrun as <- <-.
    destruct (Hevolves "T" chain Hchain) as (chain' & Hchain' & Hsteps).
    unfold stepsOf. cbn [fst]. rewrite Hchain, Hchain'. exact Hsteps.
Defined.

(** ** C7: a failed operation changes nothing *)

Lemma startStepV2_error sm taskID stepNumber sm' e :
  startStepV2 sm taskID stepNumber = (sm', NewToolResultError e) → sm' = sm.
Proof.
  unfold startStepV2. intros H.
  by handler_cases.
Qed.

Lemma completeStepV2_error sm taskID stepNumber summary sm' e :
  completeStepV2 sm taskID stepNumber summary = (sm', NewToolResultError e) → sm' = sm.
Proof.
  unfold completeStepV2, renderDecisionPoint. intros H.
  by handler_cases.
Qed.

Lemma insertStepsV2_error sm taskID after insertPlan sm' e :
  insertStepsV2 sm taskID after insertPlan = (sm', NewToolResultError e) → sm' = sm.
Proof.
  unfold insertStepsV2. intros H.
  by handler_cases.
Qed.

Lemma updateStepsV2_error sm taskID from updatePlan sm' e :
  updateStepsV2 sm taskID from updatePlan = Some (sm', NewToolResultError e) → sm' = sm.
Proof.
  unfold updateStepsV2. intros H.
  by handler_cases.
Qed.

Lemma deleteStepsV2_error sm taskID stepToDelete deleteScope sm' e :
  deleteStepsV2 sm taskID stepToDelete deleteScope = (sm', NewToolResultError e) → sm' = sm.
Proof.
  unfold deleteStepsV2. intros H.
  by handler_cases.
Qed.

Lemma finishChain_error sm taskID sm' e :
  finishChain sm taskID = (sm', NewToolResultError e) → sm' = sm.
Proof.
  unfold finishChain. intros H.
  by handler_cases.
Qed.

Lemma initTaskChainV2_error sm taskID description plan sm' e :
  initTaskChainV2 sm taskID description plan = (sm', NewToolResultError e) → sm' = sm.
Proof.
  destruct (decide (taskID = "")) as [->|Hid].
  { unfold initTaskChainV2. rewrite decide_True by done. by intros [= <- _]. }
  destruct plan as [|p ps].
  { unfold initTaskChainV2. rewrite decide_False by done.
    rewrite decide_True by done. by intros [= <- _]. }
  by rewrite initTaskChainV2_ok.
Qed.

(** C7. Whenever one of the seven operations returns an error result, the
    session it returns (both chain stores, hence every chain) is the session
    it was called with. *)
Theorem wrapTaskChain_error_leaves_session sm op sm' r :
  wrapTaskChain sm op = Some (sm', r) → isError r = true → sm' = sm.
Proof.
  intros Hrun Herr. destruct r as [text|e]; [done|].
  destruct op; simpl in Hrun.
  - injection Hrun as Hrun. by eapply initTaskChainV2_error.
  - injection Hrun as Hrun. by eapply startStepV2_error.
  - injection Hrun as Hrun. by eapply completeStepV2_error.
  - injection Hrun as Hrun. by eapply insertStepsV2_error.
  - by eapply updateStepsV2_error.
  - injection Hrun as Hrun. by eapply deleteStepsV2_error.
  - injection Hrun as Hrun. by eapply finishChain_error.
Qed.

(** Completing a step that is complete already fails, and the session is
    unchanged. *)
Lemma wrapTaskChain_error_leaves_session_witness :
  wrapTaskChain sessionStepDone (OpComplete "T" 1%float "again") =
  Some (sessionStepDone,
        NewToolResultError (ErrCannotComplete 1%float StepStatusComplete)).
Proof.
  destruct (wrapTaskChain sessionStepDone (OpComplete "T" 1%float "again"))
    as [[sm' r]|] eqn:Hrun.
  - assert (r = NewToolResultError (ErrCannotComplete 1%float StepStatusComplete)) as Hr.
    { pose proof Hrun as Hval. vm_compute in Hval. by injection Hval as _ <-. }
    rewrite (wrapTaskChain_error_leaves_session sessionStepDone
               (OpComplete "T" 1%float "again") sm' r Hrun);
      [by rewrite Hr | by rewrite Hr].
  - exfalso. vm_compute in Hrun. discriminate.
Defined.

(** ** C8: deleting one step *)

(** C8, as stated, fails: the first step numbered 1 of chain T is Complete, and
    deleting it by number succeeds and removes it. *)
Lemma deleteStepsV2_complete_counterexample :
  (Step.Status ∘ snd <$> findStep 1%float (stepsOf sessionStepDone "T"))
  = Some StepStatusComplete ∧
  isError (deleteStepsV2 sessionStepDone "T" 1%float "").2 = false ∧
  (Step.Number <$> stepsOf sessionStepDone "T") = [1%float; 2%float] ∧
  (Step.Number <$> stepsOf (deleteStepsV2 sessionStepDone "T" 1%float "").1 "T") = [2%float].
Proof. repeat split; vm_compute; reflexivity. Qed.

(** C8, amended. In an existing chain, delete with a scope other than
    "remaining": fails with the target-required error when the target is not
    greater than 0; fails with the step-not-found error (StepNotFound) when no
    step has the target as its number; and, for the first step with that
    number, fails with CannotDeleteActive when it is InProgress and otherwise
    (the step is Todo or Complete) succeeds and removes that step and no
    other. A failure leaves the session unchanged. *)
Theorem deleteStepsV2_single sm taskID stepToDelete deleteScope (chain : TaskChainV2.t) :
  taskID ≠ "" → deleteScope ≠ "remaining" → TaskChainsV2 sm !! taskID = Some chain →
  (PrimFloat.ltb 0 stepToDelete = false →
   deleteStepsV2 sm taskID stepToDelete deleteScope =
   (sm, NewToolResultError ErrDeleteTargetRequired)) ∧
  (PrimFloat.ltb 0 stepToDelete = true →
   Forall (fun s => ¬ hasNumber stepToDelete s) (TaskChainV2.Steps chain) →
   deleteStepsV2 sm taskID stepToDelete deleteScope =
   (sm, NewToolResultError (ErrStepNotFound stepToDelete))) ∧
  (∀ i s,
     PrimFloat.ltb 0 stepToDelete = true →
     TaskChainV2.Steps chain !! i = Some s → hasNumber stepToDelete s →
     (∀ j y, TaskChainV2.Steps chain !! j = Some y → j < i → ¬ hasNumber stepToDelete y) →
     (Step.Status s = StepStatusInProgress →
      deleteStepsV2 sm taskID stepToDelete deleteScope =
      (sm, NewToolResultError (ErrDeleteInProgress stepToDelete))) ∧
     (Step.Status s ≠ StepStatusInProgress →
      deleteStepsV2 sm taskID stepToDelete deleteScope =
      (with_TaskChainsV2
         (<[taskID := TaskChainV2.with_Steps (delete i (TaskChainV2.Steps chain)) chain]>
            (TaskChainsV2 sm)) sm,
       NewToolResultText (TextDeletedStep stepToDelete (Step.Name s))))).
Proof.
  intros Hid Hscope Hchain. split; [|split].
  - intros Hpos. unfold deleteStepsV2.
    rewrite decide_False by done. rewrite Hchain.
    rewrite decide_False by done. by rewrite Hpos.
  - intros Hpos Hnone. unfold deleteStepsV2.
    rewrite decide_False by done. rewrite Hchain.
    rewrite decide_False by done. rewrite Hpos.
    by apply findStep_None in Hnone as ->.
  - intros i s Hpos Hi Hnum Hfirst.
    assert (findStep stepToDelete (TaskChainV2.Steps chain) = Some (i, s)) as Hfind.
    { by apply findStep_Some. }
    rewrite (deleteStepsV2_single_found sm taskID stepToDelete deleteScope chain i s)
      by done.
    split; intros Hst; [by rewrite decide_True | by rewrite decide_False].
Qed.

(** Deleting the Todo step 2 of chain T, whose step 1 is Complete. *)
Lemma deleteStepsV2_single_witness :
  (deleteStepsV2 sessionStepDone "T" 2%float "").2 =
  NewToolResultText (TextDeletedStep 2%float "b") ∧
  (Step.Number <$> stepsOf (deleteStepsV2 sessionStepDone "T" 2%float "").1 "T") = [1%float].
Proof.
  pose (chain := default (plannedChain "" "" []) (TaskChainsV2 sessionStepDone !! "T")).
  pose (s := planStep 2%float (entry "b")).
  destruct (deleteStepsV2_single sessionStepDone "T" 2%float "" chain)
    as (_ & _ & Hfound).
  - discriminate.
  - discriminate.
  - vm_compute. reflexivity.
  - destruct (Hfound 1 s) as [_ Hdel].
    + reflexivity.
    + vm_compute. reflexivity.
    + reflexivity.
    + intros j y Hy Hj. assert (j = 0) as -> by lia.
      vm_compute in Hy. injection Hy as <-. vm_compute. discriminate.
    + rewrite Hdel by discriminate. split; vm_compute; reflexivity.
Defined.

(** ** C9: the preview of the completed steps *)

Lemma string_length_append (s1 s2 : string) :
  String.length (s1 +:+ s2) = String.length s1 + String.length s2.
Proof. induction s1 as [|b s1 IH]; simpl; [done|]. by rewrite IH. Qed.

Lemma string_length_substring_0 n (s : string) :
  n ≤ String.length s → String.length (String.substring 0 n s) = n.
Proof.
  revert s. induction n as [|n IH]; intros s Hn.
  - by destruct s.
  - destruct s as [|b s]; simpl in *; [lia|]. rewrite IH; [done|lia].
Qed.

Lemma summaryPreview_short summary :
  String.length summary ≤ 100 → summaryPreview summary = summary.
Proof. intros Hlen. unfold summaryPreview. rewrite decide_False; [done|lia]. Qed.

Lemma summaryPreview_long summary :
  100 < String.length summary →
  summaryPreview summary = String.substring 0 100 summary +:+ "..." ∧
  String.length (summaryPreview summary) = 103.
Proof.
  intros Hlen. unfold summaryPreview. rewrite decide_True by done.
  split; [done|]. rewrite string_length_append, string_length_substring_0; [done|lia].
Qed.

(** C9, as stated, fails: step 1 is completed with a summary of 34 characters
    (102 bytes in UTF-8); the preview of the briefing does not show it in
    full, but cut to 100 bytes, followed by three dots. *)
Lemma summaryPreview_characters_counterexample :
  runeCount (cjkText 34) = 34 ∧
  (∃ dp,
     (completeStepV2 sessionOneStep "T" 1%float (cjkText 34)).2
     = NewToolResultText (TextDecisionPoint dp) ∧
     dpCompletedPreview dp =
     [(1%float, "a", Some (String.substring 0 100 (cjkText 34) +:+ "..."))]) ∧
  String.substring 0 100 (cjkText 34) +:+ "..." ≠ cjkText 34.
Proof.
  split; [|split].
  - vm_compute. reflexivity.
  - eexists. split; vm_compute; reflexivity.
  - vm_compute. discriminate.
Qed.

(** C9, amended. The briefing of a successful complete lists, in storage
    order, one preview entry per Complete step of the chain: its number, its
    name and, unless the summary is empty, the summary preview. The preview is
    the summary itself when the summary has at most 100 bytes, and otherwise
    its first 100 bytes followed by three dots (103 bytes); lengths are counted
    in bytes, not in characters. *)
Theorem completeStepV2_completed_preview sm taskID stepNumber summary sm' text :
  completeStepV2 sm taskID stepNumber summary = (sm', NewToolResultText text) →
  ∃ dp chain',
    text = TextDecisionPoint dp ∧
    TaskChainsV2 sm' !! taskID = Some chain' ∧
    dpCompletedPreview dp =
      omap (fun step : Step.t =>
              if decide (Step.Status step = StepStatusComplete)
              then Some (Step.Number step, Step.Name step,
                         if decide (Step.Summary step = "") then None
                         else Some (summaryPreview (Step.Summary step)))
              else None) (TaskChainV2.Steps chain') ∧
    (∀ s, String.length s ≤ 100 → summaryPreview s = s) ∧
    (∀ s, 100 < String.length s →
          summaryPreview s = String.substring 0 100 s +:+ "..." ∧
          String.length (summaryPreview s) = 103).
Proof.
  intros Hrun. apply completeStepV2_result in Hrun as (chain' & i & Hchain' & Hr).
  unfold renderDecisionPoint in Hr. injection Hr as ->.
  eexists _, chain'. split; [done|]. split; [done|].
  cbn [dpCompletedPreview]. split; [|split].
  - unfold completedPreview. generalize (TaskChainV2.Steps chain').
    induction l as [|step l IH]; [done|]. cbn [omap list_omap].
    rewrite <- IH. repeat case_decide; done.
  - apply summaryPreview_short.
  - apply summaryPreview_long.
Qed.

(** Completing step 1 with a short summary: the preview shows it in full. *)
Lemma completeStepV2_completed_preview_witness :
  ∃ dp,
    (completeStepV2 sessionOneStep "T" 1%float "found X").2
    = NewToolResultText (TextDecisionPoint dp) ∧
    dpCompletedPreview dp = [(1%float, "a", Some "found X")].
Proof.
  destruct (completeStepV2 sessionOneStep "T" 1%float "found X") as [sm' r] eqn:Hrun.
  destruct r as [text|e]; [|exfalso; vm_compute in Hrun; discriminate].
  destruct (completeStepV2_completed_preview sessionOneStep "T" 1%float "found X" sm' text Hrun)
    as (dp & chain' & -> & Hchain' & Hpreview & _).
  exists dp. split; [done|].
  rewrite Hpreview. vm_compute in Hrun. injection Hrun as <- _.
  vm_compute in Hchain'. injection Hchain' as <-. vm_compute. reflexivity.
Defined.

(** ** C10: what a successful start changes *)

(** C10, as stated, fails: in chain T, reached by two inserts behind step 1,
    the steps y and x are both Todo and both numbered 1.1. Start of 1.1
    succeeds; afterwards x, a Todo step with that number, is still Todo, and
    the step y, another step, is InProgress. *)
Lemma startStepV2_other_step_counterexample :
  reachable sessionInsertedTwice ∧
  ((fun s => (Step.Number s, Step.Name s, Step.Status s)) <$>
     stepsOf sessionInsertedTwice "T") =
  [(1%float, "a", StepStatusInProgress); (1.1%float, "y", StepStatusTodo);
   (1.1%float, "x", StepStatusTodo); (2%float, "b", StepStatusTodo)] ∧
  ∃ sm' text,
    startStepV2 sessionInsertedTwice "T" 1.1%float = (sm', NewToolResultText text) ∧
    ((fun s => (Step.Number s, Step.Name s, Step.Status s)) <$> stepsOf sm' "T") =
    [(1%float, "a", StepStatusInProgress); (1.1%float, "y", StepStatusInProgress);
     (1.1%float, "x", StepStatusTodo); (2%float, "b", StepStatusTodo)].
Proof.
  split; [|split].
  - apply sessionAfter_reachable. vm_compute. eauto.
  - vm_compute. reflexivity.
  - eexists _, _. split; vm_compute; reflexivity.
Qed.

(** C10, amended. In an existing chain, let the step at index [i] be the first one
    numbered [stepNumber], with status Todo. Then [startStepV2] succeeds, and
    in the session it returns: the legacy store and the chains of the other
    task ids are unchanged; the chain keeps its task id, description, status
    and number of steps; its [CurrentStep] is [stepNumber]; the step at [i] has
    the same number, name, input and summary and status InProgress; every
    other step is unchanged - so a step that was InProgress still is, next to
    the one just started. *)
Theorem startStepV2_frame sm taskID stepNumber (chain : TaskChainV2.t) i (s : Step.t) :
  taskID ≠ "" → TaskChainsV2 sm !! taskID = Some chain →
  TaskChainV2.Steps chain !! i = Some s → hasNumber stepNumber s →
  (∀ j y, TaskChainV2.Steps chain !! j = Some y → j < i → ¬ hasNumber stepNumber y) →
  Step.Status s = StepStatusTodo →
  ∃ sm' text chain',
    startStepV2 sm taskID stepNumber = (sm', NewToolResultText text) ∧
    TaskChains sm' = TaskChains sm ∧
    (∀ other, other ≠ taskID → TaskChainsV2 sm' !! other = TaskChainsV2 sm !! other) ∧
    TaskChainsV2 sm' !! taskID = Some chain' ∧
    TaskChainV2.TaskID chain' = TaskChainV2.TaskID chain ∧
    TaskChainV2.Description chain' = TaskChainV2.Description chain ∧
    TaskChainV2.Status chain' = TaskChainV2.Status chain ∧
    TaskChainV2.CurrentStep chain' = stepNumber ∧
    length (TaskChainV2.Steps chain') = length (TaskChainV2.Steps chain) ∧
    TaskChainV2.Steps chain' !! i =
      Some (Step.mk (Step.Number s) (Step.Name s) (Step.Input s) StepStatusInProgress
              (Step.Summary s)) ∧
    (∀ j, j ≠ i → TaskChainV2.Steps chain' !! j = TaskChainV2.Steps chain !! j) ∧
    (∀ j y, j ≠ i → TaskChainV2.Steps chain !! j = Some y →
            Step.Status y = StepStatusInProgress →
            ∃ y', TaskChainV2.Steps chain' !! j = Some y' ∧
                  Step.Status y' = StepStatusInProgress).
Proof.
  intros Hid Hchain Hi Hnum Hfirst Htodo.
  assert (findStep stepNumber (TaskChainV2.Steps chain) = Some (i, s)) as Hfind.
  { by apply findStep_Some. }
  eexists _, _, _. split; [by eapply startStepV2_ok|].
  cbn [TaskChainsV2 with_TaskChainsV2 TaskChains]. split; [done|].
  split; [intros other Hother; by rewrite lookup_insert_ne|].
  split; [apply lookup_insert_eq|].
  cbn. do 4 (split; [done|]). split; [apply length_insert|].
  split.
  { rewrite list_lookup_insert_eq; [done|]. by eapply lookup_lt_Some. }
  split.
  { intros j Hj. by rewrite list_lookup_insert_ne. }
  intros j y Hj Hy Hip. exists y. split; [|done].
  by rewrite list_lookup_insert_ne.
Qed.

(** Starting step 2 of a fresh two-step chain, whose step 1 is in progress:
    afterwards both steps are InProgress. *)
Lemma startStepV2_frame_witness :
  ∃ sm' text chain',
    startStepV2 (sessionAfter [OpStep "T" "d" [entry "a"; entry "b"]]) "T" 2%float
    = (sm', NewToolResultText text) ∧
    TaskChainsV2 sm' !! "T" = Some chain' ∧
    TaskChainV2.CurrentStep chain' = 2%float ∧
    (Step.Status <$> TaskChainV2.Steps chain') = [StepStatusInProgress; StepStatusInProgress].
Proof.
  pose (sm := sessionAfter [OpStep "T" "d" [entry "a"; entry "b"]]).
  pose (chain := plannedChain "T" "d" [entry "a"; entry "b"]).
  pose (s := planStep 2%float (entry "b")).
  destruct (startStepV2_frame sm "T" 2%float chain 1 s)
    as (sm' & text & chain' & Hrun & _ & _ & Hchain' & _ & _ & _ & Hcur & Hlen & Hi & Hother & _).
  - discriminate.
  - vm_compute. reflexivity.
  - reflexivity.
  - reflexivity.
  - intros j y Hy Hj. assert (j = 0) as -> by lia.
    injection Hy as <-. vm_compute. discriminate.
  - reflexivity.
  - exists sm', text, chain'. split; [exact Hrun|]. split; [exact Hchain'|].
    split; [exact Hcur|].
    pose proof (Hother 0 ltac:(lia)) as H0.
    destruct (TaskChainV2.Steps chain') as [|s0 [|s1 [|s2 rest]]]; try discriminate.
    injection Hi as ->. injection H0 as ->. reflexivity.
Defined.

(** * Further properties of the handlers *)

(** ** Deleting the remaining steps *)

Lemma filter_kept_not_todo (steps : list Step.t) :
  filter keptByDeleteRemaining steps = filter (fun s => ¬ isTodo s) steps.
Proof.
  apply list_filter_iff. intros s. unfold keptByDeleteRemaining, isTodo.
  destruct (Step.Status s); split; intros Hs; try done; auto.
  by destruct Hs.
Qed.

Lemma length_filter_complement {A} (P : A → Prop) `{!∀ x, Decision (P x)} (l : list A) :
  length (filter (fun x => ¬ P x) l) + length (filter P l) = length l.
Proof.
  pose proof (Permutation_length (filter_app_complement P l)) as Hlen.
  rewrite length_app in Hlen. lia.
Qed.

Lemma deleteStepsV2_remaining_eq sm taskID stepToDelete chain :
  taskID ≠ "" → TaskChainsV2 sm !! taskID = Some chain →
  deleteStepsV2 sm taskID stepToDelete "remaining" =
  (with_TaskChainsV2
     (<[taskID := TaskChainV2.with_NewSteps
                    (filter (fun s => ¬ isTodo s) (TaskChainV2.Steps chain)) chain]>
        (TaskChainsV2 sm)) sm,
   NewToolResultText
     (TextDeletedRemaining (length (filter isTodo (TaskChainV2.Steps chain)))
        (length (filter (fun s => ¬ isTodo s) (TaskChainV2.Steps chain))))).
Proof.
  intros Hid Hchain. unfold deleteStepsV2.
  rewrite decide_False by done. rewrite Hchain. rewrite decide_True by done.
  rewrite filter_kept_not_todo. do 3 f_equal.
  pose proof (length_filter_complement isTodo (TaskChainV2.Steps chain)). lia.
Qed.

(** X1. With scope "remaining", delete on an existing chain always succeeds,
    whatever step number comes with it: the chain keeps exactly its steps that
    are not Todo, in their order, and the answer counts the Todo steps as
    deleted and the others as kept. *)
Theorem deleteStepsV2_remaining sm taskID stepToDelete (chain : TaskChainV2.t) :
  taskID ≠ "" → TaskChainsV2 sm !! taskID = Some chain →
  ∃ sm' chain',
    deleteStepsV2 sm taskID stepToDelete "remaining" =
      (sm', NewToolResultText
              (TextDeletedRemaining (length (filter isTodo (TaskChainV2.Steps chain)))
                 (length (TaskChainV2.Steps chain')))) ∧
    TaskChainsV2 sm' !! taskID = Some chain' ∧
    TaskChainV2.Steps chain' = filter (fun s => ¬ isTodo s) (TaskChainV2.Steps chain) ∧
    length (TaskChainV2.Steps chain') + length (filter isTodo (TaskChainV2.Steps chain))
    = length (TaskChainV2.Steps chain) ∧
    TaskChainV2.CurrentStep chain' = TaskChainV2.CurrentStep chain.
Proof.
  intros Hid Hchain.
  rewrite (deleteStepsV2_remaining_eq sm taskID stepToDelete chain) by done.
  eexists _, (TaskChainV2.with_NewSteps
                (filter (fun s => ¬ isTodo s) (TaskChainV2.Steps chain)) chain).
  split; [done|].
  cbn [TaskChainsV2 with_TaskChainsV2]. split; [apply lookup_insert_eq|].
  cbn [TaskChainV2.Steps TaskChainV2.with_NewSteps]. split; [done|]. split; [|done].
  apply length_filter_complement.
Qed.

(** The end of the example of the spec: with step 1 Complete and the steps
    1.1, 2, 3 Todo, the three Todo steps are deleted and step 1 is kept. *)
Lemma deleteStepsV2_remaining_witness :
  ∃ sm',
    deleteStepsV2
      (sessionAfter [OpStep "T" "d" [entry "search"; entry "analyze"; entry "write"];
                     OpComplete "T" 1%float "found X";
                     OpInsert "T" 1%float [entry "read file"]])
      "T" 0%float "remaining"
    = (sm', NewToolResultText (TextDeletedRemaining 3 1)) ∧
    (Step.Name <$> stepsOf sm' "T") = ["search"].
Proof.
  pose (sm := sessionAfter [OpStep "T" "d" [entry "search"; entry "analyze"; entry "write"];
                            OpComplete "T" 1%float "found X";
                            OpInsert "T" 1%float [entry "read file"]]).
  destruct (TaskChainsV2 sm !! "T") as [chain|] eqn:Hchain;
    [|exfalso; vm_compute in Hchain; discriminate].
  destruct (deleteStepsV2_remaining sm "T" 0%float chain ltac:(discriminate) Hchain)
    as (sm' & chain' & Hrun & Hchain' & Hsteps & _).
  exists sm'. fold sm. rewrite Hrun.
  unfold stepsOf. rewrite Hchain'. cbn [fmap option_fmap option_map default from_option id].
  rewrite Hsteps. vm_compute in Hchain. injection Hchain as <-.
  split; vm_compute; reflexivity.
Defined.

(** X2. Deleting the remaining steps a second time deletes nothing and returns the
    session of the first time. *)
Theorem deleteStepsV2_remaining_twice sm taskID stepToDelete stepToDelete'
    (chain : TaskChainV2.t) :
  taskID ≠ "" → TaskChainsV2 sm !! taskID = Some chain →
  ∃ sm' text kept,
    deleteStepsV2 sm taskID stepToDelete "remaining" = (sm', NewToolResultText text) ∧
    deleteStepsV2 sm' taskID stepToDelete' "remaining" =
      (sm', NewToolResultText (TextDeletedRemaining 0 kept)) ∧
    kept = length (stepsOf sm' taskID).
Proof.
  intros Hid Hchain. eexists _, _, _.
  split; [by apply (deleteStepsV2_remaining_eq sm taskID stepToDelete chain)|].
  rewrite stepsOf_insert. cbn [TaskChainV2.Steps TaskChainV2.with_NewSteps].
  split; [|done].
  erewrite (deleteStepsV2_remaining_eq _ taskID stepToDelete');
    [|done|cbn [TaskChainsV2 with_TaskChainsV2]; apply lookup_insert_eq].
  cbn [TaskChainV2.Steps TaskChainV2.with_NewSteps].
  set (kept := filter (fun s => ¬ isTodo s) (TaskChainV2.Steps chain)).
  assert (filter (fun s => ¬ isTodo s) kept = kept) as Hkept.
  { unfold kept. rewrite list_filter_filter. apply list_filter_iff. intros x. tauto. }
  assert (filter isTodo kept = []) as Htodo.
  { apply length_zero_iff_nil.
    pose proof (length_filter_complement isTodo kept) as Hlen.
    rewrite Hkept in Hlen. lia. }
  rewrite Hkept, Htodo. f_equal. apply session_eq; [done|].
  cbn [TaskChainsV2 with_TaskChainsV2]. by rewrite insert_insert_eq.
Qed.

Lemma deleteStepsV2_remaining_twice_witness :
  ∃ sm' text,
    deleteStepsV2 sessionInserted "T" 0%float "remaining" = (sm', NewToolResultText text) ∧
    deleteStepsV2 sm' "T" 0%float "remaining" =
      (sm', NewToolResultText (TextDeletedRemaining 0 1)).
Proof.
  destruct (TaskChainsV2 sessionInserted !! "T") as [chain|] eqn:Hchain;
    [|exfalso; vm_compute in Hchain; discriminate].
  destruct (deleteStepsV2_remaining_twice sessionInserted "T" 0%float 0%float chain
              ltac:(discriminate) Hchain) as (sm' & text & kept & Hrun1 & Hrun2 & Hkept).
  exists sm', text. split; [exact Hrun1|]. rewrite Hrun2. do 3 f_equal.
  rewrite Hkept. pose proof Hrun1 as Hval. vm_compute in Hval.
  injection Hval as <- _. vm_compute. reflexivity.
Defined.

(** ** A task id without a chain *)

(** X3. For a task id that has no chain, start, complete (with a summary), insert
    and update (with a non-empty plan) and delete fail with ChainNotFound and
    return the session unchanged; finish answers with the finished text all
    the same. *)
Theorem unknown_task_id sm taskID :
  taskID ≠ "" → TaskChainsV2 sm !! taskID = None →
  (∀ stepNumber,
     startStepV2 sm taskID stepNumber = (sm, NewToolResultError (ErrChainNotFound taskID))) ∧
  (∀ stepNumber summary, summary ≠ "" →
     completeStepV2 sm taskID stepNumber summary =
     (sm, NewToolResultError (ErrChainNotFound taskID))) ∧
  (∀ after insertPlan, insertPlan ≠ [] →
     insertStepsV2 sm taskID after insertPlan =
     (sm, NewToolResultError (ErrChainNotFound taskID))) ∧
  (∀ from updatePlan, updatePlan ≠ [] →
     updateStepsV2 sm taskID from updatePlan =
     Some (sm, NewToolResultError (ErrChainNotFound taskID))) ∧
  (∀ stepToDelete deleteScope,
     deleteStepsV2 sm taskID stepToDelete deleteScope =
     (sm, NewToolResultError (ErrChainNotFound taskID))) ∧
  (finishChain sm taskID).2 = NewToolResultText (TextChainFinished taskID).
Proof.
  intros Hid Hnone. repeat split.
  - intros n. unfold startStepV2. rewrite decide_False by done. by rewrite Hnone.
  - intros n summary Hsum. unfold completeStepV2.
    rewrite decide_False by done. rewrite decide_False by done. by rewrite Hnone.
  - intros after plan Hplan. unfold insertStepsV2.
    rewrite decide_False by done. rewrite decide_False by (by destruct plan).
    by rewrite Hnone.
  - intros from plan Hplan. unfold updateStepsV2.
    rewrite decide_False by done. rewrite decide_False by (by destruct plan).
    by rewrite Hnone.
  - intros n scope. unfold deleteStepsV2. rewrite decide_False by done. by rewrite Hnone.
  - unfold finishChain. rewrite decide_False by done.
    by destruct (TaskChains sm !! taskID).
Qed.

Lemma unknown_task_id_witness :
  startStepV2 sessionOneStep "U" 1%float =
    (sessionOneStep, NewToolResultError (ErrChainNotFound "U")) ∧
  (finishChain sessionOneStep "U").2 = NewToolResultText (TextChainFinished "U").
Proof.
  destruct (unknown_task_id sessionOneStep "U") as (Hstart & _ & _ & _ & _ & Hfinish).
  - discriminate.
  - vm_compute. reflexivity.
  - split; [apply Hstart | exact Hfinish].
Defined.

(** ** Summaries *)

Lemma planStep_summary number step : summaryMatchesStatus (planStep number step).
Proof. split; [discriminate | by intros H]. Qed.

Lemma imap_planStep_summary (f : nat → float) (plan : list PlanEntry) :
  Forall summaryMatchesStatus (imap (fun i step => planStep (f i) step) plan).
Proof.
  apply Forall_lookup. intros i s. rewrite list_lookup_imap.
  destruct (plan !! i); [|done]. intros [= <-]. apply planStep_summary.
Qed.

Lemma plannedSteps_summary plan : Forall summaryMatchesStatus (plannedSteps plan).
Proof.
  apply Forall_lookup. intros i s. unfold plannedSteps. rewrite list_lookup_imap.
  destruct (plan !! i); [|done]. intros [= <-].
  split; [by case_decide | by intros H].
Qed.

Lemma Forall_filter_steps (P Q : Step.t → Prop) `{!∀ x, Decision (Q x)} steps :
  Forall P steps → Forall P (filter Q steps).
Proof.
  rewrite !Forall_forall. intros Hall x Hx. apply Hall.
  eapply elem_of_sublist; [exact Hx|]. apply (sublist_filter Q).
Qed.

(** Every handler keeps the chains in which each step has a summary exactly
    when it is Complete. *)
Lemma summariesMatch_with_Steps steps c :
  summariesMatch c → Forall summaryMatchesStatus steps →
  summariesMatch (TaskChainV2.with_Steps steps c).
Proof.
  intros [Hsteps Hspare] Hnew. split; [done|].
  cbn [TaskChainV2.Spare TaskChainV2.with_Steps].
  destruct steps; [|done].
  unfold TaskChainV2.firstCell. destruct (TaskChainV2.Steps c) as [|s rest]; [done|].
  cbn. by apply Forall_cons_1 in Hsteps as [? _].
Qed.

Lemma wrapTaskChain_summaries sm op sm' r :
  wrapTaskChain sm op = Some (sm', r) →
  (∀ t c, TaskChainsV2 sm !! t = Some c → summariesMatch c) →
  ∀ t c, TaskChainsV2 sm' !! t = Some c → summariesMatch c.
Proof.
  intros Hrun Hsm.
  assert (∀ taskID chain',
            summariesMatch chain' →
            ∀ t c, (<[taskID := chain']> (TaskChainsV2 sm)) !! t = Some c →
                   summariesMatch c) as Hins.
  { intros taskID chain' Hc t c. destruct (decide (taskID = t)) as [->|Hne].
    - rewrite lookup_insert_eq. by intros [= <-].
    - rewrite lookup_insert_ne by done. apply Hsm. }
  destruct op; simpl in Hrun.
  - destruct (decide (taskID = "")) as [->|Hid].
    { unfold initTaskChainV2 in Hrun. rewrite decide_True in Hrun by done.
      by simplify_eq. }
    destruct plan as [|p ps].
    { unfold initTaskChainV2 in Hrun. rewrite decide_False in Hrun by done.
      rewrite decide_True in Hrun by done. by simplify_eq. }
    rewrite initTaskChainV2_ok in Hrun by done. simplify_eq.
    apply Hins. split; [apply plannedSteps_summary | done].
  - unfold startStepV2 in Hrun. handler_cases; try done.
    pose proof (Hsm _ _ ltac:(eassumption)) as Hall.
    apply Hins.
    match goal with
    | |- summariesMatch (TaskChainV2.with_CurrentStep _ ?c) =>
      assert (summariesMatch c) as Hc; [|by destruct Hc]
    end.
    apply summariesMatch_with_Steps; [done|]. destruct Hall as [Hall _].
    match goal with H : findStep _ _ = Some _ |- _ => apply findStep_Some in H as (Hi & _) end.
    apply Forall_insert; [done|].
    eapply Forall_lookup_1 in Hall; [|exact Hi].
    match goal with H : Step.Status _ = StepStatusTodo |- _ => rename H into Hst end.
    destruct Hall as [H1 H2]. split; [discriminate|]. cbn. intros Hs.
    apply H2 in Hs. congruence.
  - unfold completeStepV2 in Hrun. handler_cases; try done.
    pose proof (Hsm _ _ ltac:(eassumption)) as Hall.
    apply Hins, summariesMatch_with_Steps; [done|]. destruct Hall as [Hall _].
    apply Forall_insert; [done|]. split; [done|]. by cbn.
  - unfold insertStepsV2 in Hrun. handler_cases; try done.
    pose proof (Hsm _ _ ltac:(eassumption)) as Hall.
    apply Hins, summariesMatch_with_Steps; [done|]. destruct Hall as [Hall _].
    rewrite !Forall_app. split; [by apply Forall_take|]. split; [|by apply Forall_drop].
    apply (imap_planStep_summary (fun i => (after + float64_of_nat (i + 1) / 10)%float)).
  - unfold updateStepsV2 in Hrun. handler_cases; try done.
    + pose proof (Hsm _ _ ltac:(eassumption)) as Hall.
      apply Hins, summariesMatch_with_Steps; [done|]. destruct Hall as [_ Hall].
      rewrite Forall_app. split.
      * destruct (TaskChainV2.Spare _) as [cell|]; [|done].
        simplify_eq/=. by apply Forall_singleton.
      * apply (imap_planStep_summary (fun i => (from + float64_of_nat i)%float)).
    + pose proof (Hsm _ _ ltac:(eassumption)) as Hall.
      apply Hins, summariesMatch_with_Steps; [done|]. destruct Hall as [Hall _].
      match goal with H : TaskChainV2.Steps _ = _ :: _ |- _ => rewrite H in Hall end.
      rewrite Forall_app. split; [by apply Forall_take|].
      apply (imap_planStep_summary (fun i => (from + float64_of_nat i)%float)).
  - unfold deleteStepsV2 in Hrun. handler_cases; try done;
      pose proof (Hsm _ _ ltac:(eassumption)) as Hall; apply Hins.
    + split; [|done]. destruct Hall as [Hall _]. by apply Forall_filter_steps.
    + apply summariesMatch_with_Steps; [done|]. destruct Hall as [Hall _].
      by apply Forall_delete.
  - injection Hrun as Hrun.
    replace sm' with (finishChain sm taskID).1 by by rewrite Hrun.
    rewrite finishChain_TaskChainsV2. apply Hsm.
Qed.

(** X4. In every session the operations can produce, a step has a summary exactly
    when it is Complete: no Todo or InProgress step carries a summary and no
    Complete step lacks one. *)
Theorem reachable_summaries sm taskID (chain : TaskChainV2.t) (s : Step.t) :
  reachable sm → TaskChainsV2 sm !! taskID = Some chain →
  s ∈ TaskChainV2.Steps chain →
  (Step.Status s = StepStatusComplete ↔ Step.Summary s ≠ "").
Proof.
  intros Hreach. revert taskID chain s.
  assert (∀ t c, TaskChainsV2 sm !! t = Some c → summariesMatch c) as Hall.
  { induction Hreach as [|sm op sm' r _ IH Hrun].
    - intros t c. cbn. by rewrite lookup_empty.
    - by eapply wrapTaskChain_summaries. }
  intros t c s Hc Hs. destruct (Hall t c Hc) as [Hsteps _].
  eapply Forall_forall in Hsteps; [exact Hsteps|done].
Qed.

Lemma reachable_summaries_witness :
  Step.Status (Step.mk 1%float "a" "" StepStatusComplete "done") = StepStatusComplete ↔
  Step.Summary (Step.mk 1%float "a" "" StepStatusComplete "done") ≠ "".
Proof.
  apply (reachable_summaries sessionStepDone "T"
           (default (plannedChain "" "" []) (TaskChainsV2 sessionStepDone !! "T"))).
  - apply sessionAfter_reachable. vm_compute. eauto.
  - vm_compute. reflexivity.
  - vm_compute. apply list_elem_of_here.
Defined.

(** ** The decision point after complete *)

Lemma filter_insert_neither (P : Step.t → Prop) `{!∀ x, Decision (P x)}
    (steps : list Step.t) i s s' :
  steps !! i = Some s → ¬ P s → ¬ P s' →
  filter P (<[i := s']> steps) = filter P steps.
Proof.
  intros Hi Hs Hs'. pose proof (lookup_lt_Some _ _ _ Hi) as Hlt.
  rewrite insert_take_drop by done.
  rewrite <- (take_drop_middle steps i s Hi) at 3.
  rewrite !filter_app, !filter_cons. by rewrite !decide_False by done.
Qed.

Lemma drop_insert_before (steps : list Step.t) i s' :
  drop (S i) (<[i := s']> steps) = drop (S i) steps.
Proof. apply drop_insert_lt. lia. Qed.

(** X5. After a successful complete of the step at index [i], the briefing names
    as next step the first Todo step stored behind index [i] and then lists
    all Todo steps of the chain; when no Todo step is stored behind index [i]
    it names no next step and lists no remaining step, whether or not Todo
    steps are stored before index [i]. *)
Theorem completeStepV2_next_step sm taskID stepNumber summary
    (chain : TaskChainV2.t) i (s : Step.t) :
  taskID ≠ "" → summary ≠ "" → TaskChainsV2 sm !! taskID = Some chain →
  TaskChainV2.Steps chain !! i = Some s → hasNumber stepNumber s →
  (∀ j y, TaskChainV2.Steps chain !! j = Some y → j < i → ¬ hasNumber stepNumber y) →
  Step.Status s = StepStatusInProgress →
  ∃ sm' dp,
    completeStepV2 sm taskID stepNumber summary =
      (sm', NewToolResultText (TextDecisionPoint dp)) ∧
    dpCompleted dp =
      Step.mk (Step.Number s) (Step.Name s) (Step.Input s) StepStatusComplete summary ∧
    (Forall (fun y => ¬ isTodo y) (drop (S i) (TaskChainV2.Steps chain)) →
     dpNext dp = None ∧ dpRemainingPreview dp = None) ∧
    (∀ j y, i < j → TaskChainV2.Steps chain !! j = Some y → isTodo y →
       (∀ k z, i < k → k < j → TaskChainV2.Steps chain !! k = Some z → ¬ isTodo z) →
       dpNext dp = Some y ∧
       dpRemainingPreview dp = Some (filter isTodo (TaskChainV2.Steps chain))).
Proof.
  intros Hid Hsum Hchain Hi Hnum Hfirst Hst.
  assert (findStep stepNumber (TaskChainV2.Steps chain) = Some (i, s)) as Hfind.
  { by apply findStep_Some. }
  rewrite (completeStepV2_ok sm taskID stepNumber summary chain i s) by done.
  cbn zeta. unfold renderDecisionPoint.
  cbn [TaskChainV2.Steps TaskChainV2.with_Steps TaskChainV2.TaskID].
  rewrite drop_insert_before.
  eexists _, _. split; [reflexivity|]. cbn [dpCompleted dpNext dpRemainingPreview].
  split; [|split].
  - rewrite list_lookup_total_insert_eq by by eapply lookup_lt_Some. done.
  - intros Hnone. apply (list_find_None isTodo) in Hnone. by rewrite Hnone.
  - intros j y Hij Hj Hy Hbetween.
    assert (list_find isTodo (drop (S i) (TaskChainV2.Steps chain))
            = Some (j - S i, y)) as Hnext.
    { apply list_find_Some. split; [|split; [done|]].
      - rewrite lookup_drop. rewrite <- Hj. f_equal. lia.
      - intros k z Hz Hk. rewrite lookup_drop in Hz.
        eapply Hbetween; [| |exact Hz]; lia. }
    rewrite Hnext. cbn. split; [done|]. f_equal.
    apply (filter_insert_neither isTodo _ i s); [done| |]; unfold isTodo.
    + by rewrite Hst.
    + done.
Qed.

(** Step 2 of a three-step chain is started and completed while step 1 is
    still in progress and step 3 Todo: the next step is step 3. *)
Lemma completeStepV2_next_step_witness :
  ∃ sm' dp,
    completeStepV2
      (sessionAfter [OpStep "T" "d" [entry "a"; entry "b"; entry "c"]; OpStart "T" 2%float])
      "T" 2%float "done" = (sm', NewToolResultText (TextDecisionPoint dp)) ∧
    (Step.Name <$> dpNext dp) = Some "c" ∧
    (fmap (M := list) Step.Name <$> dpRemainingPreview dp) = Some ["c"].
Proof.
  pose (sm := sessionAfter [OpStep "T" "d" [entry "a"; entry "b"; entry "c"];
                            OpStart "T" 2%float]).
  pose (chain := default (plannedChain "" "" []) (TaskChainsV2 sm !! "T")).
  pose (s := Step.with_Status StepStatusInProgress (planStep 2%float (entry "b"))).
  destruct (completeStepV2_next_step sm "T" 2%float "done" chain 1 s)
    as (sm' & dp & Hrun & _ & _ & Hnext).
  - discriminate.
  - discriminate.
  - vm_compute. reflexivity.
  - reflexivity.
  - reflexivity.
  - intros j y Hy Hj. assert (j = 0) as -> by lia.
    vm_compute in Hy. injection Hy as <-. vm_compute. discriminate.
  - reflexivity.
  - exists sm', dp. split; [exact Hrun|].
    destruct (Hnext 2 (planStep 3%float (entry "c"))) as [-> ->].
    + lia.
    + reflexivity.
    + reflexivity.
    + intros k z Hk1 Hk2. lia.
    + split; vm_compute; reflexivity.
Defined.

(** ** Update *)

Lemma updateStepsV2_ok sm taskID from updatePlan chain :
  taskID ≠ "" → updatePlan ≠ [] → TaskChainsV2 sm !! taskID = Some chain →
  TaskChainV2.Steps chain ≠ [] →
  updateStepsV2 sm taskID from updatePlan =
  let startIdx := default 0 (fst <$> findStep from (TaskChainV2.Steps chain)) in
  let newSteps := imap (fun i step => planStep (from + float64_of_nat i)%float step) updatePlan in
  Some (with_TaskChainsV2
          (<[taskID := TaskChainV2.with_Steps
                         (take (startIdx + 1) (TaskChainV2.Steps chain) ++ newSteps) chain]>
             (TaskChainsV2 sm)) sm,
        NewToolResultText (TextUpdated from (length updatePlan) newSteps)).
Proof.
  intros Hid Hplan Hchain Hsteps. unfold updateStepsV2.
  rewrite decide_False by done. rewrite decide_False by (by destruct updatePlan).
  rewrite Hchain. cbn zeta.
  by destruct (TaskChainV2.Steps chain).
Qed.

(** Update on a chain without steps: the first cell of the array comes back,
    and there is no result when the array has no cell. *)
Lemma updateStepsV2_no_steps sm taskID from updatePlan chain :
  taskID ≠ "" → updatePlan ≠ [] → TaskChainsV2 sm !! taskID = Some chain →
  TaskChainV2.Steps chain = [] →
  updateStepsV2 sm taskID from updatePlan =
  let newSteps := imap (fun i step => planStep (from + float64_of_nat i)%float step) updatePlan in
  match TaskChainV2.Spare chain with
  | Some cell =>
    Some (with_TaskChainsV2
            (<[taskID := TaskChainV2.with_Steps (cell :: newSteps) chain]>
               (TaskChainsV2 sm)) sm,
          NewToolResultText (TextUpdated from (length updatePlan) newSteps))
  | None => None
  end.
Proof.
  intros Hid Hplan Hchain Hsteps. unfold updateStepsV2.
  rewrite decide_False by done. rewrite decide_False by (by destruct updatePlan).
  rewrite Hchain. cbn zeta. rewrite Hsteps.
  by destruct (TaskChainV2.Spare chain).
Qed.

(** X6. Update on an existing chain with a non-empty plan. If a step is numbered
    [from], the first such step and all steps stored before it are kept, every
    step stored behind it is dropped whatever its status, and the new steps
    follow, Todo and numbered [from], [from + 1], ... If no step is numbered
    [from], what the first cell of the array of the steps holds is kept in
    front of the new steps: the first step of the chain, or, in a chain
    without steps, the step that cell still holds; where the array has no
    cell, update has no result (the Go code panics). *)
Theorem updateStepsV2_replaces_tail sm taskID from (updatePlan : list PlanEntry)
    (chain : TaskChainV2.t) :
  taskID ≠ "" → updatePlan ≠ [] → TaskChainsV2 sm !! taskID = Some chain →
  (∀ i s,
     TaskChainV2.Steps chain !! i = Some s → hasNumber from s →
     (∀ j y, TaskChainV2.Steps chain !! j = Some y → j < i → ¬ hasNumber from y) →
     ∃ sm' text chain',
       updateStepsV2 sm taskID from updatePlan = Some (sm', NewToolResultText text) ∧
       TaskChainsV2 sm' !! taskID = Some chain' ∧
       TaskChainV2.Steps chain' =
         take (S i) (TaskChainV2.Steps chain) ++
         imap (fun k step => planStep (from + float64_of_nat k)%float step) updatePlan) ∧
  (Forall (fun s => ¬ hasNumber from s) (TaskChainV2.Steps chain) →
   match TaskChainV2.firstCell chain with
   | Some cell =>
     ∃ sm' text chain',
       updateStepsV2 sm taskID from updatePlan = Some (sm', NewToolResultText text) ∧
       TaskChainsV2 sm' !! taskID = Some chain' ∧
       TaskChainV2.Steps chain' =
         cell :: imap (fun k step => planStep (from + float64_of_nat k)%float step) updatePlan
   | None => updateStepsV2 sm taskID from updatePlan = None
   end).
Proof.
  intros Hid Hplan Hchain. split.
  - intros i s Hi Hnum Hfirst.
    assert (findStep from (TaskChainV2.Steps chain) = Some (i, s)) as Hfind.
    { by apply findStep_Some. }
    rewrite (updateStepsV2_ok sm taskID from updatePlan chain);
      [|done..|by intros Hnil; rewrite Hnil in Hi].
    cbn zeta. rewrite Hfind. cbn [fmap option_fmap option_map fst default from_option id].
    eexists _, _, _. split; [reflexivity|].
    cbn [TaskChainsV2 with_TaskChainsV2]. split; [apply lookup_insert_eq|].
    cbn [TaskChainV2.Steps TaskChainV2.with_Steps]. by rewrite Nat.add_1_r.
  - intros Hnone. apply findStep_None in Hnone.
    unfold TaskChainV2.firstCell.
    destruct (TaskChainV2.Steps chain) as [|first rest] eqn:Hsteps.
    + rewrite (updateStepsV2_no_steps sm taskID from updatePlan chain) by done.
      cbn zeta. destruct (TaskChainV2.Spare chain) as [cell|]; [|done].
      eexists _, _, _. split; [reflexivity|].
      cbn [TaskChainsV2 with_TaskChainsV2]. split; [apply lookup_insert_eq|]. done.
    + rewrite (updateStepsV2_ok sm taskID from updatePlan chain);
        [|done..|by rewrite Hsteps].
      cbn zeta. rewrite Hsteps, Hnone.
      cbn [fmap option_fmap option_map fst default from_option id].
      eexists _, _, _. split; [reflexivity|].
      cbn [TaskChainsV2 with_TaskChainsV2]. split; [apply lookup_insert_eq|]. done.
Qed.

(** In a chain with the steps 1 (Complete), 2 (InProgress) and 3, an update
    from 1 drops the steps 2 and 3; an update from 7, which no step has, does
    the same. In a chain whose only step was deleted, an update brings that
    step back in front of the new one; after a delete of the remaining steps
    of that chain, update has no result. *)
Lemma updateStepsV2_replaces_tail_witness :
  (∃ sm' text,
     updateStepsV2 sessionTwoOfThree "T" 1%float [entry "x"] = Some (sm', NewToolResultText text) ∧
     ((fun s => (Step.Name s, Step.Status s)) <$> stepsOf sm' "T") =
     [("a", StepStatusComplete); ("x", StepStatusTodo)]) ∧
  (∃ sm' text,
     updateStepsV2 sessionTwoOfThree "T" 7%float [entry "x"] = Some (sm', NewToolResultText text) ∧
     ((fun s => (Step.Name s, Step.Status s)) <$> stepsOf sm' "T") =
     [("a", StepStatusComplete); ("x", StepStatusTodo)]) ∧
  (stepsOf sessionEmptied "T" = [] ∧
   ∃ sm' text,
     updateStepsV2 sessionEmptied "T" 5%float [entry "x"] = Some (sm', NewToolResultText text) ∧
     ((fun s => (Step.Name s, Step.Status s)) <$> stepsOf sm' "T") =
     [("a", StepStatusComplete); ("x", StepStatusTodo)]) ∧
  (stepsOf sessionCleared "T" = [] ∧
   updateStepsV2 sessionCleared "T" 5%float [entry "x"] = None).
Proof.
  pose (chain := default (plannedChain "" "" []) (TaskChainsV2 sessionTwoOfThree !! "T")).
  assert (TaskChainsV2 sessionTwoOfThree !! "T" = Some chain) as Hchain.
  { vm_compute. reflexivity. }
  pose (emptied := default (plannedChain "" "" []) (TaskChainsV2 sessionEmptied !! "T")).
  assert (TaskChainsV2 sessionEmptied !! "T" = Some emptied) as Hemptied.
  { vm_compute. reflexivity. }
  pose (cleared := default (plannedChain "" "" []) (TaskChainsV2 sessionCleared !! "T")).
  assert (TaskChainsV2 sessionCleared !! "T" = Some cleared) as Hcleared.
  { vm_compute. reflexivity. }
  split; [|split; [|split]].
  - destruct (updateStepsV2_replaces_tail sessionTwoOfThree "T" 1%float [entry "x"] chain)
      as [Hfound _]; [discriminate | discriminate | exact Hchain |].
    destruct (Hfound 0 (Step.mk 1%float "a" "" StepStatusComplete "done"))
      as (sm' & text & chain' & Hrun & Hchain' & Hsteps).
    + vm_compute. reflexivity.
    + reflexivity.
    + intros j y _ Hj. lia.
    + exists sm', text. split; [exact Hrun|]. unfold stepsOf. rewrite Hchain'.
      cbn [fmap option_fmap option_map default from_option id]. rewrite Hsteps.
      vm_compute. reflexivity.
  - destruct (updateStepsV2_replaces_tail sessionTwoOfThree "T" 7%float [entry "x"] chain)
      as [_ Hnone]; [discriminate | discriminate | exact Hchain |].
    assert (TaskChainV2.firstCell chain = Some (Step.mk 1%float "a" "" StepStatusComplete "done"))
      as Hcell by (vm_compute; reflexivity).
    rewrite Hcell in Hnone.
    destruct Hnone as (sm' & text & chain' & Hrun & Hchain' & Hsteps).
    + vm_compute. repeat constructor; discriminate.
    + exists sm', text. split; [exact Hrun|]. unfold stepsOf. rewrite Hchain'.
      cbn [fmap option_fmap option_map default from_option id]. rewrite Hsteps.
      vm_compute. reflexivity.
  - split; [vm_compute; reflexivity|].
    destruct (updateStepsV2_replaces_tail sessionEmptied "T" 5%float [entry "x"] emptied)
      as [_ Hnone]; [discriminate | discriminate | exact Hemptied |].
    assert (TaskChainV2.firstCell emptied = Some (Step.mk 1%float "a" "" StepStatusComplete "done"))
      as Hcell by (vm_compute; reflexivity).
    rewrite Hcell in Hnone.
    destruct Hnone as (sm' & text & chain' & Hrun & Hchain' & Hsteps).
    + vm_compute. constructor.
    + exists sm', text. split; [exact Hrun|]. unfold stepsOf. rewrite Hchain'.
      cbn [fmap option_fmap option_map default from_option id]. rewrite Hsteps.
      vm_compute. reflexivity.
  - split; [vm_compute; reflexivity|].
    destruct (updateStepsV2_replaces_tail sessionCleared "T" 5%float [entry "x"] cleared)
      as [_ Hnone]; [discriminate | discriminate | exact Hcleared |].
    assert (TaskChainV2.firstCell cleared = None) as Hcell by (vm_compute; reflexivity).
    rewrite Hcell in Hnone. apply Hnone. vm_compute. constructor.
Defined.

Lemma float_add_zero_eqb x from :
  PrimFloat.eqb x from = true → PrimFloat.eqb x (from + float64_of_nat 0)%float = true.
Proof.
  rewrite !FloatAxioms.eqb_spec, FloatAxioms.add_spec.
  change (Prim2SF (float64_of_nat 0)) with (S754_zero false).
  unfold SF64add.
  destruct (Prim2SF x) as [sx|sx| |sx mx ex], (Prim2SF from) as [sf|sf| |sf mf ef];
    try destruct sf; try destruct sx; simpl; try done.
Qed.

(** X7. A successful update from a number that a step has always leaves two steps
    with equal numbers next to each other: the step it was called from and the
    first new step, which is numbered [from] again. *)
Theorem updateStepsV2_repeats_number sm taskID from (updatePlan : list PlanEntry)
    (chain : TaskChainV2.t) i (s : Step.t) :
  taskID ≠ "" → updatePlan ≠ [] → TaskChainsV2 sm !! taskID = Some chain →
  TaskChainV2.Steps chain !! i = Some s → hasNumber from s →
  (∀ j y, TaskChainV2.Steps chain !! j = Some y → j < i → ¬ hasNumber from y) →
  ∃ sm' text chain' new,
    updateStepsV2 sm taskID from updatePlan = Some (sm', NewToolResultText text) ∧
    TaskChainsV2 sm' !! taskID = Some chain' ∧
    TaskChainV2.Steps chain' !! i = Some s ∧
    TaskChainV2.Steps chain' !! S i = Some new ∧
    Step.Status new = StepStatusTodo ∧
    PrimFloat.eqb (Step.Number s) (Step.Number new) = true ∧
    ¬ distinctNumbers (TaskChainV2.Steps chain').
Proof.
  intros Hid Hplan Hchain Hi Hnum Hfirst.
  assert (findStep from (TaskChainV2.Steps chain) = Some (i, s)) as Hfind.
  { by apply findStep_Some. }
  pose proof (lookup_lt_Some _ _ _ Hi) as Hlt.
  destruct updatePlan as [|p ps]; [done|].
  rewrite (updateStepsV2_ok sm taskID from (p :: ps) chain);
    [|done..|by intros Hnil; rewrite Hnil in Hi].
  cbn zeta. rewrite Hfind. cbn [fmap option_fmap option_map fst default from_option id].
  rewrite Nat.add_1_r, imap_cons.
  set (new := planStep (from + float64_of_nat 0)%float p).
  set (rest := imap _ ps).
  assert (length (take (S i) (TaskChainV2.Steps chain)) = S i) as Htake.
  { rewrite length_take. lia. }
  assert ((take (S i) (TaskChainV2.Steps chain) ++ new :: rest) !! i = Some s) as Hi'.
  { rewrite lookup_app_l by lia. rewrite lookup_take_lt by lia. done. }
  assert ((take (S i) (TaskChainV2.Steps chain) ++ new :: rest) !! S i = Some new) as Hnew.
  { rewrite lookup_app_r by lia. rewrite Htake. by rewrite Nat.sub_diag. }
  assert (PrimFloat.eqb (Step.Number s) (Step.Number new) = true) as Heq.
  { by apply float_add_zero_eqb. }
  eexists _, _, _, new. split; [reflexivity|].
  cbn [TaskChainsV2 with_TaskChainsV2]. split; [apply lookup_insert_eq|].
  cbn [TaskChainV2.Steps TaskChainV2.with_Steps].
  split; [done|]. split; [done|]. split; [done|]. split; [done|].
  intros Hdistinct. unfold distinctNumbers in Hdistinct.
  rewrite <- (take_drop_middle _ i s Hi') in Hdistinct.
  apply StronglySorted_app_1_r, StronglySorted_cons in Hdistinct as [Hall _].
  eapply Forall_lookup_1 in Hall.
  2:{ instantiate (2 := 0). rewrite lookup_drop, Nat.add_0_r. exact Hnew. }
  cbv beta in Hall. rewrite Heq in Hall. done.
Qed.

Lemma updateStepsV2_repeats_number_witness :
  ∃ sm' text,
    updateStepsV2 sessionTwoOfThree "T" 2%float [entry "x"; entry "y"]
    = Some (sm', NewToolResultText text) ∧
    (Step.Number <$> stepsOf sm' "T") = [1%float; 2%float; 2%float; 3%float].
Proof.
  pose (chain := default (plannedChain "" "" []) (TaskChainsV2 sessionTwoOfThree !! "T")).
  destruct (updateStepsV2_repeats_number sessionTwoOfThree "T" 2%float
              [entry "x"; entry "y"] chain 1
              (Step.with_Status StepStatusInProgress (planStep 2%float (entry "b"))))
    as (sm' & text & chain' & new & Hrun & _).
  - discriminate.
  - discriminate.
  - vm_compute. reflexivity.
  - vm_compute. reflexivity.
  - reflexivity.
  - intros j y Hy Hj. assert (j = 0) as -> by lia.
    vm_compute in Hy. injection Hy as <-. vm_compute. discriminate.
  - exists sm', text. split; [exact Hrun|].
    pose proof Hrun as Hval. vm_compute in Hval. injection Hval as <- _.
    vm_compute. reflexivity.
Defined.

(** ** What an operation leaves alone *)

Lemma lookup_with_TaskChainsV2_ne sm taskID chain t :
  t ≠ taskID →
  TaskChainsV2 (with_TaskChainsV2 (<[taskID := chain]> (TaskChainsV2 sm)) sm) !! t
  = TaskChainsV2 sm !! t.
Proof. intros Hne. cbn. by rewrite lookup_insert_ne. Qed.

Ltac chain_fields :=
  repeat match goal with
         | H : TaskChainsV2 (with_TaskChainsV2 _ _) !! _ = _ |- _ =>
             cbn in H; rewrite lookup_insert_eq in H
         end;
  simplify_eq; done.

(** The V2 handlers but initialize and start only replace the steps of the
    chain they find. *)
Lemma wrapTaskChain_chain_fields sm op sm' r c c' :
  wrapTaskChain sm op = Some (sm', r) →
  (∀ taskID description plan, op ≠ OpStep taskID description plan) →
  (∀ taskID stepNumber, op ≠ OpStart taskID stepNumber) →
  TaskChainsV2 sm !! opTaskID op = Some c → TaskChainsV2 sm' !! opTaskID op = Some c' →
  TaskChainV2.TaskID c' = TaskChainV2.TaskID c ∧
  TaskChainV2.Description c' = TaskChainV2.Description c ∧
  TaskChainV2.CurrentStep c' = TaskChainV2.CurrentStep c ∧
  TaskChainV2.Status c' = TaskChainV2.Status c.
Proof.
  intros Hrun Hstep Hstart Hc Hc'. destruct op; simpl in Hrun, Hc, Hc'.
  - by destruct (Hstep taskID description plan).
  - by destruct (Hstart taskID stepNumber).
  - unfold completeStepV2 in Hrun. handler_cases; chain_fields.
  - unfold insertStepsV2 in Hrun. handler_cases; chain_fields.
  - unfold updateStepsV2 in Hrun. handler_cases; chain_fields.
  - unfold deleteStepsV2 in Hrun. handler_cases; chain_fields.
  - injection Hrun as Hrun.
    assert (TaskChainsV2 sm' = TaskChainsV2 sm) as Heq.
    { rewrite <- (finishChain_TaskChainsV2 sm taskID). by rewrite Hrun. }
    rewrite Heq in Hc'. by simplify_eq.
Qed.

Lemma wrapTaskChain_other_chains sm op sm' r t :
  wrapTaskChain sm op = Some (sm', r) → t ≠ opTaskID op →
  TaskChainsV2 sm' !! t = TaskChainsV2 sm !! t.
Proof.
  intros Hrun Hne. destruct op; simpl in Hrun, Hne.
  - destruct (decide (taskID = "")) as [->|Hid].
    { unfold initTaskChainV2 in Hrun. rewrite decide_True in Hrun by done.
      by simplify_eq. }
    destruct plan as [|p ps].
    { unfold initTaskChainV2 in Hrun. rewrite decide_False in Hrun by done.
      rewrite decide_True in Hrun by done. by simplify_eq. }
    rewrite initTaskChainV2_ok in Hrun by done. simplify_eq.
    by apply lookup_with_TaskChainsV2_ne.
  - unfold startStepV2 in Hrun. handler_cases; try done.
    by apply lookup_with_TaskChainsV2_ne.
  - unfold completeStepV2 in Hrun. handler_cases; try done.
    by apply lookup_with_TaskChainsV2_ne.
  - unfold insertStepsV2 in Hrun. handler_cases; try done.
    by apply lookup_with_TaskChainsV2_ne.
  - unfold updateStepsV2 in Hrun. handler_cases; try done;
      by apply lookup_with_TaskChainsV2_ne.
  - unfold deleteStepsV2 in Hrun. handler_cases; try done;
      by apply lookup_with_TaskChainsV2_ne.
  - injection Hrun as Hrun.
    replace sm' with (finishChain sm taskID).1 by by rewrite Hrun.
    by rewrite finishChain_TaskChainsV2.
Qed.

Ltac own_chain :=
  cbn; rewrite ?lookup_insert_eq;
  split;
  [ first [by eauto | by intros [? ?]]
  | intros Hnone Hsome;
    first [congruence | by destruct Hsome as [? Hsome]; congruence] ].

Lemma wrapTaskChain_own_chain sm op sm' r :
  wrapTaskChain sm op = Some (sm', r) →
  (is_Some (TaskChainsV2 sm !! opTaskID op) → is_Some (TaskChainsV2 sm' !! opTaskID op)) ∧
  (TaskChainsV2 sm !! opTaskID op = None → is_Some (TaskChainsV2 sm' !! opTaskID op) →
   ∃ description plan, op = OpStep (opTaskID op) description plan).
Proof.
  intros Hrun. destruct op; simpl in Hrun |- *.
  - split; [|by eauto]. intros Hsome.
    destruct (decide (taskID = "")) as [->|Hid].
    { unfold initTaskChainV2 in Hrun. rewrite decide_True in Hrun by done.
      by simplify_eq. }
    destruct plan as [|p ps].
    { unfold initTaskChainV2 in Hrun. rewrite decide_False in Hrun by done.
      rewrite decide_True in Hrun by done. by simplify_eq. }
    rewrite initTaskChainV2_ok in Hrun by done. simplify_eq.
    cbn. rewrite lookup_insert_eq. eauto.
  - unfold startStepV2 in Hrun. handler_cases; own_chain.
  - unfold completeStepV2 in Hrun. handler_cases; own_chain.
  - unfold insertStepsV2 in Hrun. handler_cases; own_chain.
  - unfold updateStepsV2 in Hrun. handler_cases; own_chain.
  - unfold deleteStepsV2 in Hrun. handler_cases; own_chain.
  - injection Hrun as Hrun.
    assert (TaskChainsV2 sm' = TaskChainsV2 sm) as ->.
    { rewrite <- (finishChain_TaskChainsV2 sm taskID). by rewrite Hrun. }
    split; [done|]. intros Hnone Hsome. rewrite Hnone in Hsome. by destruct Hsome.
Qed.

(** X8. An operation touches no V2 chain but the one of its task id; it never
    removes a chain from the store, and only initialize adds one. Complete,
    insert, update, delete and finish leave the task id, description, current
    step and status of that chain as they were: of these, only the steps
    change. *)
Theorem wrapTaskChain_frame sm op sm' r :
  wrapTaskChain sm op = Some (sm', r) →
  (∀ t, t ≠ opTaskID op → TaskChainsV2 sm' !! t = TaskChainsV2 sm !! t) ∧
  (∀ t, is_Some (TaskChainsV2 sm !! t) → is_Some (TaskChainsV2 sm' !! t)) ∧
  (∀ t, TaskChainsV2 sm !! t = None → is_Some (TaskChainsV2 sm' !! t) →
        ∃ description plan, op = OpStep t description plan) ∧
  (∀ c c',
     (∀ taskID description plan, op ≠ OpStep taskID description plan) →
     (∀ taskID stepNumber, op ≠ OpStart taskID stepNumber) →
     TaskChainsV2 sm !! opTaskID op = Some c → TaskChainsV2 sm' !! opTaskID op = Some c' →
     TaskChainV2.TaskID c' = TaskChainV2.TaskID c ∧
     TaskChainV2.Description c' = TaskChainV2.Description c ∧
     TaskChainV2.CurrentStep c' = TaskChainV2.CurrentStep c ∧
     TaskChainV2.Status c' = TaskChainV2.Status c).
Proof.
  intros Hrun. pose proof (wrapTaskChain_own_chain sm op sm' r Hrun) as [Hkeep Hadd].
  split; [|split; [|split]].
  - intros t Ht. by eapply wrapTaskChain_other_chains.
  - intros t Hsome. destruct (decide (t = opTaskID op)) as [->|Hne]; [by apply Hkeep|].
    by erewrite wrapTaskChain_other_chains.
  - intros t Hnone Hsome. destruct (decide (t = opTaskID op)) as [->|Hne]; [by apply Hadd|].
    erewrite wrapTaskChain_other_chains in Hsome by done.
    rewrite Hnone in Hsome. by destruct Hsome.
  - intros c c' Hstep Hstart Hc Hc'. by eapply wrapTaskChain_chain_fields.
Qed.

(** Initializing chain U leaves chain T as it was. *)
Lemma wrapTaskChain_frame_witness :
  ∃ sm' r,
    wrapTaskChain sessionOneStep (OpStep "U" "d" [entry "x"]) = Some (sm', r) ∧
    TaskChainsV2 sm' !! "T" = TaskChainsV2 sessionOneStep !! "T".
Proof.
  destruct (wrapTaskChain sessionOneStep (OpStep "U" "d" [entry "x"]))
    as [[sm' r]|] eqn:Hrun; [|exfalso; vm_compute in Hrun; discriminate].
  exists sm', r. split; [done|].
  destruct (wrapTaskChain_frame sessionOneStep (OpStep "U" "d" [entry "x"]) sm' r Hrun)
    as [Hother _].
  apply Hother. discriminate.
Defined.

(** ** The chains of a reachable session *)

Lemma wrapTaskChain_keys sm op sm' r :
  wrapTaskChain sm op = Some (sm', r) →
  (∀ t c, TaskChainsV2 sm !! t = Some c →
          TaskChainV2.TaskID c = t ∧ TaskChainV2.Status c = "running") →
  ∀ t c, TaskChainsV2 sm' !! t = Some c →
         TaskChainV2.TaskID c = t ∧ TaskChainV2.Status c = "running".
Proof.
  intros Hrun Hsm.
  assert (∀ taskID chain',
            TaskChainV2.TaskID chain' = taskID ∧ TaskChainV2.Status chain' = "running" →
            ∀ t c, (<[taskID := chain']> (TaskChainsV2 sm)) !! t = Some c →
                   TaskChainV2.TaskID c = t ∧ TaskChainV2.Status c = "running") as Hins.
  { intros taskID chain' Hc t c. destruct (decide (taskID = t)) as [->|Hne].
    - rewrite lookup_insert_eq. by intros [= <-].
    - rewrite lookup_insert_ne by done. apply Hsm. }
  destruct op; simpl in Hrun.
  - destruct (decide (taskID = "")) as [->|Hid].
    { unfold initTaskChainV2 in Hrun. rewrite decide_True in Hrun by done.
      by simplify_eq. }
    destruct plan as [|p ps].
    { unfold initTaskChainV2 in Hrun. rewrite decide_False in Hrun by done.
      rewrite decide_True in Hrun by done. by simplify_eq. }
    rewrite initTaskChainV2_ok in Hrun by done. simplify_eq. by apply Hins.
  - unfold startStepV2 in Hrun. handler_cases; try done.
    apply Hins. cbn. by eapply Hsm.
  - unfold completeStepV2 in Hrun. handler_cases; try done.
    apply Hins. cbn. by eapply Hsm.
  - unfold insertStepsV2 in Hrun. handler_cases; try done.
    apply Hins. cbn. by eapply Hsm.
  - unfold updateStepsV2 in Hrun. handler_cases; try done;
      apply Hins; cbn; by eapply Hsm.
  - unfold deleteStepsV2 in Hrun. handler_cases; try done;
      apply Hins; cbn; by eapply Hsm.
  - injection Hrun as Hrun.
    replace sm' with (finishChain sm taskID).1 by by rewrite Hrun.
    rewrite finishChain_TaskChainsV2. apply Hsm.
Qed.

(** X9. In every session the operations can produce, a V2 chain is stored under
    its own task id, which is not empty, and its status is running: no
    sequence of operations, finish included, ever gives a V2 chain another
    status. *)
Theorem reachable_chains_running sm taskID (chain : TaskChainV2.t) :
  reachable sm → TaskChainsV2 sm !! taskID = Some chain →
  taskID ≠ "" ∧ TaskChainV2.TaskID chain = taskID ∧
  TaskChainV2.Status chain = "running".
Proof.
  intros Hreach Hchain. split.
  - intros ->. apply reachable_empty_id in Hreach. congruence.
  - revert taskID chain Hchain.
    induction Hreach as [|sm op sm' r _ IH Hrun].
    + intros t c. cbn. by rewrite lookup_empty.
    + by eapply wrapTaskChain_keys.
Qed.

(** Chain T after initialize, complete, start and finish. *)
Lemma reachable_chains_running_witness :
  TaskChainV2.Status <$>
    TaskChainsV2 (sessionAfter [OpStep "T" "d" [entry "a"; entry "b"];
                                OpComplete "T" 1%float "done"; OpStart "T" 2%float;
                                OpComplete "T" 2%float "done too"; OpFinish "T"]) !! "T"
  = Some "running".
Proof.
  pose (ops := [OpStep "T" "d" [entry "a"; entry "b"];
                OpComplete "T" 1%float "done"; OpStart "T" 2%float;
                OpComplete "T" 2%float "done too"; OpFinish "T"]).
  fold ops.
  destruct (TaskChainsV2 (sessionAfter ops) !! "T") as [chain|] eqn:Hchain;
    [|exfalso; vm_compute in Hchain; discriminate].
  destruct (reachable_chains_running (sessionAfter ops) "T" chain) as (_ & _ & Hst).
  - apply sessionAfter_reachable. vm_compute. eauto.
  - exact Hchain.
  - cbn. by rewrite Hst.
Defined.

(** * The legacy chain and the other modes of the tool *)

(** ** Strings and Go's [int] *)

Lemma string_app_cons (x : ascii) (a b : string) :
  String x a +:+ b = String x (a +:+ b).
Proof. reflexivity. Qed.

Lemma string_app_inv_head (a b c : string) : a +:+ b = a +:+ c → b = c.
Proof.
  induction a as [|x a IH]; [done|].
  rewrite !string_app_cons. intros H. injection H as H. auto.
Qed.

Lemma string_app_empty_r (a : string) : a +:+ "" = a.
Proof. induction a as [|x a IH]; [done|]. by rewrite string_app_cons, IH. Qed.

Lemma wrapInt_small (z : Z) : (- 2 ^ 63 ≤ z < 2 ^ 63)%Z → wrapInt z = z.
Proof.
  intros Hz. unfold wrapInt.
  rewrite Z.mod_small by lia. lia.
Qed.

(** ** The hint of a legacy step *)

Lemma enhanceStepDescription_hint lower name step :
  ∃ hint, hint ∈ stepHints ∧ enhanceStepDescription lower name step = name +:+ hint.
Proof.
  unfold enhanceStepDescription, stepHints. cbv zeta.
  repeat match goal with
  | |- context [strings_Contains ?s ?k] =>
    destruct (strings_Contains s k); cbn [orb]; cbv iota
  end.
  all: lazymatch goal with
  | |- ∃ hint, _ ∧ _ +:+ ?suffix = _ => exists suffix; split; [|reflexivity]
  | |- _ => exists ""; split; [|symmetry; apply string_app_empty_r]
  end.
  all: repeat (apply elem_of_cons; first [by left | right]).
Qed.

(** X10. Whatever the lower-case form of the name is, [enhanceStepDescription]
    returns the name followed by one of six hints or by nothing. The hint
    [search_type=class] is not among them: the test for it is only reached
    when the same test has already failed. *)
Theorem enhanceStepDescription_hints lower name step :
  (∃ hint, hint ∈ stepHints ∧ enhanceStepDescription lower name step = name +:+ hint) ∧
  enhanceStepDescription lower name step ≠ name +:+ " (设置 search_type=class)".
Proof.
  destruct (enhanceStepDescription_hint lower name step) as (hint & Hin & Hhint).
  split; [by exists hint|].
  rewrite Hhint. intros H%string_app_inv_head. subst hint.
  unfold stepHints in Hin.
  repeat (apply elem_of_cons in Hin as [Hin|Hin]; [discriminate|]).
  by apply elem_of_nil in Hin.
Qed.

(** ** Walking a legacy chain *)

Lemma getNextStep_advances sm taskID chain step :
  taskID ≠ "" →
  TaskChains sm !! taskID = Some chain →
  (0 ≤ TaskChain.CurrentStep chain + 1)%Z →
  (Z.of_nat (length (TaskChain.Plan chain)) < 2 ^ 63)%Z →
  TaskChain.Plan chain !! Z.to_nat (TaskChain.CurrentStep chain + 1) = Some step →
  getNextStep sm taskID =
    Some (with_TaskChains
            (<[taskID := chainWithCurrentStep (TaskChain.CurrentStep chain + 1) chain]>
               (TaskChains sm)) sm,
          ResultText (TextNextStep (TaskChain.CurrentStep chain + 2)
                        (length (TaskChain.Plan chain)) step
                        (Z.of_nat (length (TaskChain.Plan chain))
                         - TaskChain.CurrentStep chain - 2))).
Proof.
  intros Hid Hchain Hpos Hlen Hstep.
  pose proof (lookup_lt_Some _ _ _ Hstep) as Hlt.
  unfold getNextStep. rewrite decide_False by done. rewrite Hchain.
  rewrite wrapInt_small by lia. cbn.
  case_decide; [exfalso; lia|].
  unfold planAt. case_decide; [exfalso; lia|]. rewrite Hstep.
  rewrite (wrapInt_small (Z.of_nat _ - _)) by lia.
  rewrite !wrapInt_small by lia.
  replace (TaskChain.CurrentStep chain + 1 + 1)%Z
    with (TaskChain.CurrentStep chain + 2)%Z by lia.
  replace (Z.of_nat (length (TaskChain.Plan chain)) - (TaskChain.CurrentStep chain + 1) - 1)%Z
    with (Z.of_nat (length (TaskChain.Plan chain)) - TaskChain.CurrentStep chain - 2)%Z by lia.
  reflexivity.
Qed.

Lemma getNextStep_finishes_chain sm taskID chain :
  taskID ≠ "" →
  TaskChains sm !! taskID = Some chain →
  (Z.of_nat (length (TaskChain.Plan chain)) ≤ TaskChain.CurrentStep chain + 1 < 2 ^ 63)%Z →
  getNextStep sm taskID =
    Some (with_TaskChains
            (<[taskID := TaskChain.with_Status "finished"
                           (chainWithCurrentStep (TaskChain.CurrentStep chain + 1) chain)]>
               (TaskChains sm)) sm,
          ResultOf (NewToolResultText (TextChainFinished taskID))).
Proof.
  intros Hid Hchain Hlen.
  unfold getNextStep. rewrite decide_False by done. rewrite Hchain.
  rewrite wrapInt_small by lia. cbn.
  case_decide; [|exfalso; lia].
  unfold finishChain. rewrite decide_False by done. cbn.
  rewrite lookup_insert_eq. cbn.
  unfold with_TaskChains. cbn. rewrite insert_insert_eq. reflexivity.
Qed.

Lemma nextSteps_running (m : gmap string TaskChain.t) sm0 taskID id steps st (c : Z) (k : nat) :
  taskID ≠ "" →
  (0 ≤ c)%Z →
  (c + Z.of_nat k < Z.of_nat (length steps))%Z →
  (Z.of_nat (length steps) < 2 ^ 63)%Z →
  nextSteps k (with_TaskChains (<[taskID := TaskChain.mk id steps c st]> m) sm0) taskID =
    Some (with_TaskChains (<[taskID := TaskChain.mk id steps (c + Z.of_nat k) st]> m) sm0).
Proof.
  intros Hid. revert c. induction k as [|k IH]; intros c Hc Hk Hlen.
  - cbn. by rewrite Z.add_0_r.
  - cbn [nextSteps].
    destruct (lookup_lt_is_Some_2 steps (Z.to_nat (c + 1))) as [step Hstep]; [lia|].
    rewrite (getNextStep_advances _ taskID (TaskChain.mk id steps c st) step);
      [| done | apply lookup_insert_eq | cbn; lia | done | done].
    cbn. unfold with_TaskChains at 1. cbn. rewrite insert_insert_eq.
    unfold chainWithCurrentStep. cbn.
    change (nextSteps k (with_TaskChains (<[taskID := TaskChain.mk id steps (c + 1) st]> m) sm0) taskID
            = Some (with_TaskChains (<[taskID := TaskChain.mk id steps (c + Z.of_nat (S k)) st]> m) sm0)).
    rewrite IH by lia. do 4 f_equal. lia.
Qed.

Lemma initTaskChain_ok lower sm taskID plan :
  taskID ≠ "" → plan ≠ [] →
  initTaskChain lower sm taskID plan =
    (with_TaskChains
       (<[taskID := TaskChain.mk taskID (legacyStep lower <$> plan) 0 "running"]> (TaskChains sm)) sm,
     ResultText (TextChainInitialized taskID (length plan)
                   (imap (fun i step => (i + 1, legacyStep lower step, step !! "expert")) plan))).
Proof.
  intros Hid Hplan. unfold initTaskChain.
  rewrite decide_False by done.
  rewrite decide_False; [done|]. by destruct plan.
Qed.

(** X11. After the legacy initialize of a plan, call [k+1] of [getNextStep]
    delivers the plan's entry at index [k+1], with its hint, as step [k+2] of
    the plan, and leaves the V2 chains alone. The entry at index 0 is the
    current step from the start; next never delivers it. *)
Theorem getNextStep_walks_plan lower sm taskID plan k step :
  taskID ≠ "" →
  (Z.of_nat (length plan) < 2 ^ 63)%Z →
  plan !! S k = Some step →
  ∃ smk sm',
    nextSteps k (initTaskChain lower sm taskID plan).1 taskID = Some smk ∧
    getNextStep smk taskID =
      Some (sm', ResultText (TextNextStep (Z.of_nat k + 2) (length plan)
                               (legacyStep lower step)
                               (Z.of_nat (length plan) - Z.of_nat k - 2))) ∧
    TaskChainsV2 sm' = TaskChainsV2 sm.
Proof.
  intros Hid Hlen Hstep.
  pose proof (lookup_lt_Some _ _ _ Hstep) as Hlt.
  rewrite initTaskChain_ok; [| done | by destruct plan]. cbn [fst].
  set (steps := legacyStep lower <$> plan).
  assert (length steps = length plan) as Hsteps by apply length_fmap.
  exists (with_TaskChains
            (<[taskID := TaskChain.mk taskID steps (Z.of_nat k) "running"]> (TaskChains sm)) sm).
  eexists. split; [|split].
  - rewrite nextSteps_running; [by rewrite Z.add_0_l | done | lia | lia | lia].
  - rewrite (getNextStep_advances _ taskID
               (TaskChain.mk taskID steps (Z.of_nat k) "running") (legacyStep lower step)).
    + cbn. rewrite Hsteps. reflexivity.
    + done.
    + apply lookup_insert_eq.
    + cbn. lia.
    + cbn. lia.
    + cbn. replace (Z.to_nat (Z.of_nat k + 1)) with (S k) by lia.
      unfold steps. by rewrite list_lookup_fmap, Hstep.
  - reflexivity.
Qed.

(** The second entry of a plan of three is delivered by the first next, with
    the hint its keywords call for. *)
Lemma getNextStep_walks_plan_witness :
  ∃ sm',
    getNextStep
      (initTaskChain asciiToLower emptySession "T"
         [entry "a"; entry "快速浏览 Map"; entry "c"]).1 "T" =
    Some (sm', ResultText (TextNextStep 2 3 "快速浏览 Map (用 overview 模式)" 1)).
Proof.
  destruct (getNextStep_walks_plan asciiToLower emptySession "T"
              [entry "a"; entry "快速浏览 Map"; entry "c"] 0 (entry "快速浏览 Map"))
    as (smk & sm' & Hk & Hnext & _).
  - done.
  - cbn. lia.
  - reflexivity.
  - assert ((initTaskChain asciiToLower emptySession "T"
               [entry "a"; entry "快速浏览 Map"; entry "c"]).1 = smk) as Hsmk.
    { injection Hk as Hk. exact Hk. }
    exists sm'. rewrite Hsmk, Hnext. vm_compute. reflexivity.
Defined.

(** X12. After the legacy initialize of a non-empty plan of [n] entries, the
    call number [n] of [getNextStep] finishes the chain: it answers with the
    finished text and leaves the chain finished with its current index behind
    the plan. On that chain [resumeTask] has no result: it reads the plan at
    the current index, which is out of range. *)
Theorem legacy_chain_finishes lower sm taskID plan :
  taskID ≠ "" →
  plan ≠ [] →
  (Z.of_nat (length plan) < 2 ^ 63)%Z →
  ∃ smk sm',
    nextSteps (length plan - 1) (initTaskChain lower sm taskID plan).1 taskID = Some smk ∧
    getNextStep smk taskID =
      Some (sm', ResultOf (NewToolResultText (TextChainFinished taskID))) ∧
    TaskChains sm' !! taskID =
      Some (TaskChain.mk taskID (legacyStep lower <$> plan) (Z.of_nat (length plan)) "finished") ∧
    resumeTask sm' taskID = None.
Proof.
  intros Hid Hplan Hlen.
  assert (0 < length plan) as Hpos by (destruct plan; [done | cbn; lia]).
  rewrite initTaskChain_ok by done. cbn [fst].
  set (steps := legacyStep lower <$> plan).
  assert (length steps = length plan) as Hsteps by apply length_fmap.
  set (chain := TaskChain.mk taskID steps (Z.of_nat (length plan - 1)) "running").
  exists (with_TaskChains (<[taskID := chain]> (TaskChains sm)) sm).
  eexists. split; [|split; [|split]].
  - rewrite nextSteps_running; [by rewrite Z.add_0_l | done | lia | lia | lia].
  - rewrite (getNextStep_finishes_chain _ taskID chain);
      [reflexivity | done | apply lookup_insert_eq | cbn; lia].
  - cbn. rewrite lookup_insert_eq. unfold TaskChain.with_Status, chainWithCurrentStep. cbn.
    do 3 f_equal. lia.
  - unfold resumeTask. rewrite decide_False by done.
    cbn. rewrite lookup_insert_eq. cbn.
    unfold planAt. case_decide; [done|].
    rewrite lookup_ge_None_2; [done|]. lia.
Qed.

(** The chain of the steps a and b is finished by the second next, after
    which resume has no result. *)
Lemma legacy_chain_finishes_witness :
  ∃ smk sm',
    getNextStep sessionLegacy "T" = Some (smk, ResultText (TextNextStep 2 2 "b" 0)) ∧
    getNextStep smk "T" = Some (sm', ResultOf (NewToolResultText (TextChainFinished "T"))) ∧
    resumeTask sm' "T" = None.
Proof.
  destruct (legacy_chain_finishes asciiToLower emptySession "T" [entry "a"; entry "b"])
    as (smk & sm' & Hk & Hnext & _ & Hresume).
  - done.
  - done.
  - cbn. lia.
  - exists smk, sm'. split; [|split; [exact Hnext | exact Hresume]].
    change (nextSteps 1 sessionLegacy "T" = Some smk) in Hk.
    cbn [nextSteps] in Hk.
    destruct (getNextStep sessionLegacy "T") as [[sm1 r1]|] eqn:Hfirst; [|done].
    injection Hk as <-. vm_compute in Hfirst. injection Hfirst as <- <-.
    vm_compute. reflexivity.
Defined.

(** ** The modes of the tool *)

Lemma wrapTaskChain_legacy_empty sm op sm' r :
  wrapTaskChain sm op = Some (sm', r) → TaskChains sm = ∅ → TaskChains sm' = ∅.
Proof.
  intros Hop Hempty.
  destruct op; cbn in Hop;
    unfold initTaskChainV2, startStepV2, completeStepV2, insertStepsV2, updateStepsV2,
      deleteStepsV2, finishChain in Hop;
    handler_cases; cbn; try done.
  all: match goal with
       | H : TaskChains _ !! _ = Some _ |- _ => by rewrite Hempty, lookup_empty in H
       end.
Qed.

Lemma getNextStep_stateless sm taskID :
  TaskChains sm = ∅ → taskID ≠ "" →
  getNextStep sm taskID = Some (sm, ResultText (TextNextStateless taskID)).
Proof.
  intros Hempty Hid. unfold getNextStep.
  rewrite decide_False by done. by rewrite Hempty, lookup_empty.
Qed.

Lemma resumeTask_stateless sm taskID :
  TaskChains sm = ∅ → taskID ≠ "" →
  resumeTask sm taskID = Some (sm, ResultText (TextResumed taskID None)).
Proof.
  intros Hempty Hid. unfold resumeTask.
  rewrite decide_False by done. by rewrite Hempty, lookup_empty.
Qed.

(** A call either is one of the seven operations or leaves the session as it
    is, as long as there is no legacy chain. *)
Lemma wrapTaskChainArgs_cases sm args sm' r :
  wrapTaskChainArgs sm args = Some (sm', r) →
  TaskChains sm = ∅ →
  (∃ op r', wrapTaskChain sm op = Some (sm', r') ∧ r = ResultOf r') ∨ sm' = sm.
Proof.
  intros Hcall Hempty. unfold wrapTaskChainArgs in Hcall.
  set (taskID := TaskChainArgs.TaskID args) in *.
  repeat case_decide.
  all: try (right; by injection Hcall as <- _).
  all: try match type of Hcall with
       | Some (liftResult ?call) = _ =>
         left; destruct call as [sm1 r1] eqn:Hhandler; injection Hcall as <- <-
       end.
  - exists (OpStart taskID (TaskChainArgs.StepNumber args)), r1. cbn. by rewrite Hhandler.
  - exists (OpComplete taskID (TaskChainArgs.StepNumber args) (TaskChainArgs.Summary args)), r1.
    cbn. by rewrite Hhandler.
  - exists (OpStep taskID (TaskChainArgs.Description args) (TaskChainArgs.Plan args)), r1.
    cbn. by rewrite Hhandler.
  - right. destruct (decide (taskID = "")) as [Hid|Hid].
    + unfold getNextStep in Hcall. rewrite decide_True in Hcall by done.
      by injection Hcall as <- _.
    + rewrite getNextStep_stateless in Hcall by done. by injection Hcall as <- _.
  - right. destruct (decide (taskID = "")) as [Hid|Hid].
    + unfold resumeTask in Hcall. rewrite decide_True in Hcall by done.
      by injection Hcall as <- _.
    + rewrite resumeTask_stateless in Hcall by done. by injection Hcall as <- _.
  - exists (OpInsert taskID (TaskChainArgs.After args) (TaskChainArgs.InsertPlan args)), r1.
    cbn. by rewrite Hhandler.
  - left.
    destruct (updateStepsV2 sm taskID (TaskChainArgs.From args)
                (TaskChainArgs.UpdatePlan args)) as [[sm1 r1]|] eqn:Hup; [|done].
    cbn in Hcall. injection Hcall as <- <-.
    by exists (OpUpdate taskID (TaskChainArgs.From args) (TaskChainArgs.UpdatePlan args)), r1.
  - exists (OpDelete taskID (TaskChainArgs.StepNumber args) (TaskChainArgs.DeleteScope args)), r1.
    cbn. by rewrite Hhandler.
  - exists (OpFinish taskID), r1. cbn. by rewrite Hhandler.
Qed.

Lemma toolReachable_inv sm : toolReachable sm → reachable sm ∧ TaskChains sm = ∅.
Proof.
  induction 1 as [|sm args sm' r _ [IH Hempty] Hcall].
  - split; [constructor | done].
  - destruct (wrapTaskChainArgs_cases _ _ _ _ Hcall Hempty) as [(op & r' & Hop & _)| ->].
    + split; [by eapply reachable_op | by eapply wrapTaskChain_legacy_empty].
    + done.
Qed.

Lemma wrapTaskChainArgs_opArgs sm op :
  wrapTaskChainArgs sm (opArgs op) = liftResult <$> wrapTaskChain sm op.
Proof. destruct op; reflexivity. Qed.

Lemma reachable_toolReachable sm : reachable sm → toolReachable sm.
Proof.
  induction 1 as [|sm op sm' r _ IH Hop]; [constructor|].
  apply (toolReachable_call sm (opArgs op) sm' (ResultOf r)); [done|].
  by rewrite wrapTaskChainArgs_opArgs, Hop.
Qed.

(** X13. The sessions the tool can produce from the empty session with all its
    modes and any arguments are the sessions its seven operations produce: the
    modes continue, next and resume and an unknown mode change nothing. *)
Theorem tool_reaches_the_same_sessions sm : toolReachable sm ↔ reachable sm.
Proof.
  split; [by intros [? _]%toolReachable_inv | apply reachable_toolReachable].
Qed.

(** X14. No call of the tool creates a legacy chain: in every session the tool
    can produce the legacy store is empty, so that, for every task id given,
    next answers in its stateless form, resume finds no state, finish marks
    nothing, and none of them changes the session. *)
Theorem tool_finds_no_legacy_chain sm taskID :
  toolReachable sm →
  taskID ≠ "" →
  TaskChains sm = ∅ ∧
  wrapTaskChainArgs sm (modeArgs "next" taskID) =
    Some (sm, ResultText (TextNextStateless taskID)) ∧
  wrapTaskChainArgs sm (modeArgs "resume" taskID) =
    Some (sm, ResultText (TextResumed taskID None)) ∧
  wrapTaskChainArgs sm (modeArgs "finish" taskID) =
    Some (sm, ResultOf (NewToolResultText (TextChainFinished taskID))).
Proof.
  intros [_ Hempty]%toolReachable_inv Hid.
  split; [done|].
  change (wrapTaskChainArgs sm (modeArgs "next" taskID)) with (getNextStep sm taskID).
  change (wrapTaskChainArgs sm (modeArgs "resume" taskID)) with (resumeTask sm taskID).
  change (wrapTaskChainArgs sm (modeArgs "finish" taskID))
    with (Some (liftResult (finishChain sm taskID))).
  rewrite getNextStep_stateless, resumeTask_stateless by done.
  split; [done|]. split; [done|].
  unfold finishChain, liftResult. rewrite decide_False by done.
  by rewrite Hempty, lookup_empty.
Qed.

(** After the initialize of chain T through the tool, next on T answers in
    its stateless form. *)
Lemma tool_finds_no_legacy_chain_witness :
  TaskChains sessionOneStep = ∅ ∧
  wrapTaskChainArgs sessionOneStep (modeArgs "next" "T") =
    Some (sessionOneStep, ResultText (TextNextStateless "T")).
Proof.
  assert (toolReachable sessionOneStep) as Hreach.
  { apply reachable_toolReachable, sessionAfter_reachable. vm_compute. eauto. }
  destruct (tool_finds_no_legacy_chain sessionOneStep "T" Hreach) as (H1 & H2 & _);
    [done|].
  split; assumption.
Defined.

(** ** Legacy insert and delete *)

(** X15. In a legacy chain whose current index is inside the plan, [insertSteps]
    puts the names of the new entries, without hints, right behind the
    current step, and the next [getNextStep] delivers the first of them. *)
Theorem insertSteps_then_next sm taskID (chain : TaskChain.t) (first : PlanEntry)
    (rest : list PlanEntry) :
  let plan := TaskChain.Plan chain in
  let current := TaskChain.CurrentStep chain in
  let names := stepName <$> first :: rest in
  let plan' :=
    take (Z.to_nat (current + 1)) plan ++ names ++ drop (Z.to_nat (current + 1)) plan in
  taskID ≠ "" →
  TaskChains sm !! taskID = Some chain →
  (0 ≤ current < Z.of_nat (length plan))%Z →
  (Z.of_nat (length plan') < 2 ^ 63)%Z →
  ∃ sm1 sm2,
    insertSteps sm taskID (first :: rest) =
      Some (sm1, ResultText (TextStepsInserted (length (first :: rest))
                               (Some (length plan')) names)) ∧
    TaskChains sm1 !! taskID = Some (chainWithPlan plan' chain) ∧
    getNextStep sm1 taskID =
      Some (sm2, ResultText (TextNextStep (current + 2) (length plan') (stepName first)
                               (Z.of_nat (length plan') - current - 2))).
Proof.
  intros plan current names plan' Hid Hchain Hcur Hlen.
  assert (length plan' = length plan + length names) as Hlen'.
  { unfold plan'. rewrite !length_app, length_take, length_drop. lia. }
  set (sm1 := with_TaskChains (<[taskID := chainWithPlan plan' chain]> (TaskChains sm)) sm).
  assert (insertSteps sm taskID (first :: rest) =
            Some (sm1, ResultText (TextStepsInserted (length (first :: rest))
                                     (Some (length plan')) names))) as Hinsert.
  { unfold insertSteps. rewrite decide_False by done.
    rewrite decide_False by done. rewrite Hchain.
    fold plan current. rewrite wrapInt_small by lia.
    destruct (decide (Z.of_nat (length plan) < current + 1)%Z) as [?|_]; [exfalso; lia|].
    destruct (decide (current + 1 < 0)%Z) as [?|_]; [exfalso; lia|].
    reflexivity. }
  assert (TaskChains sm1 !! taskID = Some (chainWithPlan plan' chain)) as Hchain1
    by apply lookup_insert_eq.
  exists sm1. eexists. split; [exact Hinsert|]. split; [exact Hchain1|].
  rewrite (getNextStep_advances sm1 taskID (chainWithPlan plan' chain) (stepName first));
    [reflexivity | done | done | cbn; lia | done |].
  cbn. fold current. unfold plan'.
  rewrite lookup_app_r by (rewrite length_take; lia).
  rewrite length_take. replace (Z.to_nat (current + 1) - _) with 0 by lia.
  reflexivity.
Qed.

(** In the chain of the steps a and b, at a, the step x is inserted before b
    and delivered by the next call. *)
Lemma insertSteps_then_next_witness :
  ∃ sm1 sm2,
    insertSteps sessionLegacy "T" [entry "x"] =
      Some (sm1, ResultText (TextStepsInserted 1 (Some 3) ["x"])) ∧
    (TaskChain.Plan <$> TaskChains sm1 !! "T") = Some ["a"; "x"; "b"] ∧
    getNextStep sm1 "T" = Some (sm2, ResultText (TextNextStep 2 3 "x" 1)).
Proof.
  destruct (insertSteps_then_next sessionLegacy "T" (TaskChain.mk "T" ["a"; "b"] 0 "running")
              (entry "x") [])
    as (sm1 & sm2 & Hinsert & Hchain & Hnext).
  - done.
  - vm_compute. reflexivity.
  - cbn. lia.
  - vm_compute. reflexivity.
  - exists sm1, sm2. split; [exact Hinsert|]. split; [by rewrite Hchain | exact Hnext].
Defined.

(** X16. In a legacy chain with a current index that is not negative,
    [deleteSteps] with scope "remaining" cuts the plan behind the current
    step, and the next [getNextStep] finishes the chain. *)
Theorem deleteSteps_remaining_then_next sm taskID (chain : TaskChain.t) subtaskID stepOrder :
  let plan := TaskChain.Plan chain in
  let current := TaskChain.CurrentStep chain in
  taskID ≠ "" →
  TaskChains sm !! taskID = Some chain →
  (0 ≤ current)%Z →
  (current + 1 < 2 ^ 63)%Z →
  (Z.of_nat (length plan) < 2 ^ 63)%Z →
  ∃ sm1 sm2,
    deleteSteps sm taskID subtaskID stepOrder "remaining" =
      Some (sm1, ResultText (TextRemainingDeleted taskID)) ∧
    TaskChains sm1 !! taskID =
      Some (chainWithPlan (take (Z.to_nat (current + 1)) plan) chain) ∧
    getNextStep sm1 taskID =
      Some (sm2, ResultOf (NewToolResultText (TextChainFinished taskID))).
Proof.
  intros plan current Hid Hchain Hcur Hmax Hlen.
  set (plan' := take (Z.to_nat (current + 1)) plan).
  assert (∃ sm1,
    deleteSteps sm taskID subtaskID stepOrder "remaining" =
      Some (sm1, ResultText (TextRemainingDeleted taskID)) ∧
    TaskChains sm1 !! taskID = Some (chainWithPlan plan' chain)) as (sm1 & Hdelete & Hchain1).
  { unfold deleteSteps. rewrite decide_False by done. rewrite Hchain.
    rewrite decide_True by done. fold plan current.
    rewrite wrapInt_small by lia.
    destruct (decide (current + 1 < Z.of_nat (length plan))%Z) as [Hin|Hout].
    - destruct (decide (current + 1 < 0)%Z) as [?|_]; [exfalso; lia|].
      eexists. split; [reflexivity|]. apply lookup_insert_eq.
    - exists sm. split; [reflexivity|].
      rewrite Hchain. f_equal. unfold plan'. rewrite take_ge by lia.
      by destruct chain. }
  exists sm1. eexists. split; [exact Hdelete|]. split; [exact Hchain1|].
  rewrite (getNextStep_finishes_chain sm1 taskID (chainWithPlan plan' chain));
    [reflexivity | done | done |].
  cbn. fold current. unfold plan'. rewrite length_take. lia.
Qed.

(** In the chain of the steps a and b, at a, deleting the remaining steps
    leaves a, and the next call finishes the chain. *)
Lemma deleteSteps_remaining_then_next_witness :
  ∃ sm1 sm2,
    deleteSteps sessionLegacy "T" "" 0 "remaining" =
      Some (sm1, ResultText (TextRemainingDeleted "T")) ∧
    (TaskChain.Plan <$> TaskChains sm1 !! "T") = Some ["a"] ∧
    getNextStep sm1 "T" = Some (sm2, ResultOf (NewToolResultText (TextChainFinished "T"))).
Proof.
  destruct (deleteSteps_remaining_then_next sessionLegacy "T"
              (TaskChain.mk "T" ["a"; "b"] 0 "running") "" 0)
    as (sm1 & sm2 & Hdelete & Hchain & Hnext).
  - done.
  - vm_compute. reflexivity.
  - cbn. lia.
  - vm_compute. reflexivity.
  - vm_compute. reflexivity.
  - exists sm1, sm2. split; [exact Hdelete|]. split; [by rewrite Hchain | exact Hnext].
Defined.

(** X17. With a scope other than "remaining", [deleteSteps] called with a
    positive step order answers that this step of the task is deleted, and
    called without one but with a subtask id answers that the subtask is
    deleted; either way it returns the session as it was: no plan changes. *)
Theorem deleteSteps_other_targets sm taskID subtaskID stepOrder deleteScope :
  taskID ≠ "" →
  deleteScope ≠ "remaining" →
  (0 < stepOrder)%Z ∨ subtaskID ≠ "" →
  deleteSteps sm taskID subtaskID stepOrder deleteScope =
    Some (sm, ResultText (if decide (0 < stepOrder)%Z
                          then TextStepOrderDeleted taskID stepOrder
                          else TextSubtaskDeleted subtaskID)).
Proof.
  intros Hid Hscope Htarget. unfold deleteSteps.
  rewrite decide_False by done.
  destruct (decide (deleteScope = "remaining")) as [?|_]; [done|].
  destruct (decide (0 < stepOrder)%Z) as [Horder|Horder].
  - by destruct (TaskChains sm !! taskID).
  - destruct Htarget as [?|Hsub]; [done|].
    rewrite decide_True by done.
    by destruct (TaskChains sm !! taskID).
Qed.

(** Deleting step 2 of the chain of the steps a and b is answered as done, and
    the plan is still a, b. *)
Lemma deleteSteps_other_targets_witness :
  deleteSteps sessionLegacy "T" "" 2 "" =
    Some (sessionLegacy, ResultText (TextStepOrderDeleted "T" 2)) ∧
  (TaskChain.Plan <$> TaskChains sessionLegacy !! "T") = Some ["a"; "b"].
Proof.
  split; [|vm_compute; reflexivity].
  rewrite (deleteSteps_other_targets sessionLegacy "T" "" 2 "");
    [reflexivity | done | done | left; lia].
Defined.

(** ** A failed call of the tool *)

Lemma getNextStep_error sm taskID sm' r :
  getNextStep sm taskID = Some (sm', r) → resultIsError r = true → sm' = sm.
Proof.
  unfold getNextStep, finishChain. intros H Herr.
  handler_cases; cbn in Herr; done.
Qed.

Lemma resumeTask_error sm taskID sm' r :
  resumeTask sm taskID = Some (sm', r) → resultIsError r = true → sm' = sm.
Proof.
  unfold resumeTask. intros H Herr.
  handler_cases; cbn in Herr; done.
Qed.

(** X18. Whatever the mode and the arguments, a call of the tool that returns
    an error result returns the session it was given: this holds for the
    modes continue, next and resume and for an unknown mode as it does for the
    seven operations. *)
Theorem wrapTaskChainArgs_error_leaves_session sm args sm' r :
  wrapTaskChainArgs sm args = Some (sm', r) → resultIsError r = true → sm' = sm.
Proof.
  intros Hcall Herr. unfold wrapTaskChainArgs in Hcall.
  repeat case_decide.
  all: try match type of Hcall with
       | Some (liftResult ?call) = _ =>
         destruct call as [sm1 [text|e]] eqn:Hhandler; injection Hcall as <- <-; [done|]
       end.
  - by eapply startStepV2_error.
  - by eapply completeStepV2_error.
  - by injection Hcall as <- _.
  - by eapply initTaskChainV2_error.
  - by eapply getNextStep_error.
  - by eapply resumeTask_error.
  - by eapply insertStepsV2_error.
  - destruct (updateStepsV2 sm (TaskChainArgs.TaskID args) (TaskChainArgs.From args)
                (TaskChainArgs.UpdatePlan args)) as [[sm1 [text|e]]|] eqn:Hup; [| |done].
    + cbn in Hcall. by injection Hcall as <- <-.
    + cbn in Hcall. injection Hcall as <- <-. by eapply updateStepsV2_error.
  - by eapply deleteStepsV2_error.
  - by eapply finishChain_error.
  - by injection Hcall as <- _.
Qed.

(** Start of a step that chain T does not have, a call without a task id and
    a call with a mode the tool does not know fail and return the session. *)
Lemma wrapTaskChainArgs_error_leaves_session_witness :
  (∃ r, wrapTaskChainArgs sessionOneStep (modeArgs "start" "T") = Some (sessionOneStep, r) ∧
        resultIsError r = true) ∧
  (∃ r, wrapTaskChainArgs sessionLegacy (modeArgs "next" "") = Some (sessionLegacy, r) ∧
        resultIsError r = true) ∧
  (∃ r, wrapTaskChainArgs sessionLegacy (modeArgs "pause" "T") = Some (sessionLegacy, r) ∧
        resultIsError r = true).
Proof.
  assert (∀ sm args, is_Some (wrapTaskChainArgs sm args) →
            resultIsError (default continueExecution (snd <$> wrapTaskChainArgs sm args)) = true →
            ∃ r, wrapTaskChainArgs sm args = Some (sm, r) ∧ resultIsError r = true) as Hfail.
  { intros sm args [[sm' r] Hcall] Herr. rewrite Hcall in Herr. cbn in Herr.
    rewrite (wrapTaskChainArgs_error_leaves_session sm args sm' r Hcall Herr) in Hcall.
    by exists r. }
  split; [|split]; apply Hfail; vm_compute; eauto.
Defined.

(** ** Inserting into a chain that next has finished *)

(** X19. In a legacy chain whose current index is just behind the plan, as
    next leaves it when it finishes the chain, [insertSteps] appends the new
    steps, and the next [getNextStep] passes over the first of them: it
    delivers the second new step, or finishes the chain again when only one
    step was inserted. *)
Theorem insertSteps_after_finish sm taskID (chain : TaskChain.t) (first : PlanEntry)
    (rest : list PlanEntry) :
  let plan := TaskChain.Plan chain in
  let names := stepName <$> first :: rest in
  taskID ≠ "" →
  TaskChains sm !! taskID = Some chain →
  TaskChain.CurrentStep chain = Z.of_nat (length plan) →
  (Z.of_nat (length (plan ++ names)) < 2 ^ 63)%Z →
  ∃ sm1 sm2,
    insertSteps sm taskID (first :: rest) =
      Some (sm1, ResultText (TextStepsInserted (length (first :: rest))
                               (Some (length (plan ++ names))) names)) ∧
    TaskChains sm1 !! taskID = Some (chainWithPlan (plan ++ names) chain) ∧
    getNextStep sm1 taskID =
      Some (sm2,
            match rest with
            | [] => ResultOf (NewToolResultText (TextChainFinished taskID))
            | second :: _ =>
              ResultText (TextNextStep (Z.of_nat (length plan) + 2) (length (plan ++ names))
                            (stepName second) (Z.of_nat (length rest) - 1))
            end).
Proof.
  intros plan names Hid Hchain Hcur Hlen.
  assert (length (plan ++ names) = length plan + S (length rest)) as Hlen'.
  { unfold names. rewrite length_app, length_fmap. reflexivity. }
  set (sm1 := with_TaskChains (<[taskID := chainWithPlan (plan ++ names) chain]> (TaskChains sm)) sm).
  assert (insertSteps sm taskID (first :: rest) =
            Some (sm1, ResultText (TextStepsInserted (length (first :: rest))
                                     (Some (length (plan ++ names))) names))) as Hinsert.
  { unfold insertSteps. rewrite decide_False by done.
    rewrite decide_False by done. rewrite Hchain.
    fold plan. rewrite Hcur. rewrite wrapInt_small by lia.
    destruct (decide (Z.of_nat (length plan) < Z.of_nat (length plan) + 1)%Z) as [_|?];
      [|exfalso; lia].
    destruct (decide (Z.of_nat (length plan) < 0)%Z) as [?|_]; [exfalso; lia|].
    rewrite Nat2Z.id, take_ge, drop_ge, app_nil_r by lia.
    reflexivity. }
  assert (TaskChains sm1 !! taskID = Some (chainWithPlan (plan ++ names) chain)) as Hchain1
    by apply lookup_insert_eq.
  exists sm1. destruct rest as [|second rest].
  - eexists. split; [exact Hinsert|]. split; [exact Hchain1|].
    rewrite (getNextStep_finishes_chain sm1 taskID (chainWithPlan (plan ++ names) chain));
      [reflexivity | done | done |].
    cbn [TaskChain.CurrentStep TaskChain.Plan chainWithPlan].
    rewrite Hlen' in Hlen |- *. rewrite Hcur. cbn [length] in Hlen |- *. lia.
  - eexists. split; [exact Hinsert|]. split; [exact Hchain1|].
    rewrite (getNextStep_advances sm1 taskID (chainWithPlan (plan ++ names) chain)
               (stepName second)).
    + cbn [TaskChain.CurrentStep TaskChain.Plan chainWithPlan]. rewrite Hcur.
      do 3 f_equal. f_equal. rewrite Hlen'. cbn [length]. lia.
    + done.
    + done.
    + cbn [TaskChain.CurrentStep TaskChain.Plan chainWithPlan]. rewrite Hcur. lia.
    + done.
    + cbn [TaskChain.CurrentStep TaskChain.Plan chainWithPlan]. rewrite Hcur.
      rewrite lookup_app_r by lia.
      replace (Z.to_nat (Z.of_nat (length plan) + 1) - length plan) with 1 by lia.
      reflexivity.
Qed.

(** After the chain of the steps a and b is finished by two calls of next, the
    steps x and y are inserted; the next call delivers y as step 4 of 4. *)
Lemma insertSteps_after_finish_witness :
  ∃ sm0 sm1 sm2,
    nextSteps 2 sessionLegacy "T" = Some sm0 ∧
    insertSteps sm0 "T" [entry "x"; entry "y"] =
      Some (sm1, ResultText (TextStepsInserted 2 (Some 4) ["x"; "y"])) ∧
    getNextStep sm1 "T" = Some (sm2, ResultText (TextNextStep 4 4 "y" 0)).
Proof.
  destruct (nextSteps 2 sessionLegacy "T") as [sm0|] eqn:Hsm0;
    [|exfalso; vm_compute in Hsm0; discriminate].
  assert (TaskChains sm0 !! "T" = Some (TaskChain.mk "T" ["a"; "b"] 2 "finished")) as Hchain.
  { vm_compute in Hsm0. injection Hsm0 as <-. vm_compute. reflexivity. }
  destruct (insertSteps_after_finish sm0 "T" (TaskChain.mk "T" ["a"; "b"] 2 "finished")
              (entry "x") [entry "y"])
    as (sm1 & sm2 & Hinsert & _ & Hnext).
  - done.
  - exact Hchain.
  - reflexivity.
  - vm_compute. reflexivity.
  - exists sm0, sm1, sm2. split; [reflexivity|]. split; [exact Hinsert | exact Hnext].
Defined.

(** ** Update on a chain that delete has emptied *)

Lemma filter_not_todo_nil (steps : list Step.t) :
  Forall isTodo steps → filter (fun s => ¬ isTodo s) steps = [].
Proof.
  induction 1 as [|s steps Hs _ IH]; [done|].
  rewrite filter_cons. rewrite decide_False; [done|]. by intros Hnot.
Qed.

(** X20. When a delete of one step removes the only step of a chain, a
    following update, whatever number it starts from, brings the deleted step
    back in front of its new steps: the array of the slice still holds it.
    When a delete of the remaining steps removes every step of a chain, a
    following update has no result: the new slice has no array to read from,
    and the Go code panics. *)
Theorem updateStepsV2_after_emptying sm taskID from (updatePlan : list PlanEntry)
    (chain : TaskChainV2.t) :
  taskID ≠ "" → updatePlan ≠ [] → TaskChainsV2 sm !! taskID = Some chain →
  (∀ s stepToDelete deleteScope,
     TaskChainV2.Steps chain = [s] → deleteScope ≠ "remaining" →
     PrimFloat.ltb 0 stepToDelete = true → hasNumber stepToDelete s →
     Step.Status s ≠ StepStatusInProgress →
     ∃ sm1 text1 sm2 text2,
       deleteStepsV2 sm taskID stepToDelete deleteScope = (sm1, NewToolResultText text1) ∧
       stepsOf sm1 taskID = [] ∧
       updateStepsV2 sm1 taskID from updatePlan = Some (sm2, NewToolResultText text2) ∧
       stepsOf sm2 taskID =
         s :: imap (fun k step => planStep (from + float64_of_nat k)%float step) updatePlan) ∧
  (∀ stepToDelete,
     Forall isTodo (TaskChainV2.Steps chain) →
     ∃ sm1 text1,
       deleteStepsV2 sm taskID stepToDelete "remaining" = (sm1, NewToolResultText text1) ∧
       stepsOf sm1 taskID = [] ∧
       updateStepsV2 sm1 taskID from updatePlan = None).
Proof.
  intros Hid Hplan Hchain. split.
  - intros s stepToDelete deleteScope Hsteps Hscope Hpos Hnum Hst.
    assert (findStep stepToDelete (TaskChainV2.Steps chain) = Some (0, s)) as Hfind.
    { rewrite Hsteps. by apply findStep_head. }
    set (chain1 := TaskChainV2.with_Steps (delete 0 (TaskChainV2.Steps chain)) chain).
    set (sm1 := with_TaskChainsV2 (<[taskID := chain1]> (TaskChainsV2 sm)) sm).
    assert (TaskChainsV2 sm1 !! taskID = Some chain1) as Hchain1 by apply lookup_insert_eq.
    assert (TaskChainV2.Steps chain1 = []) as Hsteps1.
    { unfold chain1. cbn. by rewrite Hsteps. }
    assert (TaskChainV2.Spare chain1 = Some s) as Hspare1.
    { unfold chain1. cbn. rewrite Hsteps. cbn. unfold TaskChainV2.firstCell.
      by rewrite Hsteps. }
    exists sm1. eexists. eexists. eexists. split; [|split; [|split]].
    + unfold deleteStepsV2. rewrite decide_False by done. rewrite Hchain.
      rewrite decide_False by done. rewrite Hpos, Hfind.
      rewrite decide_False by done. reflexivity.
    + unfold stepsOf. rewrite Hchain1.
      cbn [fmap option_fmap option_map default from_option id]. exact Hsteps1.
    + rewrite (updateStepsV2_no_steps sm1 taskID from updatePlan chain1) by done.
      cbn zeta. rewrite Hspare1. reflexivity.
    + unfold stepsOf. cbn [TaskChainsV2 with_TaskChainsV2].
      by rewrite lookup_insert_eq.
  - intros stepToDelete Htodo.
    rewrite (deleteStepsV2_remaining_eq sm taskID stepToDelete chain) by done.
    set (chain1 := TaskChainV2.with_NewSteps
                     (filter (fun s => ¬ isTodo s) (TaskChainV2.Steps chain)) chain).
    set (sm1 := with_TaskChainsV2 (<[taskID := chain1]> (TaskChainsV2 sm)) sm).
    assert (TaskChainsV2 sm1 !! taskID = Some chain1) as Hchain1 by apply lookup_insert_eq.
    assert (TaskChainV2.Steps chain1 = []) as Hsteps1.
    { unfold chain1. cbn. by apply filter_not_todo_nil. }
    exists sm1. eexists. split; [reflexivity|]. split.
    + unfold stepsOf. rewrite Hchain1.
      cbn [fmap option_fmap option_map default from_option id]. exact Hsteps1.
    + by rewrite (updateStepsV2_no_steps sm1 taskID from updatePlan chain1).
Qed.

(** Chain T has the one step a, Complete: after the delete of step 1 the chain
    has no step, and an update from 5 with the step x leaves the steps a
    (Complete, with its summary) and x. Chain T has the one step b, Todo:
    after the delete of the remaining steps an update has no result. *)
Lemma updateStepsV2_after_emptying_witness :
  (∃ sm1 text1 sm2 text2,
     deleteStepsV2 sessionOneDone "T" 1%float "" = (sm1, NewToolResultText text1) ∧
     stepsOf sm1 "T" = [] ∧
     updateStepsV2 sm1 "T" 5%float [entry "x"] = Some (sm2, NewToolResultText text2) ∧
     stepsOf sm2 "T" =
       [Step.mk 1%float "a" "" StepStatusComplete "done";
        Step.mk 5%float "x" "" StepStatusTodo ""]) ∧
  (∃ sm1 text1,
     deleteStepsV2 sessionOneTodo "T" 0%float "remaining" = (sm1, NewToolResultText text1) ∧
     stepsOf sm1 "T" = [] ∧
     updateStepsV2 sm1 "T" 5%float [entry "x"] = None).
Proof.
  pose (done := default (plannedChain "" "" []) (TaskChainsV2 sessionOneDone !! "T")).
  assert (TaskChainsV2 sessionOneDone !! "T" = Some done) as Hdone.
  { vm_compute. reflexivity. }
  pose (todo := default (plannedChain "" "" []) (TaskChainsV2 sessionOneTodo !! "T")).
  assert (TaskChainsV2 sessionOneTodo !! "T" = Some todo) as Htodo.
  { vm_compute. reflexivity. }
  split.
  - destruct (updateStepsV2_after_emptying sessionOneDone "T" 5%float [entry "x"] done)
      as [Hsingle _]; [discriminate | discriminate | exact Hdone |].
    destruct (Hsingle (Step.mk 1%float "a" "" StepStatusComplete "done") 1%float "")
      as (sm1 & text1 & sm2 & text2 & Hdelete & Hsteps1 & Hupdate & Hsteps2).
    + vm_compute. reflexivity.
    + discriminate.
    + reflexivity.
    + reflexivity.
    + discriminate.
    + exists sm1, text1, sm2, text2. split; [exact Hdelete|]. split; [exact Hsteps1|].
      split; [exact Hupdate|]. rewrite Hsteps2. vm_compute. reflexivity.
  - destruct (updateStepsV2_after_emptying sessionOneTodo "T" 5%float [entry "x"] todo)
      as [_ Hremaining]; [discriminate | discriminate | exact Htodo |].
    apply Hremaining. vm_compute. by repeat constructor.
Defined.
